(** * NBA power rankings: extraction cascade, registry and schedule merge

    A shallow embedding of the scripts of the repository (the successive
    versions [main1.py] ... [main9.py] of one program) and the proofs of the
    properties its specification states about them.

    Conventions of the embedding.
    - A Python [str] is a [string] whose characters are the code points
      below 256 (Latin-1); [str.lower], [str.isspace] and the classes
      [\w], [\s], [\d] of [re] are the restrictions of the Unicode ones to
      that range.
    - A Python [int] is a [Z]; a [datetime.date] is the [Z] of its
      proleptic ordinal, so that [d + timedelta(days=k)] is [d + k].
    - A [dict] is a [gmap], a [set] a [gset].
    - The network and the HTML parser are at the boundary: a session
      answers a URL with a status and the parsed document, a tree of tags
      and text nodes. The parsers of the [datetime] module are a
      parameter.
    - A decoded JSON body is a value of [Json.json]. A loader that
      catches every exception returns its fallback; one that lets an
      exception out returns [None], whatever the exception. *)

From Stdlib Require Import ZArith NArith Ascii String List.
From Stdlib Require Import DecimalString.
From stdpp Require Import base tactics option list gmap strings sorting.

Local Open Scope Z_scope.

(** ** Characters and strings of Python *)

Module Py.

Definition code (c : ascii) : N := N_of_ascii c.

Definition ch_eqb (a b : ascii) : bool := Stdlib.Strings.Ascii.eqb a b.

Definition between (lo hi : N) (c : ascii) : bool :=
  ((lo <=? code c) && (code c <=? hi))%N.

(** [str.isspace] and the class [\s] of [re] on a [str] pattern. *)
Definition is_space (c : ascii) : bool :=
  between 9 13 c || between 28 32 c
  || (code c =? 133)%N || (code c =? 160)%N.

(** The class [\d]. *)
Definition is_digit (c : ascii) : bool := between 48 57 c.

(** The class [\w]: alphanumeric or underscore. *)
Definition is_word (c : ascii) : bool :=
  between 48 57 c || between 65 90 c || (code c =? 95)%N
  || between 97 122 c
  || (code c =? 170)%N || between 178 179 c || (code c =? 181)%N
  || between 185 186 c || between 188 190 c
  || between 192 214 c || between 216 246 c || between 248 255 c.

(** [str.lower] on one character. *)
Definition to_lower (c : ascii) : ascii :=
  if between 65 90 c || between 192 214 c || between 216 222 c
  then ascii_of_N (code c + 32) else c.

Fixpoint lower (s : string) : string :=
  match s with
  | EmptyString => EmptyString
  | String c s' => String (to_lower c) (lower s')
  end.

Definition is_empty (s : string) : bool :=
  match s with EmptyString => true | String _ _ => false end.

Fixpoint lstrip (s : string) : string :=
  match s with
  | EmptyString => EmptyString
  | String c s' => if is_space c then lstrip s' else s
  end.

Fixpoint rstrip (s : string) : string :=
  match s with
  | EmptyString => EmptyString
  | String c s' =>
      let r := rstrip s' in
      if is_space c && is_empty r then EmptyString else String c r
  end.

(** [s.strip()] *)
Definition strip (s : string) : string := rstrip (lstrip s).

(** [s.startswith(p)] *)
Fixpoint startswith (p s : string) : bool :=
  match p, s with
  | EmptyString, _ => true
  | String a p', String b s' => ch_eqb a b && startswith p' s'
  | String _ _, EmptyString => false
  end.

(** [p in s] *)
Fixpoint contains (p s : string) : bool :=
  startswith p s ||
  match s with
  | EmptyString => false
  | String _ s' => contains p s'
  end.

(** [sep.join(l)] *)
Fixpoint join (sep : string) (l : list string) : string :=
  match l with
  | [] => EmptyString
  | [x] => x
  | x :: l' => x +:+ sep +:+ join sep l'
  end.

(** [str(n)] for an [int]. *)
Definition str_of_int (n : Z) : string := NilZero.string_of_int (Z.to_int n).

Definition snoc (s : string) (c : ascii) : string := s +:+ String c "".

(** [s.split()]: the maximal runs of characters that are not white
    space; [cur] is the run being read. *)
Fixpoint split_go (cur : option string) (s : string) : list string :=
  match s with
  | EmptyString => match cur with Some w => [w] | None => [] end
  | String c s' =>
      if is_space c
      then match cur with
           | Some w => w :: split_go None s'
           | None => split_go None s'
           end
      else split_go (Some (snoc (default "" cur) c)) s'
  end.

Definition split (s : string) : list string := split_go None s.

(** The line boundaries of [str.splitlines]: LF, VT, FF, CR, FS, GS, RS
    and NEL; CR LF is one boundary. *)
Definition is_linebreak (c : ascii) : bool :=
  between 10 13 c || between 28 30 c || (code c =? 133)%N.

Fixpoint splitlines_go (after_cr : bool) (cur : string) (s : string)
  : list string :=
  match s with
  | EmptyString => if is_empty cur then [] else [cur]
  | String c s' =>
      if after_cr && (code c =? 10)%N then splitlines_go false cur s'
      else if is_linebreak c
           then cur :: splitlines_go (code c =? 13)%N "" s'
           else splitlines_go false (snoc cur c) s'
  end.

(** [s.splitlines()] *)
Definition splitlines (s : string) : list string := splitlines_go false "" s.

(** [int(s)] for a string of decimal digits. *)
Definition int_of_digits (s : string) : Z :=
  fold_left (fun acc c => 10 * acc + (Z.of_N (code c) - 48))
            (list_ascii_of_string s) 0.

(** The slice [l[:n]]; a negative [n] counts from the end. *)
Definition slice_to {A} (n : Z) (l : list A) : list A :=
  if n <? 0 then take (length l - Z.to_nat (- n)) l else take (Z.to_nat n) l.

(** The slice [l[i:i+3]] is [take 3 (drop i l)]. *)

(** The truth value of an optional string: [None] and the empty string
    are false. *)
Definition truthy (o : option string) : bool :=
  match o with Some (String _ _) => true | _ => false end.

End Py.

(** ** The registry: [_clean], [is_team_name], [canonicalize] (main9.py) *)

Definition CANON_TEAMS : list string :=
  [ "Atlanta Hawks"; "Boston Celtics"; "Brooklyn Nets"; "Charlotte Hornets";
    "Chicago Bulls"; "Cleveland Cavaliers"; "Dallas Mavericks";
    "Denver Nuggets"; "Detroit Pistons"; "Golden State Warriors";
    "Houston Rockets"; "Indiana Pacers"; "Los Angeles Clippers";
    "Los Angeles Lakers"; "Memphis Grizzlies"; "Miami Heat";
    "Milwaukee Bucks"; "Minnesota Timberwolves"; "New Orleans Pelicans";
    "New York Knicks"; "Oklahoma City Thunder"; "Orlando Magic";
    "Philadelphia 76ers"; "Phoenix Suns"; "Portland Trail Blazers";
    "Sacramento Kings"; "San Antonio Spurs"; "Toronto Raptors"; "Utah Jazz";
    "Washington Wizards" ].

Definition ALIASES : gmap string string :=
  list_to_map
    [ ("la clippers", "los angeles clippers");
      ("la lakers", "los angeles lakers");
      ("ny knicks", "new york knicks");
      ("portland blazers", "portland trail blazers");
      ("gs warriors", "golden state warriors");
      ("okc thunder", "oklahoma city thunder");
      ("phx suns", "phoenix suns");
      ("76ers", "philadelphia 76ers");
      ("san antonio", "san antonio spurs");
      ("new orleans", "new orleans pelicans") ].

(** [re.sub(r"[^\w\s]", " ", s)] *)
Fixpoint sub_punct (s : string) : string :=
  match s with
  | EmptyString => EmptyString
  | String c s' =>
      String (if Py.is_word c || Py.is_space c then c else " "%char)
             (sub_punct s')
  end.

(** [re.sub(r"\s+", " ", s)]: every maximal run of white space becomes one
    space; [in_run] tells that the previous character was white space. *)
Fixpoint sub_spaces (in_run : bool) (s : string) : string :=
  match s with
  | EmptyString => EmptyString
  | String c s' =>
      if Py.is_space c
      then if in_run then sub_spaces true s'
           else String " " (sub_spaces true s')
      else String c (sub_spaces false s')
  end.

(** What [\b] needs to know of the text that follows: it is at its end or
    before a character that is not of [\w]. *)
Definition at_word_end (s : string) : bool :=
  match s with
  | EmptyString => true
  | String c _ => negb (Py.is_word c)
  end.

(** [re.sub(r"\bla\b", "los angeles", s)], scanning from the left;
    [after_word] tells that the previous character is of [\w]. *)
Fixpoint sub_la (after_word : bool) (s : string) : string :=
  match s with
  | EmptyString => EmptyString
  | String c s' =>
      match s' with
      | String c' rest =>
          if negb after_word && Py.ch_eqb c "l" && Py.ch_eqb c' "a"
             && at_word_end rest
          then "los angeles" +:+ sub_la true rest
          else String c (sub_la (Py.is_word c) s')
      | EmptyString => String c (sub_la (Py.is_word c) s')
      end
  end.

(** The five rewriting steps of [_clean], before the alias table. *)
Definition clean_steps (s : string) : string :=
  let s := Py.strip (Py.lower s) in
  let s := sub_punct s in
  let s := sub_spaces false s in
  let s := sub_la false s in
  Py.strip s.

Definition _clean (s : string) : string :=
  let s := clean_steps s in
  default s (ALIASES !! s).

Definition CANON_SET : gset string := list_to_set (_clean <$> CANON_TEAMS).

Definition is_team_name (text : string) : bool :=
  bool_decide (_clean text ∈ CANON_SET).

Definition canonicalize (text : string) : string :=
  let key := _clean text in
  if bool_decide (key ∈ CANON_SET) then
    match List.find (fun t => bool_decide (_clean t = key)) CANON_TEAMS with
    | Some t => t
    | None => Py.strip text
    end
  else Py.strip text.

(** ** Regular expressions of [re], by backtracking

    [re.match] tries the alternatives of a pattern in the order a
    backtracking matcher does: the left branch of [|] first, as many
    repetitions as possible for a greedy [*], as few as possible for a lazy
    one. [run] is that search, written with a continuation for the rest of
    the pattern. *)

Module Re.

Inductive re : Type :=
| Chr (p : ascii -> bool)         (* one character of a class *)
| Eps                             (* the empty pattern *)
| Seq (a b : re)
| Alt (a b : re)                  (* a|b *)
| Star (greedy : bool) (a : re)   (* a* and a*? *)
| Group (i : nat) (a : re)        (* capturing group number i *)
| Bol                             (* ^ *)
| Eol.                            (* $ *)

Definition caps := gmap nat string.

Section run.
Context {A : Type}.

Definition cont := nat -> string -> caps -> option A.

(** Repetition of [step]; an iteration has to consume a character, so
    [fuel], the length of the text, is never exhausted. *)
Fixpoint star (fuel : nat) (greedy : bool)
    (step : nat -> string -> caps -> cont -> option A)
    (pos : nat) (s : string) (c : caps) (k : cont) : option A :=
  let more :=
    match fuel with
    | O => None
    | S fuel' =>
        step pos s c (fun pos' s' c' =>
          if (pos <? pos')%nat then star fuel' greedy step pos' s' c' k
          else None)
    end in
  if greedy
  then match more with Some x => Some x | None => k pos s c end
  else match k pos s c with Some x => Some x | None => more end.

(** The first [n] characters of [s]. *)
Fixpoint prefix (n : nat) (s : string) : string :=
  match n, s with
  | S n', String ch s' => String ch (prefix n' s')
  | _, _ => EmptyString
  end.

Fixpoint run (r : re) (pos : nat) (s : string) (c : caps) (k : cont)
  : option A :=
  match r with
  | Chr p =>
      match s with
      | String ch s' => if p ch then k (S pos) s' c else None
      | EmptyString => None
      end
  | Eps => k pos s c
  | Seq a b => run a pos s c (fun pos' s' c' => run b pos' s' c' k)
  | Alt a b =>
      match run a pos s c k with
      | Some x => Some x
      | None => run b pos s c k
      end
  | Star greedy a => star (S (String.length s)) greedy (run a) pos s c k
  | Group i a =>
      run a pos s c (fun pos' s' c' =>
        k pos' s' (<[i := prefix (pos' - pos) s]> c'))
  | Bol => if (pos =? 0)%nat then k pos s c else None
  | Eol =>
      match s with
      | EmptyString => k pos s c
      | String ch EmptyString =>
          if (Py.code ch =? 10)%N then k pos s c else None
      | _ => None
      end
  end.
End run.

(** [re.match(r, s)]: the groups of the first match found at the start
    of [s], or [None]. *)
Definition rmatch (r : re) (s : string) : option caps :=
  run r 0 s ∅ (fun _ _ c => Some c).

(** [m.group(i)] *)
Definition group (m : caps) (i : nat) : string := default "" (m !! i).

(** The length of the match of [r] that starts at position [pos], where
    [s] is the text from that position on. *)
Definition match_len (r : re) (pos : nat) (s : string) : option nat :=
  run r pos s ∅ (fun pos' _ _ => Some (pos' - pos)%nat).

(** The number of matches [re.finditer(r, text)] yields, counted from
    position [pos] on: the matches do not overlap, the search for the next
    one starts where the last one ended; [skip] is the number of characters
    of the last match still to pass. *)
Fixpoint count_from (r : re) (skip pos : nat) (s : string) : nat :=
  match skip with
  | S skip' =>
      match s with
      | EmptyString => 0
      | String _ s' => count_from r skip' (S pos) s'
      end
  | O =>
      match match_len r pos s with
      | Some n =>
          S (match s with
             | EmptyString => 0
             | String _ s' => count_from r (Nat.pred n) (S pos) s'
             end)
      | None =>
          match s with
          | EmptyString => 0
          | String _ s' => count_from r 0 (S pos) s'
          end
      end
  end%nat.

Definition count_matches (r : re) (text : string) : nat := count_from r 0 0 text.

(** Building blocks. *)
Definition plus (a : re) : re := Seq a (Star true a).
Definition plus_lazy (a : re) : re := Seq a (Star false a).
Definition opt (a : re) : re := Alt a Eps.
Definition one_of (cls : string) : re :=
  Chr (fun ch => existsb (Py.ch_eqb ch) (list_ascii_of_string cls)).
Fixpoint lit (s : string) : re :=
  match s with
  | EmptyString => Eps
  | String ch s' => Seq (Chr (Py.ch_eqb ch)) (lit s')
  end.
Definition ws : re := Chr Py.is_space.                          (* \s *)
Definition digit : re := Chr Py.is_digit.                       (* \d *)
Definition dot : re := Chr (fun ch => negb (Py.code ch =? 10)%N). (* . *)

Fixpoint seq (l : list re) : re :=
  match l with
  | [] => Eps
  | [a] => a
  | a :: l' => Seq a (seq l')
  end.

End Re.

(** ** The parsed document

    What BeautifulSoup gives for an HTML page: text nodes and tags with a
    name, attributes and children. The text nodes of a document of the
    model are the strings that [get_text] joins: the document has no
    comment and no text inside [script], [style] or [template], which
    BeautifulSoup keeps in the tree and leaves out of [get_text]. The en
    dash and the em dash of the two patterns below lie outside Latin-1: of
    their separator class and of their dash class only the other characters
    can occur in a text. *)

#[warnings="-register-all"]
Inductive node : Type :=
| NavigableString (text : string)
| Tag (name : string) (attrs : gmap string string) (children : list node).

Module Soup.

(** [tag.descendants]: the nodes below a tag, in document order. *)
Fixpoint descendants (n : node) : list node :=
  match n with
  | NavigableString _ => []
  | Tag _ _ cs =>
      (fix go (l : list node) : list node :=
         match l with
         | [] => []
         | c :: l' => c :: descendants c ++ go l'
         end) cs
  end.

Definition is_tag (n : node) : bool :=
  match n with Tag _ _ _ => true | NavigableString _ => false end.

(** The strings [get_text] joins: every text node below the tag, and with
    [strip=True] each one stripped and the empty ones left out. *)
Definition all_strings (strip : bool) (n : node) : list string :=
  omap (fun d =>
          match d with
          | NavigableString t =>
              if strip
              then let t' := Py.strip t in
                   if Py.is_empty t' then None else Some t'
              else Some t
          | Tag _ _ _ => None
          end) (descendants n).

(** [tag.get_text(sep, strip=strip)] *)
Definition get_text (sep : string) (strip : bool) (n : node) : string :=
  Py.join sep (all_strings strip n).

(** [tag.find_all(names)] *)
Definition find_all (names : list string) (n : node) : list node :=
  List.filter (fun d =>
            match d with
            | Tag nm _ _ => bool_decide (nm ∈ names)
            | NavigableString _ => false
            end) (descendants n).

(** [tag.find("a", href=True)] *)
Definition find_a_href (n : node) : option node :=
  List.find (fun d =>
          match d with
          | Tag nm attrs _ =>
              bool_decide (nm = "a") && bool_decide (is_Some (attrs !! "href"))
          | NavigableString _ => false
          end) (descendants n).

(** [tag.get(key)] *)
Definition attr (key : string) (n : node) : option string :=
  match n with
  | Tag _ attrs _ => attrs !! key
  | NavigableString _ => None
  end.

(** [tag.get("href")] *)
Definition href (n : node) : option string := attr "href" n.

Definition named (name : string) (n : node) : bool :=
  match n with
  | Tag nm _ _ => bool_decide (nm = name)
  | NavigableString _ => false
  end.

(** [soup.find(name)] *)
Definition find (name : string) (n : node) : option node :=
  List.find (named name) (descendants n).

(** [soup.find(name, {key: value})] *)
Definition find_with (name key value : string) (n : node) : option node :=
  List.find (fun d => named name d && bool_decide (attr key d = Some value))
            (descendants n).

(** [a.get("href", "")] for [a] in [soup.select("a[href]")] *)
Definition select_a_href (n : node) : list string :=
  omap (fun d => if named "a" d then href d else None) (descendants n).

End Soup.

(** ** The session

    What a request gives: the status of the response and the document that
    BeautifulSoup makes of its text. The session is the page a URL answers
    with, or [None] when the request raises. *)

Record page : Type := {
  status_code : Z;
  soup : node;
}.

Definition session : Type := string -> option page.

(** [r.raise_for_status()] raises for the statuses 400 to 599. *)
Definition raises_for_status (pg : page) : bool :=
  (400 <=? status_code pg) && (status_code pg <? 600).

(** ** Rank extraction: [parse_top_teams_from_article] (main5.py, main9.py)

    The text of the function is the same in main5.py, main7.py, main8.py
    and main9.py. It is embedded with the registry of main9.py. The alias
    table of main5.py and main8.py lacks two entries of that of main9.py
    ([Registry8]): the functions of these files differ from the embedding
    where [is_team_name] decides on a text with the normal form of one of
    the two keys. *)

(** The exceptions a call can end with, and the results of calls. *)
Inductive exn : Type :=
| RuntimeError (msg : string)
| KeyError (key : Z)
| IndexError
| TypeError
| HTTPError.

Inductive result (A : Type) : Type :=
| Returned (a : A)
| Raised (e : exn).
Arguments Returned {A} a.
Arguments Raised {A} e.

(** The three scans of the cascade, for the ghost trace of a call. *)
Inductive strategy : Type := MarkerScan | OrdinalScan | LineScan.

Module Extract.
Import Py Soup.

(** The nested function [is_rank_marker]. *)
Definition is_rank_marker (n : node) (rank : Z) : bool :=
  match n with
  | NavigableString t => String.eqb (strip t) ("#" +:+ str_of_int rank)
  | Tag _ _ _ => String.eqb (get_text "" true n) ("#" +:+ str_of_int rank)
  end.

(** [for t in CANON_TEAMS: if t in txt: ... break] *)
Definition first_team_in (txt : string) : option string :=
  List.find (fun t => contains t txt) CANON_TEAMS.

(** The loop over [j]: [window] is [nodes[i+1 : min(i+600, len(nodes))]];
    the result is the value of [found] when the loop ends. *)
Fixpoint scan_window (rank : Z) (window : list node) : option string :=
  match window with
  | [] => None
  | nxt :: rest =>
      if is_rank_marker nxt (rank + 1) then None
      else
        match nxt with
        | NavigableString _ => scan_window rank rest
        | Tag name _ _ =>
            let txt := get_text " " true nxt in
            if bool_decide (name = "a") && truthy (href nxt)
               && contains "/team/" (default "" (href nxt))
               && is_team_name txt
            then Some (canonicalize txt)
            else
              let found := if is_empty txt then None else first_team_in txt in
              if truthy found then found else scan_window rank rest
        end
  end.

(** The loop over [i] for one rank: every marker of the rank is tried in
    document order until the scan after one of them finds a team. The
    nodes after position [i] are [rest], and the range of [j] has at most
    599 of them. *)
Fixpoint scan_markers (rank : Z) (nodes : list node) : option string :=
  match nodes with
  | [] => None
  | n :: rest =>
      if is_rank_marker n rank then
        let found := scan_window rank (take 599 rest) in
        if truthy found then found else scan_markers rank rest
      else scan_markers rank rest
  end.

(** Strategy 1, the loop over [rank in range(1, top_n + 1)]. *)
Definition strategy1 (nodes : list node) (top_n : Z) : gmap Z string :=
  foldl (fun results rank =>
           match scan_markers rank nodes with
           | Some t => if truthy (Some t) then <[rank := t]> results else results
           | None => results
           end) ∅ (seqZ 1 top_n).

(** [[m[r] for r in rs]] *)
Fixpoint lookup_each (m : gmap Z string) (rs : list Z) (acc : list string)
  : result (list string) :=
  match rs with
  | [] => Returned (rev acc)
  | r :: rs' =>
      match m !! r with
      | Some t => lookup_each m rs' (t :: acc)
      | None => Raised (KeyError r)
      end
  end.

(** The pattern of the ordinal scan (main9.py, line 219): white space,
    group 1 of one or two digits, white space, one separator among
    [. ) - :] and the en and em dash, white space at least once, group 2
    lazily of one character or more, white space, and then a dash with
    white space and any text, or an opening parenthesis and any text, or
    the end of the text. *)
Definition ordinal_re : Re.re :=
  Re.seq [ Re.Bol; Re.Star true Re.ws;
           Re.Group 1 (Re.Seq Re.digit (Re.opt Re.digit));
           Re.Star true Re.ws; Re.one_of ".)-:"; Re.plus Re.ws;
           Re.Group 2 (Re.plus_lazy Re.dot); Re.Star true Re.ws;
           Re.Alt (Re.seq [Re.one_of "-"; Re.plus Re.ws; Re.Star true Re.dot])
             (Re.Alt (Re.seq [Re.one_of "("; Re.Star true Re.dot]) Re.Eol) ].

Definition block_tags : list string :=
  ["h1"; "h2"; "h3"; "h4"; "h5"; "p"; "li"; "strong"; "div"; "span"].

(** The body of the loop over the block tags: the candidate the tag
    yields, if any. *)
Definition ordinal_candidate (tag : node) : option (Z * string) :=
  let txt := join " " (split (get_text " " false tag)) in
  match Re.rmatch ordinal_re txt with
  | Some m =>
      let rnk := int_of_digits (Re.group m 1) in
      let name := strip (Re.group m 2) in
      let name :=
        match find_a_href tag with
        | Some a =>
            if contains "/team/" (default "" (href a))
            then let t := get_text " " true a in
                 if is_empty t then name else t
            else name
        | None => name
        end in
      if is_team_name name then Some (rnk, canonicalize name) else None
  | None => None
  end.

(** Strategy 2: the candidates, then [by_rank], first occurrence wins. *)
Definition strategy2 (article : node) : gmap Z string :=
  let candidates := omap ordinal_candidate (find_all block_tags article) in
  foldl (fun by_rank '(rnk, nm) =>
           if (1 <=? rnk) && (rnk <=? 30)
              && negb (bool_decide (is_Some (by_rank !! rnk)))
           then <[rnk := nm]> by_rank else by_rank)
        ∅ candidates.

(** [sorted(by_rank)], the keys in increasing order. *)
Definition sorted_keys (m : gmap Z string) : list Z :=
  merge_sort Z.le (fst <$> map_to_list m).

(** The pattern compiled for rank [rnk] (main9.py, line 238): at the
    start of the line an optional [#] or [No.] with white space after it,
    then the digits of [rnk], then one of [. ) - :], a space, an en or em
    dash, or the end of the line. *)
Definition line_re (rnk : Z) : Re.re :=
  Re.seq [ Re.Bol;
           Re.opt (Re.Alt (Re.lit "#") (Re.Seq (Re.lit "No.") (Re.Star true Re.ws)));
           Re.lit (str_of_int rnk);
           Re.Alt (Re.one_of ".)-: ") Re.Eol ].

(** The loop over the lines for one rank; [lines] is the list from the
    current line on, so that [lines[i:i+3]] is [take 3 lines]. *)
Fixpoint scan_lines (rnk : Z) (lines : list string) (by_rank : gmap Z string)
  : gmap Z string :=
  match lines with
  | [] => by_rank
  | line :: rest =>
      if bool_decide (is_Some (Re.rmatch (line_re rnk) line)) then
        let window := join " " (take 3 lines) in
        let by_rank :=
          match first_team_in window with
          | Some t => <[rnk := t]> by_rank
          | None => by_rank
          end in
        if bool_decide (is_Some (by_rank !! rnk)) then by_rank
        else scan_lines rnk rest by_rank
      else scan_lines rnk rest by_rank
  end.

(** Strategy 3, on the [by_rank] that strategy 2 leaves. *)
Definition strategy3 (lines : list string) (top_n : Z)
    (by_rank : gmap Z string) : gmap Z string :=
  foldl (fun by_rank rnk => scan_lines rnk lines by_rank) by_rank
        (seqZ 1 top_n).

Definition article_lines (article : node) : list string :=
  strip <$> splitlines (get_text (String "010"%char "") false article).

Definition error_message (top_n : Z) (url : string) : string :=
  "Could not extract top " +:+ str_of_int top_n
    +:+ " teams from the article at " +:+ url.

(** The function from the end of strategy 1 on, given the [results] the
    first strategy has built. The first component is the ghost trace: the
    scans that have been started. *)
Definition after_strategy1 (results : gmap Z string) (article : node)
    (url : string) (top_n : Z) : list strategy * result (list string) :=
  if Z.of_nat (size results) >=? top_n
  then ([MarkerScan], lookup_each results (seqZ 1 top_n) [])
  else
    let by_rank := strategy2 article in
    if negb (bool_decide (by_rank = ∅)) && (Z.of_nat (size by_rank) >=? top_n)
    then ([MarkerScan; OrdinalScan],
          lookup_each by_rank (slice_to top_n (sorted_keys by_rank)) [])
    else
      let by_rank := strategy3 (article_lines article) top_n by_rank in
      let in_range :=
        List.filter (fun k => (1 <=? k) && (k <=? top_n))
                    (fst <$> map_to_list by_rank) in
      if Z.of_nat (length in_range) >=? top_n
      then ([MarkerScan; OrdinalScan; LineScan],
            lookup_each by_rank (seqZ 1 top_n) [])
      else ([MarkerScan; OrdinalScan; LineScan],
            Raised (RuntimeError (error_message top_n url))).

(** [soup.find("article") or soup] *)
Definition article_of (soup : node) : node :=
  default soup (find "article" soup).

(** The function on the document of the page, once it is fetched. *)
Definition parse_document (soup : node) (url : string) (top_n : Z)
  : list strategy * result (list string) :=
  let article := article_of soup in
  after_strategy1 (strategy1 (descendants article) top_n) article url top_n.

Definition parse_top_teams_from_article (sess : session) (url : string)
    (top_n : Z) : list strategy * result (list string) :=
  match sess url with
  | None => ([], Raised HTTPError)
  | Some r =>
      if raises_for_status r then ([], Raised HTTPError)
      else parse_document (soup r) url top_n
  end.

End Extract.

(** ** Article selection: [get_latest_power_rankings_article] (main8.py)

    A [datetime] is the reading of its clock, in microseconds since
    [datetime.min], and the offset to UTC of an aware one. The order [<] of
    two naive or of two aware values compares the readings, respectively
    the instants; between a naive and an aware value it raises
    [TypeError]. *)

Record datetime : Type := {
  ticks : N;
  utcoffset : option Z;
}.

(** The two parsers of the [datetime] module that the code calls; [None]
    is the exception they raise on a text they do not accept. The value
    [strptime] returns is naive when the format has no [%z], aware when it
    has one and the text matches; the one [fromisoformat] returns is aware
    when the text has an offset. *)
Record datetime_module : Type := {
  strptime : string -> string -> option datetime;
  fromisoformat : string -> option datetime;
}.

Module Select.
Import Py Soup.

(** [datetime.min.replace(tzinfo=None)] *)
Definition datetime_min : datetime := {| ticks := 0; utcoffset := None |}.

(** [a < b] *)
Definition lt (a b : datetime) : result bool :=
  match utcoffset a, utcoffset b with
  | None, None => Returned (ticks a <? ticks b)%N
  | Some oa, Some ob =>
      Returned (Z.of_N (ticks a) - oa <? Z.of_N (ticks b) - ob)
  | _, _ => Raised TypeError
  end.

Definition INDEX_CANDIDATES : list string :=
  [ "https://www.nba.com/news/category/power-rankings";
    "https://www.nba.com/news/power-rankings" ].

Definition _absolutize (href : string) : string :=
  if startswith "http" href then href
  else if startswith "/" href then "https://www.nba.com" +:+ href
  else href.

(** [s.rstrip("/")] *)
Fixpoint rstrip_slash (s : string) : string :=
  match s with
  | EmptyString => EmptyString
  | String c s' =>
      let r := rstrip_slash s' in
      if ch_eqb c "/" && is_empty r then EmptyString else String c r
  end.

Definition _is_valid_article_href (href : string) : bool :=
  let href_l := lower href in
  if negb (startswith "/news/" href_l) then false
  else if contains "/category/" href_l then false
  else if String.eqb (rstrip_slash href_l) "/news/power-rankings" then false
  else if negb (contains "power-rankings" href_l) then false
  else true.

(** [s.replace("Z", "+00:00")] *)
Fixpoint replace_Z (s : string) : string :=
  match s with
  | EmptyString => EmptyString
  | String c s' =>
      if ch_eqb c "Z" then "+00:00" +:+ replace_Z s'
      else String c (replace_Z s')
  end.

Definition publish_formats : list string :=
  [ "%Y-%m-%dT%H:%M:%SZ"; "%Y-%m-%dT%H:%M:%S%z"; "%Y-%m-%d" ].

(** The loop over the formats: the first that parses the text. *)
Fixpoint first_parse (dt : datetime_module) (content : string)
    (fmts : list string) : option datetime :=
  match fmts with
  | [] => None
  | fmt :: fmts' =>
      match strptime dt content fmt with
      | Some t => Some t
      | None => first_parse dt content fmts'
      end
  end.

Definition _extract_publish_time (dt : datetime_module) (soup : node)
  : option datetime :=
  let meta :=
    match find_with "meta" "property" "article:published_time" soup with
    | Some m => Some m
    | None => find_with "meta" "name" "publishDate" soup
    end in
  let from_meta :=
    match meta with
    | Some m =>
        if truthy (attr "content" m)
        then first_parse dt (default "" (attr "content" m)) publish_formats
        else None
    | None => None
    end in
  match from_meta with
  | Some t => Some t
  | None =>
      match find "time" soup with
      | Some t =>
          if truthy (attr "datetime" t)
          then fromisoformat dt (replace_Z (default "" (attr "datetime" t)))
          else None
      | None => None
      end
  end.

(** The pattern of the markers (main8.py, line 121): the start of the
    text or a white space, [#], one or two digits, and a white space or
    the end of the text. *)
Definition marker_re : Re.re :=
  Re.seq [ Re.Alt Re.Bol Re.ws; Re.lit "#"; Re.digit; Re.opt Re.digit;
           Re.Alt Re.ws Re.Eol ].

Definition _looks_like_power_rankings_article (soup : node) : bool :=
  let art := default soup (find "article" soup) in
  let text := join " " (split (get_text " " false art)) in
  let markers := Re.count_matches marker_re text in
  let team_hits := length (List.filter (fun t => contains t text) CANON_TEAMS) in
  ((2 <=? markers) || (10 <=? team_hits))%nat.

(** The loop that removes duplicates, keeping the first occurrences. *)
Definition dedupe (candidates : list string) : list string :=
  snd (foldl (fun '(seen, ordered) u =>
                if bool_decide (u ∈ seen) then (seen, ordered)
                else (({[u]} ∪ seen : gset string), ordered ++ [u]))
             (∅, []) candidates).

(** The body of the loop over [ordered[:12]]: what is appended to
    [scored]; an exception and a status other than 200 skip the
    candidate. *)
Definition score (dt : datetime_module) (sess : session) (u : string)
  : option (datetime * string) :=
  match sess u with
  | None => None
  | Some rr =>
      if negb (status_code rr =? 200) then None
      else if negb (_looks_like_power_rankings_article (soup rr)) then None
      else Some (default datetime_min (_extract_publish_time dt (soup rr)), u)
  end.

(** [sorted(scored, key=lambda x: x[0], reverse=True)]: a stable sort in
    decreasing order of the keys, which it compares by [<]. An element
    goes before the first one whose key is smaller than its own. A
    comparison that raises ends the sort; a sort of a list with a naive
    and an aware key makes such a comparison, in whatever order it
    compares. *)
Fixpoint insert_desc (x : datetime * string) (l : list (datetime * string))
  : result (list (datetime * string)) :=
  match l with
  | [] => Returned [x]
  | y :: l' =>
      match lt (fst y) (fst x) with
      | Raised e => Raised e
      | Returned true => Returned (x :: l)
      | Returned false =>
          match insert_desc x l' with
          | Returned r => Returned (y :: r)
          | Raised e => Raised e
          end
      end
  end.

Definition sorted_desc (l : list (datetime * string))
  : result (list (datetime * string)) :=
  foldl (fun acc x =>
           match acc with
           | Returned r => insert_desc x r
           | Raised e => Raised e
           end) (Returned []) l.

(** The function from the removal of duplicates on: [candidates] are the
    links found on the index pages, in order. *)
Definition select_article (dt : datetime_module) (sess : session)
    (candidates : list string) : result string :=
  let ordered := dedupe candidates in
  match ordered with
  | [] => Raised (RuntimeError
            "Could not find any Power Rankings article links on index pages.")
  | first :: _ =>
      let scored := omap (score dt sess) (take 12 ordered) in
      match scored with
      | [] => Returned first
      | _ :: _ =>
          match sorted_desc scored with
          | Returned ((_, u) :: _) => Returned u
          | Returned [] => Raised IndexError
          | Raised e => Raised e
          end
      end
  end.

(** The loop over the index pages. *)
Fixpoint collect (sess : session) (urls : list string)
    (candidates : list string) : result (list string) :=
  match urls with
  | [] => Returned candidates
  | url :: urls' =>
      match sess url with
      | None => Raised HTTPError
      | Some r =>
          if raises_for_status r then Raised HTTPError
          else collect sess urls'
                 (candidates ++
                  (_absolutize
                     <$> List.filter _is_valid_article_href
                           (select_a_href (soup r))))
      end
  end.

Definition get_latest_power_rankings_article (dt : datetime_module)
    (sess : session) : result string :=
  match collect sess INDEX_CANDIDATES [] with
  | Raised e => Raised e
  | Returned candidates => select_article dt sess candidates
  end.

End Select.

(** ** The schedule merge: [upcoming_opponents_next_week]

    A game record is the dictionary with the keys [date], [home] and
    [away]; an entry of the result is the tuple of a date, an opponent and
    a venue. The date [today] that the functions read from the clock is
    their first argument. *)

Inductive venue : Type := HOME | AWAY.

Record game : Type := {
  date : Z;
  home : string;
  away : string;
}.

Module Sched.

Definition entry : Type := Z * string * venue.

(** [by_team[k].append(e)] on a [defaultdict(list)] *)
Definition append_to {K} `{Countable K} {V} (k : K) (e : V)
    (m : gmap K (list V)) : gmap K (list V) :=
  <[k := default [] (m !! k) ++ [e]]> m.

(** [l.sort(key=lambda x: x[0])], a stable sort on the dates. *)
Fixpoint insert_by_date (x : entry) (l : list entry) : list entry :=
  match l with
  | [] => [x]
  | y :: l' =>
      if x.1.1 <=? y.1.1 then x :: l else y :: insert_by_date x l'
  end.

Definition sort_by_date (l : list entry) : list entry :=
  foldr insert_by_date [] l.

(** The two appends for a game on day [d], with the [_clean] of
    main9.py. *)
Definition add_entries (want : gset string) (d : Z) (h a : string)
    (by_team : gmap string (list entry)) : gmap string (list entry) :=
  let by_team :=
    if bool_decide (_clean h ∈ want) then append_to h (d, a, HOME) by_team
    else by_team in
  if bool_decide (_clean a ∈ want) then append_to a (d, h, AWAY) by_team
  else by_team.

End Sched.

(** main9.py: the live scoreboard for today and the day-by-day feed for
    the days after. *)
Module Main9.
Import Sched.

(** The nested function [add_game]. *)
Definition add_game (today end_ : Z) (want : gset string)
    (by_team : gmap string (list entry)) (g : game)
  : gmap string (list entry) :=
  if negb ((today <=? date g) && (date g <=? end_)) then by_team
  else add_entries want (date g) (home g) (away g) by_team.

Definition upcoming_opponents_next_week (today : Z)
    (todays_games future_games : list game) (teams : list string) (days : Z)
  : gmap string (list entry) :=
  let end_ := today + (days - 1) in
  let want : gset string := list_to_set (_clean <$> teams) in
  let by_team := foldl (add_game today end_ want) ∅ todays_games in
  let by_team := foldl (add_game today end_ want) by_team future_games in
  sort_by_date <$> by_team.

(** What the day-by-day feed answers for a date: the home and away names
    of its events, already canonical, or [None] when the request
    raises. *)
Definition feed : Type := Z -> option (list (string * string)).

(** [load_future_games_from_espn]: tomorrow to [today + days_ahead]. *)
Definition load_future_games_from_espn (espn : feed) (today days_ahead : Z)
  : list game :=
  mjoin ((fun i =>
            let d := today + i in
            match espn d with
            | Some evs =>
                (fun '(h, a) => {| date := d; home := h; away := a |}) <$> evs
            | None => []
            end) <$> seqZ 1 days_ahead).

End Main9.

(** The registry of main8.py (lines 52 to 69; main5.py has the same):
    the rewriting steps of [_clean] are those of main9.py, the alias table
    has eight entries, without the two that main9.py adds. *)
Module Registry8.

Definition ALIASES : gmap string string :=
  list_to_map
    [ ("la clippers", "los angeles clippers");
      ("la lakers", "los angeles lakers");
      ("ny knicks", "new york knicks");
      ("portland blazers", "portland trail blazers");
      ("gs warriors", "golden state warriors");
      ("okc thunder", "oklahoma city thunder");
      ("phx suns", "phoenix suns");
      ("76ers", "philadelphia 76ers") ].

Definition _clean (s : string) : string :=
  let s := clean_steps s in
  default s (ALIASES !! s).

End Registry8.

(** main8.py: the live scoreboard for today and the season schedule for
    the days after. *)
Module Main8.
Import Sched.

(** The two appends for a game on day [d], which the two loops of
    main8.py write out, with the [_clean] of that file. *)
Definition add_entries (want : gset string) (d : Z) (h a : string)
    (by_team : gmap string (list entry)) : gmap string (list entry) :=
  let by_team :=
    if bool_decide (Registry8._clean h ∈ want)
    then append_to h (d, a, HOME) by_team
    else by_team in
  if bool_decide (Registry8._clean a ∈ want)
  then append_to a (d, h, AWAY) by_team
  else by_team.

Definition upcoming_opponents_next_week (today : Z)
    (todays_games league_schedule : list game) (teams : list string)
    (days : Z) : gmap string (list entry) :=
  let end_ := today + (days - 1) in
  let want : gset string := list_to_set (Registry8._clean <$> teams) in
  (* Index schedule by date *)
  let sched_by_date : gmap Z (list game) :=
    foldl (fun m g =>
             if (today <=? date g) && (date g <=? end_)
             then append_to (date g) g m else m) ∅ league_schedule in
  (* Today's live games *)
  let by_team :=
    foldl (fun m g => add_entries want (date g) (home g) (away g) m)
          ∅ todays_games in
  (* Future days from the discovered schedule *)
  let by_team :=
    foldl (fun m cur =>
             foldl (fun m g => add_entries want cur (home g) (away g) m)
                   m (default [] (sched_by_date !! cur)))
          by_team (seqZ (today + 1) (end_ - today)) in
  sort_by_date <$> by_team.

End Main8.

(** main1.py: one dated scoreboard per day of the range. *)
Module Main1.
Import Sched.

(** [[start + timedelta(days=i) for i in range(days + 1)]] *)
Definition date_range_days (start days : Z) : list Z :=
  (fun i => start + i) <$> seqZ 0 (days + 1).

(** A game of a dated scoreboard and a team of the index, as the code
    reads them: identifiers, tricodes, full name. *)
Record sb_game : Type := {
  hid : string; vid : string; h_tri : string; v_tri : string;
}.

Record team : Type := {
  teamId : string; fullName : string; tricode : string;
}.

(** The nested function [full_by_tid]. *)
Definition full_by_tid (teams_index : list team) (tid fallback_tri : string)
  : string :=
  match List.find (fun e => String.eqb (teamId e) tid) teams_index with
  | Some e => fullName e
  | None =>
      match List.find (fun e => String.eqb (tricode e) fallback_tri)
                      teams_index with
      | Some e => fullName e
      | None => if Py.is_empty fallback_tri then tid else fallback_tri
      end
  end.

(** The scoreboards by date; [None] when the request raises. *)
Definition scoreboards : Type := Z -> option (list sb_game).

Definition add_sb_game (team_ids : list string) (teams_index : list team)
    (d : Z) (by_team : gmap string (list entry)) (g : sb_game)
  : gmap string (list entry) :=
  let by_team :=
    if bool_decide (hid g ∈ team_ids)
    then append_to (hid g) (d, full_by_tid teams_index (vid g) (v_tri g), HOME)
                   by_team
    else by_team in
  if bool_decide (vid g ∈ team_ids)
  then append_to (vid g) (d, full_by_tid teams_index (hid g) (h_tri g), AWAY)
                 by_team
  else by_team.

Fixpoint over_dates (sb : scoreboards) (team_ids : list string)
    (teams_index : list team) (dates : list Z)
    (by_team : gmap string (list entry))
  : result (gmap string (list entry)) :=
  match dates with
  | [] => Returned by_team
  | d :: dates' =>
      match sb d with
      | None => Raised HTTPError
      | Some games =>
          over_dates sb team_ids teams_index dates'
            (foldl (add_sb_game team_ids teams_index d) by_team games)
      end
  end.

Definition upcoming_opponents_next_week (today : Z) (sb : scoreboards)
    (team_ids : list string) (teams_index : list team) (days : Z)
  : result (gmap string (list entry)) :=
  match over_dates sb team_ids teams_index (date_range_days today days) ∅ with
  | Returned by_team => Returned (sort_by_date <$> by_team)
  | Raised e => Raised e
  end.

End Main1.

(** ** Normal forms of [clean_steps], used to reason about it *)

Module Norm.

(** Every character of [s] satisfies [P]. *)
Fixpoint all_chars (P : ascii -> bool) (s : string) : bool :=
  match s with
  | EmptyString => true
  | String c s' => P c && all_chars P s'
  end.

Definition lowered (c : ascii) : bool := Py.ch_eqb (Py.to_lower c) c.

Definition word_or_space (c : ascii) : bool := Py.is_word c || Py.is_space c.

(** The only white space of [s] is the space character, never twice in a
    row ([in_run]: the previous character was a space). *)
Fixpoint spaced (in_run : bool) (s : string) : bool :=
  match s with
  | EmptyString => true
  | String c s' =>
      if Py.is_space c
      then Py.ch_eqb c " " && negb in_run && spaced true s'
      else spaced false s'
  end.

(** [\bla\b] matches at the start of [s]. *)
Definition la_here (after_word : bool) (s : string) : bool :=
  match s with
  | String c (String c' rest) =>
      negb after_word && Py.ch_eqb c "l" && Py.ch_eqb c' "a"
      && at_word_end rest
  | _ => false
  end.

(** [\bla\b] matches somewhere in [s]. *)
Fixpoint has_la (after_word : bool) (s : string) : bool :=
  match s with
  | EmptyString => false
  | String c s' => la_here after_word s || has_la (Py.is_word c) s'
  end.

(** The five properties of a text on which the five steps do nothing. *)
Record normal (t : string) : Prop := {
  normal_lower : all_chars lowered t = true;
  normal_chars : all_chars word_or_space t = true;
  normal_spaced : spaced false t = true;
  normal_la : has_la false t = false;
  normal_strip : Py.strip t = t;
}.

(** The words of [s]: its maximal runs of characters of [\w]; [cur] is
    the word being read. *)
Fixpoint words_go (cur : option string) (s : string) : list string :=
  match s with
  | EmptyString => option_list cur
  | String c s' =>
      if Py.is_word c then words_go (Some (Py.snoc (default "" cur) c)) s'
      else option_list cur ++ words_go None s'
  end.

Definition words (s : string) : list string := words_go None s.

(** What [sub_la] does to a word. *)
Definition expand (w : string) : list string :=
  if String.eqb w "la" then ["los"; "angeles"] else [w].

Definition expand_all (ws : list string) : list string := ws ≫= expand.

(** The same, but for the first word, which is left as it is. *)
Definition expand_rest (ws : list string) : list string :=
  match ws with
  | [] => []
  | w :: ws' => w :: expand_all ws'
  end.

End Norm.

(** ** Insensitivity to punctuation, in the words of the specification

    Section 4.1 of the specification has [normalize] turn every character
    that is not alphanumeric into a space. Two readings of a text without
    its punctuation: the text with its punctuation deleted, and the words
    of the text, with every character that is not alphanumeric as a
    separator. *)

Module Spec41.

(** [str.isalnum] on one character: the class [\w] without the
    underscore. *)
Definition is_alnum (c : ascii) : bool :=
  Py.is_word c && negb (Py.code c =? 95)%N.



(** The maximal runs of alphanumeric characters of the text; [cur] is
    the run being read. *)
Fixpoint words_go (cur : option string) (s : string) : list string :=
  match s with
  | EmptyString => option_list cur
  | String c s' =>
      if is_alnum c then words_go (Some (Py.snoc (default "" cur) c)) s'
      else option_list cur ++ words_go None s'
  end.

Definition words (s : string) : list string := words_go None s.

End Spec41.

(** ** What one game contributes to the list of one team *)

Module Contrib.
Import Sched.

(** The entries that the two appends of [add_entries] add under the key
    [k]. *)
Definition of_game (want : gset string) (k : string) (d : Z) (h a : string)
  : list entry :=
  (if bool_decide (_clean h ∈ want) && bool_decide (h = k)
   then [(d, a, HOME)] else [])
  ++ (if bool_decide (_clean a ∈ want) && bool_decide (a = k)
      then [(d, h, AWAY)] else []).

Definition in_window (today end_ : Z) (g : game) : bool :=
  (today <=? date g) && (date g <=? end_).

(** The step of the loop of main8.py that indexes the schedule. *)
Definition index_step (today end_ : Z) (m : gmap Z (list game)) (g : game)
  : gmap Z (list game) :=
  if (today <=? date g) && (date g <=? end_)
  then append_to (date g) g m else m.

(** The entries [Main9.add_game] adds under [k] for the game [g]. *)
Definition main9 (today end_ : Z) (want : gset string) (k : string)
    (g : game) : list entry :=
  if in_window today end_ g
  then of_game want k (date g) (home g) (away g) else [].

End Contrib.

(** ** Comparable timestamps *)

Module Stamp.

Definition aware (t : datetime) : bool :=
  match utcoffset t with Some _ => true | None => false end.

(** The instant of a timestamp: its reading, less the offset of an aware
    one. Among naive ones, and among aware ones, [<] is the order of the
    instants. *)
Definition instant (t : datetime) : Z :=
  Z.of_N (ticks t) - default 0 (utcoffset t).

(** All keys of [l] are naive, or all are aware. *)
Definition uniform (l : list (datetime * string)) : Prop :=
  forall x y, x ∈ l -> y ∈ l -> aware x.1 = aware y.1.

(** In decreasing order of the instants. *)
Definition descending (l : list (datetime * string)) : Prop :=
  StronglySorted (fun a b => instant b.1 <= instant a.1) l.

End Stamp.

(** ** What the scans find, without the dictionaries *)

Module Found.
Import Py Extract.

(** The team strategy 1 records for [rank], if any. *)
Definition by_markers (nodes : list node) (rank : Z) : option string :=
  match scan_markers rank nodes with
  | Some t => if truthy (Some t) then Some t else None
  | None => None
  end.

(** The team the line scan of strategy 3 writes for [rnk], if any.
    [had] tells that [by_rank] has an entry for [rnk] before the scan:
    then the scan stops at the first line that matches the pattern,
    whether its window names a team or not. *)
Fixpoint by_lines (rnk : Z) (had : bool) (lines : list string)
  : option string :=
  match lines with
  | [] => None
  | line :: rest =>
      if bool_decide (is_Some (Re.rmatch (line_re rnk) line)) then
        match first_team_in (join " " (take 3 lines)) with
        | Some t => Some t
        | None => if had then None else by_lines rnk had rest
        end
      else by_lines rnk had rest
  end.

End Found.

(** ** Sample documents *)

Module Doc.

Definition text (s : string) : node := NavigableString s.
Definition el (name : string) (children : list node) : node :=
  Tag name ∅ children.
Definition link (href text_ : string) : node :=
  Tag "a" {[ "href" := href ]} [text text_].
Definition p (s : string) : node := el "p" [text s].

(** Markers [#1] and [#2], each followed by a link to a team page. *)
Definition with_markers : node :=
  el "article"
    [ el "span" [text "#1"]; link "/team/1610612738/celtics" "Boston Celtics";
      el "span" [text " #2 "];
      el "div" [ text "Last week: 3";
                 link "/team/1610612743/nuggets" "Denver Nuggets" ] ].

(** An ordinal list whose first line names its team by the nickname
    alone, which is not a name of the roster. *)
Definition rank_1_by_nickname : node :=
  el "article"
    [ p "1. Thunder"; p "2. Boston Celtics"; p "3. Denver Nuggets";
      p "4. Miami Heat"; p "5. Utah Jazz" ].


(** Headings with ordinals and no marker. *)
Definition headings : node :=
  el "article"
    [ el "h2" [text "1. Boston Celtics"]; p "Last week: 1";
      el "h2" [text "2. Denver Nuggets"]; p "Last week: 3";
      el "h2" [text "3. Oklahoma City Thunder"]; p "Last week: 2";
      el "h2" [text "4. LA Clippers"]; p "Last week: 6" ].


(** The page a server answers with for an article, and a session that
    serves the given pages and fails on any other URL. *)
Definition page_of (article : node) : page :=
  {| status_code := 200;
     soup := Tag "[document]" ∅ [el "html" [el "body" [article]]] |}.

Fixpoint serve (pages : list (string * page)) : session :=
  fun url =>
    match pages with
    | [] => None
    | (u, pg) :: pages' =>
        if String.eqb url u then Some pg else serve pages' url
    end.

Definition week1 : string :=
  "https://www.nba.com/news/power-rankings-2024-25-week-1".
Definition week2 : string :=
  "https://www.nba.com/news/power-rankings-2024-25-week-2".

(** An index page that links the articles of week 2 and of week 1. *)
Definition index_page : page :=
  {| status_code := 200;
     soup := Tag "[document]" ∅
               [ el "ul"
                   [ el "li" [link "/news/power-rankings-2024-25-week-2" "Week 2"];
                     el "li" [link "/news/power-rankings-2024-25-week-1" "Week 1"];
                     el "li" [link "/news/category/power-rankings" "More"] ] ] |}.

(** An article page with two markers and, in its head, the given tags. *)
Definition ranking_page (head : list node) : page :=
  {| status_code := 200;
     soup := Tag "[document]" ∅
               [ el "html"
                   [ el "head" head;
                     el "body"
                       [ el "article"
                           [ el "span" [text "#1"];
                             link "/team/1610612738/celtics" "Boston Celtics";
                             el "span" [text "#2"];
                             link "/team/1610612743/nuggets" "Denver Nuggets" ] ] ] ] |}.

Definition meta_published (content : string) : node :=
  Tag "meta" {[ "property" := "article:published_time"; "content" := content ]} [].

Definition time_tag (datetime_ : string) : node :=
  Tag "time" {[ "datetime" := datetime_ ]} [].

(** The values of the two parsers on the texts of the examples: noon of
    21 October 2024 read by the format that ends in a literal Z, which is
    naive, and noon of 28 October 2024 at offset zero read from an ISO
    text or by the format with an offset, which is aware. *)
Definition parsers : datetime_module :=
  {| strptime := fun content fmt =>
       if String.eqb content "2024-10-21T12:00:00Z"
          && String.eqb fmt "%Y-%m-%dT%H:%M:%SZ"
       then Some {| ticks := 63865108800000000; utcoffset := None |}
       else if String.eqb content "2024-10-21T12:00:00Z"
               && String.eqb fmt "%Y-%m-%dT%H:%M:%S%z"
       then Some {| ticks := 63865108800000000; utcoffset := Some 0 |}
       else if String.eqb content "2024-10-28T12:00:00+0000"
               && String.eqb fmt "%Y-%m-%dT%H:%M:%S%z"
       then Some {| ticks := 63865713600000000; utcoffset := Some 0 |}
       else None;
     fromisoformat := fun text =>
       if String.eqb text "2024-10-28T12:00:00+00:00"
       then Some {| ticks := 63865713600000000; utcoffset := Some 0 |}
       else None |}.

End Doc.

(** ** The loops of the selection, from any state on *)

Module Pick.
Import Select Stamp.

(** The loop of [dedupe] from a state [(seen, ordered)] on. *)
Definition loop : gset string * list string -> list string
    -> gset string * list string :=
  foldl (fun '(seen, ordered) u =>
           if bool_decide (u ∈ seen) then (seen, ordered)
           else (({[u]} ∪ seen : gset string), ordered ++ [u])).

(** The insertions of [sorted_desc] from a list [acc] on. *)
Definition sort_from (acc : result (list (datetime * string)))
    (l : list (datetime * string)) : result (list (datetime * string)) :=
  foldl (fun acc x =>
           match acc with
           | Returned r => insert_desc x r
           | Raised e => Raised e
           end) acc l.

(** [x] is the first of the elements of [p] whose instant is the
    largest. *)
Definition first_latest (x : datetime * string) (p : list (datetime * string))
  : Prop :=
  exists pre post,
    p = pre ++ x :: post
    /\ (forall y, y ∈ pre -> instant y.1 < instant x.1)
    /\ (forall y, y ∈ post -> instant y.1 <= instant x.1).

(** The request for [u] raises, or [raise_for_status] does. *)
Definition fails (sess : session) (u : string) : Prop :=
  sess u = None \/ exists r, sess u = Some r /\ raises_for_status r = true.

End Pick.

(** ** The appends of the merges, for any registry *)

Module ByRegistry.
Import Sched.

(** [Sched.add_entries] and [Main8.add_entries] with the function
    [clean] for [_clean]. *)
Definition add_entries (clean : string -> string) (want : gset string)
    (d : Z) (h a : string) (by_team : gmap string (list entry))
  : gmap string (list entry) :=
  let by_team :=
    if bool_decide (clean h ∈ want) then append_to h (d, a, HOME) by_team
    else by_team in
  if bool_decide (clean a ∈ want) then append_to a (d, h, AWAY) by_team
  else by_team.

(** The entries that the two appends add under the key [k]. *)
Definition of_game (clean : string -> string) (want : gset string)
    (k : string) (d : Z) (h a : string) : list entry :=
  (if bool_decide (clean h ∈ want) && bool_decide (h = k)
   then [(d, a, HOME)] else [])
  ++ (if bool_decide (clean a ∈ want) && bool_decide (a = k)
      then [(d, h, AWAY)] else []).

(** The names a merge reads: the teams and the two names of each
    record. *)
Definition names (teams : list string) (games : list game) : list string :=
  teams ++ (games ≫= fun g => [home g; away g]).

End ByRegistry.

(** ** Dates of entries, and what the merges keep *)

Module Order.

(** The order of two entries by their dates. *)
Definition by_date (a b : Sched.entry) : Prop := a.1.1 <= b.1.1.

(** The entries of day [d], in the order of the list. *)
Definition on_day (d : Z) (l : list Sched.entry) : list Sched.entry :=
  filter (fun e : Sched.entry => e.1.1 = d) l.

(** The entries that main8.py adds under the key [k] for the day [cur] of
    its loop over the days after [today]. *)
Definition main8_day (clean : string -> string) (want : gset string)
    (k : string) (sched_by_date : gmap Z (list game)) (cur : Z)
  : list Sched.entry :=
  default [] (sched_by_date !! cur)
    ≫= (fun g => ByRegistry.of_game clean want k cur (home g) (away g)).

(** No key of [by_team] has an empty list. *)
Definition filled (by_team : gmap string (list Sched.entry)) : Prop :=
  forall k l, by_team !! k = Some l -> l <> [].

(** No key of [by_team] has an empty list, and every key is wanted. *)
Definition stocked (want : gset string) (by_team : gmap string (list Sched.entry))
  : Prop :=
  forall k l, by_team !! k = Some l -> l <> [] /\ _clean k ∈ want.

(** Every entry of [by_team] is under a key of [keys] and has a date
    that satisfies [P]. *)
Definition dated (P : Z -> Prop) (keys : list string)
    (by_team : gmap string (list Sched.entry)) : Prop :=
  forall k l e, by_team !! k = Some l -> e ∈ l -> k ∈ keys /\ P e.1.1.

End Order.

(** ** The choice of the season schedule: [discover_league_schedule]
    (main8.py) *)

Module Discover.

Definition base : string := "https://cdn.nba.com/static/json/staticData/".

(** The files that are tried, in this order. *)
Definition candidates : list string :=
  (base +:+ "scheduleLeagueV2.json")
  :: ((fun i => base +:+ "scheduleLeagueV2_" +:+ Py.str_of_int i +:+ ".json")
        <$> seqZ 1 20).

(** [sum(1 for g in games if today <= g["date"] <= horizon)] *)
Definition coverage (today : Z) (games : list game) : Z :=
  Z.of_nat (length (List.filter
    (fun g => (today <=? date g) && (date g <=? today + 30)) games)).

(** The body of the loop. [fetch url] is the list that
    [parse_schedule_payload] makes of the answer to the request for [url],
    and [None] when the status is not 200 or when the request, the
    decoding or the conversion raises. *)
Definition step (fetch : string -> option (list game)) (today : Z)
    (best : list game * Z) (url : string) : list game * Z :=
  match fetch url with
  | None => best
  | Some [] => best
  | Some games =>
      let coverage := coverage today games in
      if best.2 <? coverage then (games, coverage) else best
  end.

Definition discover_league_schedule (fetch : string -> option (list game))
    (today : Z) : list game :=
  (foldl (step fetch today) ([], -1) candidates).1.

(** After the files [p], the loop holds the schedule of the first of them
    whose coverage is the largest, if one of them has a schedule. *)
Definition best_of (fetch : string -> option (list game)) (today : Z)
    (p : list string) (best : list game * Z) : Prop :=
  (best = ([], -1) /\ forall u, u ∈ p -> fetch u = None \/ fetch u = Some [])
  \/ (best.1 <> [] /\ best.2 = coverage today best.1
      /\ exists pre url post,
           p = pre ++ url :: post /\ fetch url = Some best.1
           /\ (forall u gs, u ∈ pre -> fetch u = Some gs -> gs <> [] ->
                 coverage today gs < coverage today best.1)
           /\ (forall u gs, u ∈ post -> fetch u = Some gs -> gs <> [] ->
                 coverage today gs <= coverage today best.1)).

End Discover.

(** ** Decoded JSON

    What [r.json()] returns: [None], a [bool], a number, a [str], a
    [list] or a [dict] with [str] keys, here the list of its items. Of a
    number the loaders read only whether it is zero. A call that raises
    returns [None]: the callers catch every exception alike. *)

Module Json.

#[warnings="-register-all"]
Inductive json : Type :=
| Null
| Bool (b : bool)
| Num (n : Z)
| Str (s : string)
| Arr (l : list json)
| Obj (items : list (string * json)).

(** The truth value of a decoded value. *)
Definition truthy (v : json) : bool :=
  match v with
  | Null => false
  | Bool b => b
  | Num n => negb (n =? 0)
  | Str s => negb (Py.is_empty s)
  | Arr l => match l with [] => false | _ => true end
  | Obj items => match items with [] => false | _ => true end
  end.

(** [x or y] *)
Definition or_ (x y : json) : json := if truthy x then x else y.

(** [v.get(key, default)]: only a [dict] has the method. *)
Definition get (v : json) (key : string) (default_ : json) : option json :=
  match v with
  | Obj items =>
      Some (match List.find (fun kv => String.eqb kv.1 key) items with
            | Some kv => kv.2
            | None => default_
            end)
  | _ => None
  end.

(** The values [for x in v] goes through: the elements of a [list], the
    keys of a [dict], the characters of a [str]; nothing else can be
    iterated. *)
Definition iter (v : json) : option (list json) :=
  match v with
  | Arr l => Some l
  | Obj items => Some ((fun kv => Str kv.1) <$> items)
  | Str s => Some ((fun c => Str (String c "")) <$> list_ascii_of_string s)
  | _ => None
  end.

(** [v[0]] for a value that is true: the first element of a [list], the
    first character of a [str]; a [dict] with [str] keys has no key [0]
    and a number or [True] cannot be indexed. *)
Definition first (v : json) : option json :=
  match v with
  | Arr (x :: _) => Some x
  | Str (String c _) => Some (Str (String c ""))
  | _ => None
  end.

(** A value used as a [str]: any other value has no method [strip] or
    [lower] and cannot be added to a [str]. *)
Definition as_str (v : json) : option string :=
  match v with Str s => Some s | _ => None end.

(** [v == "s"] *)
Definition eq_str (v : json) (s : string) : bool :=
  match v with Str s' => String.eqb s' s | _ => false end.

End Json.

(** What a request for JSON gives: the status and the decoded body,
    [None] when decoding raises. *)
Record response : Type := {
  status : Z;
  body : option Json.json;
}.

(** ** The loaders of main9.py *)

Module Load9.
Import Json.

(** The full name of the team under [key] in a game of the live
    scoreboard, as lines 264 to 267 compute it. *)
Definition full_name (g : json) (key : string) : option string :=
  h ← get g key (Obj []);
  let h := or_ h (Obj []) in
  city ← get h "teamCity" (Str "") ≫= as_str;
  name ← get h "teamName" (Str "") ≫= as_str;
  Some (canonicalize
          (Py.strip (Py.strip city +:+ " " +:+ Py.strip name))).

(** The body of the loop of [load_todays_games]. *)
Definition todays_record (today : Z) (g : json) : option game :=
  home_full ← full_name g "homeTeam";
  away_full ← full_name g "awayTeam";
  Some {| date := today; home := home_full; away := away_full |}.

(** [load_todays_games]; [r] is the answer to the request for the live
    scoreboard, [None] when the request raises. *)
Definition load_todays_games (r : option response) (today : Z) : list game :=
  default []
    (r ← r;
     if negb (status r =? 200) then Some []
     else
       data ← body r;
       scoreboard ← get data "scoreboard" Null;
       games ← get (or_ scoreboard (Obj [])) "games" Null;
       games ← iter (or_ games (Arr []));
       mapM (todays_record today) games).

(** The name of a competitor, lines 289 to 294. *)
Definition competitor_name (t : json) : option string :=
  team ← get t "team" Null;
  let team := or_ team (Obj []) in
  display ← get team "displayName" Null;
  nm ← (if truthy display then as_str display
        else
          location ← get team "location" Null;
          location ← as_str (or_ location (Str ""));
          name ← get team "name" Null;
          name ← as_str (or_ name (Str ""));
          Some (Py.strip (location +:+ " " +:+ name)));
  Some (canonicalize nm).

(** The loop over the competitors of an event. *)
Fixpoint competitors (teams : list json) (home_name away_name : option string)
  : option (option string * option string) :=
  match teams with
  | [] => Some (home_name, away_name)
  | t :: teams' =>
      nm ← competitor_name t;
      side ← get t "homeAway" Null;
      if eq_str side "home" then competitors teams' (Some nm) away_name
      else competitors teams' home_name (Some nm)
  end.

(** The body of the loop over the events: the names of the record that
    is appended, if one is. *)
Definition event_record (ev : json) : option (option (string * string)) :=
  competitions ← get ev "competitions" Null;
  comps ← first (or_ competitions (Arr [Obj []]));
  teams ← get comps "competitors" Null;
  teams ← iter (or_ teams (Arr []));
  names ← competitors teams None None;
  Some (match names with
        | (Some h, Some a) =>
            if Py.truthy (Some h) && Py.truthy (Some a) then Some (h, a)
            else None
        | _ => None
        end).

(** [fetch_espn_games_for_date]; [r] is the answer to the request for
    the day, [None] when the request raises. The result is [None] when
    the call raises. *)
Definition fetch_espn_games_for_date (r : option response)
  : option (list (string * string)) :=
  r ← r;
  if negb (status r =? 200) then Some []
  else
    payload ← body r;
    events ← get payload "events" Null;
    events ← iter (or_ events (Arr []));
    records ← mapM event_record events;
    Some (omap id records).

(** The feed that [load_future_games_from_espn] reads, from the answers
    to the requests for the days. *)
Definition feed_of (answers : Z -> option response) : Main9.feed :=
  fun d => fetch_espn_games_for_date (answers d).

End Load9.

(** ** The index page of main1.py: [get_latest_power_rankings_url] *)

Module Listing1.
Import Py Soup.

Definition POWER_RANKINGS_INDEX : string :=
  "https://www.nba.com/news/power-rankings".

(** [soup.find_all("a", href=True)] *)
Definition anchors (soup : node) : list node :=
  List.filter (fun d =>
            match d with
            | Tag nm attrs _ =>
                bool_decide (nm = "a") && bool_decide (is_Some (attrs !! "href"))
            | NavigableString _ => false
            end) (descendants soup).

(** The body of the loop over the anchors: the link that is appended to
    [candidates], if one is. *)
Definition candidate (a : node) : option string :=
  let href := default "" (href a) in
  let text := lower (strip (join " " (split (get_text " " false a)))) in
  if contains "/news/" href && contains "power-rankings" href then Some href
  else if contains "power rankings" text && contains "/news/" href
       then Some href
       else None.

(** The loop that makes the links absolute and removes duplicates. *)
Definition absolute (candidates : list string) : list string :=
  snd (foldl (fun '(seen, abs_candidates) href =>
                let href :=
                  if startswith "/" href then "https://www.nba.com" +:+ href
                  else href in
                if bool_decide (href ∈ seen) then (seen, abs_candidates)
                else (({[href]} ∪ seen : gset string), abs_candidates ++ [href]))
             (∅, []) candidates).

Definition get_latest_power_rankings_url (sess : session) : result string :=
  match sess POWER_RANKINGS_INDEX with
  | None => Raised HTTPError
  | Some resp =>
      if raises_for_status resp then Raised HTTPError
      else
        match absolute (omap candidate (anchors (soup resp))) with
        | [] => Raised (RuntimeError
                  "Could not locate a Power Rankings article link on nba.com.")
        | first :: _ => Returned first
        end
  end.

End Listing1.

(** * Properties *)

(** ** Characters *)

Section chars.
Import Py.

Local Ltac by_cases c :=
  destruct c as [[] [] [] [] [] [] [] []]; vm_compute; try reflexivity;
  try discriminate; auto.

Lemma to_lower_idem c : to_lower (to_lower c) = to_lower c.
Proof. by_cases c. Qed.

Lemma is_space_lower c : is_space (to_lower c) = is_space c.
Proof. by_cases c. Qed.

Lemma is_word_lower c : is_word (to_lower c) = is_word c.
Proof. by_cases c. Qed.

Lemma space_not_word c : is_space c = true -> is_word c = false.
Proof. by_cases c. Qed.

Lemma ch_eqb_eq a b : ch_eqb a b = true <-> a = b.
Proof. apply Stdlib.Strings.Ascii.eqb_eq. Qed.

Lemma ch_eqb_refl a : ch_eqb a a = true.
Proof. by apply ch_eqb_eq. Qed.
End chars.

Global Opaque Py.is_space Py.is_word Py.to_lower Py.ch_eqb.

(** Induction two characters at a time, as [sub_la] recurses. *)
Lemma string_ind2 (P : string -> Prop) :
  P "" ->
  (forall c, P (String c "")) ->
  (forall c c' s, P s -> P (String c' s) -> P (String c (String c' s))) ->
  forall s, P s.
Proof.
  intros H0 H1 H2.
  assert (forall s, P s /\ forall c, P (String c s)) as H.
  { induction s as [|c' s [IH1 IH2]]; split; auto. }
  intros s. apply H.
Qed.

(** ** [strip] and [lower] *)

Section strip.
Import Py.

Lemma lower_idem s : lower (lower s) = lower s.
Proof. induction s as [|c s IH]; simpl; [done|]. by rewrite to_lower_idem, IH. Qed.

Lemma is_empty_lower s : is_empty (lower s) = is_empty s.
Proof. by destruct s. Qed.

Lemma lower_lstrip s : lower (lstrip s) = lstrip (lower s).
Proof.
  induction s as [|c s IH]; simpl; [done|].
  rewrite is_space_lower. by destruct (is_space c).
Qed.

Lemma lower_rstrip s : lower (rstrip s) = rstrip (lower s).
Proof.
  induction s as [|c s IH]; simpl; [done|].
  rewrite is_space_lower, <- IH, is_empty_lower.
  by destruct (is_space c && is_empty (rstrip s)).
Qed.

Lemma lower_strip s : lower (strip s) = strip (lower s).
Proof. unfold strip. by rewrite lower_rstrip, lower_lstrip. Qed.

Lemma lstrip_idem s : lstrip (lstrip s) = lstrip s.
Proof.
  induction s as [|c s IH]; simpl; [done|].
  destruct (is_space c) eqn:E; [done|]. simpl. by rewrite E.
Qed.

Lemma rstrip_idem s : rstrip (rstrip s) = rstrip s.
Proof.
  induction s as [|c s IH]; simpl; [done|].
  destruct (is_space c && is_empty (rstrip s)) eqn:E; [done|].
  simpl. by rewrite IH, E.
Qed.

Lemma lstrip_rstrip s : lstrip (rstrip s) = rstrip (lstrip s).
Proof.
  induction s as [|c s IH]; simpl; [done|].
  destruct (is_space c) eqn:E; simpl.
  - destruct (is_empty (rstrip s)) eqn:E'; simpl.
    + rewrite <- IH. by destruct (rstrip s).
    + by rewrite E.
  - by rewrite E.
Qed.

Lemma strip_idem s : strip (strip s) = strip s.
Proof.
  unfold strip.
  by rewrite (lstrip_rstrip (lstrip s)), lstrip_idem, rstrip_idem.
Qed.
End strip.

(** ** The rewriting steps of [_clean] reach a normal form *)

Section norm.
Import Py Norm.

Lemma all_chars_app P s t :
  all_chars P (s +:+ t) = all_chars P s && all_chars P t.
Proof. induction s as [|c s IH]; simpl; [done|]. by rewrite IH, andb_assoc. Qed.

Lemma all_chars_lstrip P s : all_chars P s = true -> all_chars P (lstrip s) = true.
Proof.
  induction s as [|c s IH]; simpl; [done|].
  intros [? ?]%andb_true_iff. destruct (is_space c); simpl; auto.
  by apply andb_true_iff.
Qed.

Lemma all_chars_rstrip P s : all_chars P s = true -> all_chars P (rstrip s) = true.
Proof.
  induction s as [|c s IH]; simpl; [done|].
  intros [? ?]%andb_true_iff.
  destruct (is_space c && is_empty (rstrip s)); simpl; [done|].
  apply andb_true_iff; auto.
Qed.

Lemma all_chars_strip P s : all_chars P s = true -> all_chars P (strip s) = true.
Proof. intros. by apply all_chars_rstrip, all_chars_lstrip. Qed.

Lemma all_chars_sub_punct P s :
  P " "%char = true -> all_chars P s = true -> all_chars P (sub_punct s) = true.
Proof.
  intros Hsp. induction s as [|c s IH]; simpl; [done|].
  intros [? ?]%andb_true_iff. apply andb_true_iff.
  split; [by destruct (is_word c || is_space c)|auto].
Qed.

Lemma all_chars_sub_spaces P b s :
  P " "%char = true -> all_chars P s = true -> all_chars P (sub_spaces b s) = true.
Proof.
  intros Hsp. revert b. induction s as [|c s IH]; intros b; simpl; [done|].
  intros [? ?]%andb_true_iff.
  destruct (is_space c); [destruct b|]; simpl; auto;
    apply andb_true_iff; auto.
Qed.

Lemma all_chars_sub_la P b s :
  all_chars P "los angeles" = true ->
  all_chars P s = true -> all_chars P (sub_la b s) = true.
Proof.
  intros Hla. revert b. induction s as [| c | c c' s IH1 IH2] using string_ind2;
    intros b; [done| |].
  - simpl. by intros ->.
  - intros H. pose proof H as [Hc [Hc' Hs]%andb_true_iff]%andb_true_iff.
    cbn [sub_la].
    destruct (negb b && ch_eqb c "l" && ch_eqb c' "a" && at_word_end s).
    + rewrite all_chars_app, Hla. simpl. auto.
    + change (all_chars P (String c (sub_la (is_word c) (String c' s))) = true).
      cbn [all_chars]. rewrite Hc. simpl. apply IH2.
      apply andb_true_iff; split; [exact Hc'|exact Hs].
Qed.

(** After [sub_punct], every character is of [\w] or of [\s]. *)
Lemma sub_punct_word_or_space s : all_chars word_or_space (sub_punct s) = true.
Proof.
  induction s as [|c s IH]; simpl; [done|]. rewrite IH, andb_true_r.
  unfold word_or_space. destruct (is_word c || is_space c) eqn:E; [done|].
  vm_compute. reflexivity.
Qed.



Lemma lower_lowered s : all_chars lowered (lower s) = true.
Proof.
  induction s as [|c s IH]; simpl; [done|]. rewrite IH, andb_true_r.
  unfold lowered. rewrite to_lower_idem. apply ch_eqb_refl.
Qed.

(** [spaced] is what [sub_spaces] establishes and what it leaves alone. *)
Lemma spaced_sub_spaces b s : spaced b (sub_spaces b s) = true.
Proof.
  revert b. induction s as [|c s IH]; intros b; simpl; [done|].
  destruct (is_space c) eqn:E; [destruct b|]; simpl; auto.
  - replace (is_space " ") with true by (vm_compute; reflexivity).
    rewrite ch_eqb_refl. simpl. apply IH.
  - rewrite E. apply IH.
Qed.


Lemma spaced_weaken s : spaced true s = true -> spaced false s = true.
Proof.
  destruct s as [|c s]; simpl; [done|].
  destruct (is_space c); [|done]. by rewrite andb_false_r.
Qed.

Lemma spaced_lstrip b s : spaced b s = true -> spaced false (lstrip s) = true.
Proof.
  revert b. induction s as [|c s IH]; intros b; simpl; [done|].
  destruct (is_space c) eqn:E.
  - intros [_ ?]%andb_true_iff. eauto.
  - intros ?. simpl. by rewrite E.
Qed.

Lemma spaced_rstrip b s : spaced b s = true -> spaced b (rstrip s) = true.
Proof.
  revert b. induction s as [|c s IH]; intros b; simpl; [done|].
  destruct (is_space c) eqn:E; simpl.
  - intros [Hc ?]%andb_true_iff.
    destruct (is_empty (rstrip s)); simpl; [done|].
    rewrite E, Hc. simpl. auto.
  - intros ?. rewrite E. auto.
Qed.

Lemma spaced_strip b s : spaced b s = true -> spaced false (strip s) = true.
Proof. intros. by eapply spaced_rstrip, spaced_lstrip. Qed.

Lemma spaced_sub_la b a s : spaced b s = true -> spaced b (sub_la a s) = true.
Proof.
  revert b a. induction s as [| c | c c' s IH1 IH2] using string_ind2;
    intros b a; [done|done|].
  intros H. cbn [sub_la].
  destruct (negb a && ch_eqb c "l" && ch_eqb c' "a" && at_word_end s) eqn:E.
  - apply andb_true_iff in E as [[[_ ->%ch_eqb_eq]%andb_true_iff
      ->%ch_eqb_eq]%andb_true_iff _].
    assert (spaced false s = true) as Hs.
    { revert H. simpl.
      replace (is_space "l") with false by (vm_compute; reflexivity).
      by replace (is_space "a") with false by (vm_compute; reflexivity). }
    pose proof (IH1 false true Hs) as IH. revert IH.
    generalize (sub_la true s). intros t Ht. vm_compute in Ht |- *.
    exact Ht.
  - change (spaced b (String c (sub_la (is_word c) (String c' s))) = true).
    revert H. cbn [spaced]. destruct (is_space c).
    + intros [-> ?]%andb_true_iff. simpl. by apply IH2.
    + by apply IH2.
Qed.
End norm.

(** ** No [la] token is left after [sub_la] *)

Section la.
Import Py Norm.

Lemma sub_la_cons a c s :
  sub_la a (String c s) =
  if la_here a (String c s)
  then "los angeles" +:+ sub_la true (match s with String _ r => r | _ => "" end)
  else String c (sub_la (is_word c) s).
Proof. destruct s as [|c' rest]; reflexivity. Qed.

Lemma la_here_after_word s : la_here true s = false.
Proof. by destruct s as [|c [|c' rest]]. Qed.

Lemma la_here_l a c s : la_here a (String c s) = true -> c = "l"%char.
Proof.
  destruct s as [|c' rest]; simpl; [done|].
  by intros [[[_ ?%ch_eqb_eq]%andb_true_iff _]%andb_true_iff _]%andb_true_iff.
Qed.

Lemma at_word_end_sub_la s : at_word_end (sub_la true s) = at_word_end s.
Proof.
  destruct s as [|c s]; [done|].
  by rewrite sub_la_cons, la_here_after_word.
Qed.

(** Rewriting the text after a character of [\w] does not move a match
    that starts at that character. *)
Lemma la_here_sub_la a c s :
  is_word c = true ->
  la_here a (String c (sub_la true s)) = la_here a (String c s).
Proof.
  intros Hc. destruct s as [|c' rest]; [done|].
  rewrite sub_la_cons, la_here_after_word. cbn [la_here].
  destruct (ch_eqb c' "a") eqn:E.
  - apply ch_eqb_eq in E as ->.
    replace (is_word "a") with true by (vm_compute; reflexivity).
    by rewrite at_word_end_sub_la.
  - by rewrite !andb_false_r.
Qed.


Lemma has_la_app_los_angeles t :
  has_la false ("los angeles" +:+ t) = has_la true t.
Proof. destruct t as [|c [|c' t]]; vm_compute; reflexivity. Qed.

Lemma sub_la_no_la a s : has_la a (sub_la a s) = false.
Proof.
  revert a. induction s as [| c | c c' s IH1 IH2] using string_ind2;
    intros a; [done|done|].
  rewrite sub_la_cons. destruct (la_here a (String c (String c' s))) eqn:E.
  - assert (a = false) as ->.
    { destruct a; [|done]. by rewrite la_here_after_word in E. }
    by rewrite has_la_app_los_angeles.
  - cbn [has_la]. rewrite IH2, orb_false_r.
    destruct (is_word c) eqn:Hc.
    + by rewrite la_here_sub_la.
    + destruct (la_here a (String c (sub_la false (String c' s)))) eqn:E';
        [|done].
      apply la_here_l in E' as ->. by vm_compute in Hc.
Qed.

Lemma has_la_lstrip s : has_la false (lstrip s) = has_la false s.
Proof.
  induction s as [|c s IH]; [done|]. cbn [lstrip].
  destruct (is_space c) eqn:E; [|done].
  cbn [has_la]. rewrite (space_not_word c E), IH.
  destruct (la_here false (String c s)) eqn:E'; [|done].
  apply la_here_l in E' as ->. by vm_compute in E.
Qed.

Lemma at_word_end_rstrip s : at_word_end (rstrip s) = at_word_end s.
Proof.
  destruct s as [|c s]; [done|]. cbn [rstrip].
  destruct (is_space c) eqn:E; simpl.
  - destruct (is_empty (rstrip s)); simpl; by rewrite (space_not_word c E).
  - done.
Qed.

Lemma la_here_rstrip a c s :
  la_here a (String c (rstrip s)) = la_here a (String c s).
Proof.
  destruct s as [|c' rest]; [done|]. cbn [rstrip].
  destruct (ch_eqb c' "a") eqn:E.
  - apply ch_eqb_eq in E as ->.
    replace (is_space "a") with false by (vm_compute; reflexivity).
    cbn [andb la_here]. by rewrite at_word_end_rstrip.
  - destruct (is_space c' && is_empty (rstrip rest)); cbn [la_here];
      by rewrite ?E, ?andb_false_r.
Qed.

Lemma has_la_rstrip a s : has_la a (rstrip s) = has_la a s.
Proof.
  revert a. induction s as [|c s IH]; intros a; [done|].
  cbn [rstrip has_la].
  destruct (is_space c && is_empty (rstrip s)) eqn:E.
  - apply andb_true_iff in E as [Hc Hr].
    rewrite <- IH. destruct (rstrip s); [|done]. simpl. rewrite orb_false_r.
    destruct (la_here a (String c s)) eqn:E'; [|done].
    apply la_here_l in E' as ->. by vm_compute in Hc.
  - cbn [has_la]. by rewrite IH, la_here_rstrip.
Qed.

Lemma has_la_strip s : has_la false (strip s) = has_la false s.
Proof. unfold strip. by rewrite has_la_rstrip, has_la_lstrip. Qed.
End la.

(** ** [clean_steps] and [_clean] *)

Section clean.
Import Py Norm.

Lemma clean_steps_normal s : normal (clean_steps s).
Proof.
  unfold clean_steps. split.
  - apply all_chars_strip, all_chars_sub_la; [done|].
    apply all_chars_sub_spaces; [done|]. apply all_chars_sub_punct; [done|].
    rewrite <- lower_strip. apply lower_lowered.
  - apply all_chars_strip, all_chars_sub_la; [done|].
    apply all_chars_sub_spaces; [done|]. apply sub_punct_word_or_space.
  - eapply spaced_strip, spaced_sub_la, spaced_sub_spaces.
  - by rewrite has_la_strip, sub_la_no_la.
  - apply strip_idem.
Qed.



Lemma clean_steps_strip s : clean_steps (strip s) = clean_steps s.
Proof. unfold clean_steps. by rewrite lower_strip, strip_idem. Qed.



Lemma _clean_strip x : _clean (strip x) = _clean x.
Proof. unfold _clean. by rewrite clean_steps_strip. Qed.
End clean.

(** ** [clean_steps] through the words of the text *)

Section words.
Import Py Norm.

Lemma words_go_word cur c s :
  is_word c = true ->
  words_go cur (String c s) = words_go (Some (snoc (default "" cur) c)) s.
Proof. intros H. cbn [words_go]. by rewrite H. Qed.

Lemma words_go_other cur c s :
  is_word c = false ->
  words_go cur (String c s) = option_list cur ++ words_go None s.
Proof. intros H. cbn [words_go]. by rewrite H. Qed.

Lemma words_go_word_some w c s :
  is_word c = true ->
  words_go (Some w) (String c s) = words_go (Some (snoc w c)) s.
Proof. apply words_go_word. Qed.

Lemma words_go_word_none c s :
  is_word c = true ->
  words_go None (String c s) = words_go (Some (String c "")) s.
Proof. apply words_go_word. Qed.

Lemma snoc_app w c t : snoc w c +:+ t = w +:+ String c t.
Proof.
  induction w as [|a w IH]; [done|].
  change (String a (snoc w c +:+ t) = String a (w +:+ String c t)).
  by rewrite IH.
Qed.

Lemma append_nil_r (w : string) : w +:+ "" = w.
Proof.
  induction w as [|a w IH]; [done|].
  change (String a (w +:+ "") = String a w). by rewrite IH.
Qed.

Lemma words_lstrip s : words_go None (lstrip s) = words_go None s.
Proof.
  induction s as [|c s IH]; [done|]. cbn [lstrip].
  destruct (is_space c) eqn:E; [|done].
  by rewrite (words_go_other _ c), IH by by apply space_not_word.
Qed.

Lemma words_rstrip cur s : words_go cur (rstrip s) = words_go cur s.
Proof.
  revert cur. induction s as [|c s IH]; intros cur; [done|]. cbn [rstrip].
  destruct (is_space c && is_empty (rstrip s)) eqn:E.
  - apply andb_true_iff in E as [Hc Hr].
    rewrite (words_go_other _ c) by by apply space_not_word.
    rewrite <- IH. destruct (rstrip s); [|done]. simpl. by rewrite app_nil_r.
  - destruct (is_word c) eqn:Hw.
    + by rewrite !words_go_word, IH.
    + by rewrite !words_go_other, IH.
Qed.

Lemma words_strip s : words (strip s) = words s.
Proof. unfold words, strip. by rewrite words_rstrip, words_lstrip. Qed.

Lemma words_sub_punct cur s : words_go cur (sub_punct s) = words_go cur s.
Proof.
  revert cur. induction s as [|c s IH]; intros cur; [done|]. cbn [sub_punct].
  destruct (is_word c) eqn:Hw; cbn [orb].
  - by rewrite !words_go_word, IH.
  - rewrite (words_go_other _ c) by done.
    rewrite words_go_other, IH; [done|].
    destruct (is_space c); [done|]. by vm_compute.
Qed.

Lemma words_sub_spaces b cur s :
  (b = true -> cur = None) ->
  words_go cur (sub_spaces b s) = words_go cur s.
Proof.
  revert b cur. induction s as [|c s IH]; intros b cur Hb; [done|].
  cbn [sub_spaces]. destruct (is_space c) eqn:E.
  - rewrite (words_go_other _ c) by by apply space_not_word.
    destruct b.
    + rewrite (Hb eq_refl). by apply IH.
    + rewrite words_go_other by by vm_compute. by rewrite IH.
  - destruct (is_word c) eqn:Hw.
    + rewrite !words_go_word by done. by apply IH.
    + rewrite !words_go_other by done. by rewrite IH.
Qed.

(** The first word read after [w] starts with [w], and is [w] only at
    the end of a word. *)
Lemma words_go_first w s :
  exists lead r,
    words_go (Some w) s = (w +:+ lead) :: r
    /\ (lead = "" -> at_word_end s = true).
Proof.
  revert w. induction s as [|c s IH]; intros w.
  - exists "", []. by rewrite append_nil_r.
  - destruct (is_word c) eqn:Hw.
    + destruct (IH (snoc w c)) as (lead & r & Hr & _).
      exists (String c lead), r. rewrite words_go_word_some by done.
      by rewrite Hr, snoc_app.
    + exists "", (words_go None s). rewrite words_go_other by done.
      rewrite append_nil_r. simpl. by rewrite Hw.
Qed.

Lemma first_word_la c s r :
  words_go (Some (String c "")) s = "la" :: r -> la_here false (String c s) = true.
Proof.
  destruct s as [|c' rest].
  - by intros [= ->].
  - destruct (is_word c') eqn:Hw.
    + rewrite words_go_word_some by done.
      change (snoc (String c "") c') with (String c (String c' "")).
      destruct (words_go_first (String c (String c' "")) rest)
        as (lead & r' & -> & Hend).
      change (String c (String c' "") +:+ lead) with (String c (String c' lead)).
      intros [= -> -> Hl _]. subst lead.
      cbn [la_here negb andb]. rewrite !ch_eqb_refl. by apply Hend.
    + rewrite words_go_other by done. by intros [= ->].
Qed.

Lemma expand_rest_no_la w r :
  w <> "la" -> expand_rest (w :: r) = expand_all (w :: r).
Proof.
  intros H. unfold expand_rest, expand_all. rewrite bind_cons.
  assert (expand w = [w]) as ->; [|done].
  unfold expand. by destruct (String.eqb_spec w "la").
Qed.

(** [sub_la] replaces the word [la] by the two words [los angeles], a
    word that is under way excepted. *)
Lemma words_sub_la s :
  words_go None (sub_la false s) = expand_all (words_go None s)
  /\ forall w, words_go (Some w) (sub_la true s)
               = expand_rest (words_go (Some w) s).
Proof.
  induction s as [| c | c c' rest [IH1 IH1'] [IH2 IH2']] using string_ind2.
  - by split.
  - change (sub_la false (String c "")) with (String c "").
    change (sub_la true (String c "")) with (String c "").
    split.
    + destruct (is_word c) eqn:Hw.
      * rewrite words_go_word_none by done.
        change (words_go (Some (String c "")) "") with [String c ""].
        by rewrite <- expand_rest_no_la.
      * by rewrite words_go_other.
    + intros w. destruct (is_word c) eqn:Hw.
      * by rewrite words_go_word_some.
      * by rewrite words_go_other.
  - split.
    + rewrite sub_la_cons.
      destruct (la_here false (String c (String c' rest))) eqn:E.
      * pose proof E as E'. cbn [la_here negb andb] in E'.
        apply andb_true_iff in E' as [[->%ch_eqb_eq ->%ch_eqb_eq]%andb_true_iff
          Hend].
        assert (forall X, words_go None ("los angeles" +:+ X)
                          = "los" :: words_go (Some "angeles") X) as ->.
        { intros X. vm_compute. reflexivity. }
        rewrite IH1'.
        assert (words_go None (String "l" (String "a" rest))
                = words_go (Some "la") rest) as ->.
        { vm_compute. reflexivity. }
        destruct rest as [|d r]; [done|].
        cbn [at_word_end] in Hend. apply negb_true_iff in Hend.
        by rewrite !(words_go_other _ d).
      * destruct (is_word c) eqn:Hw.
        -- rewrite (words_go_word_none c) by done.
           rewrite (words_go_word_none c (String c' rest)) by done.
           rewrite IH2'.
           destruct (words_go (Some (String c "")) (String c' rest))
             as [|w r] eqn:Hws; [done|].
           apply expand_rest_no_la. intros ->.
           apply first_word_la in Hws. congruence.
        -- rewrite !(words_go_other None c) by done. by rewrite IH2.
    + intros w. rewrite sub_la_cons, la_here_after_word.
      destruct (is_word c) eqn:Hw.
      * rewrite (words_go_word_some _ c) by done.
        rewrite (words_go_word_some _ c (String c' rest)) by done. apply IH2'.
      * rewrite !(words_go_other _ c) by done. by rewrite IH2.
Qed.

(** A text in normal form is its words with one space between them. *)
Lemma normal_join_words t :
  (forall w,
     all_chars word_or_space t = true -> spaced false t = true ->
     rstrip t = t -> w +:+ t = join " " (words_go (Some w) t))
  /\ (all_chars word_or_space t = true -> spaced true t = true ->
      rstrip t = t -> t = join " " (words_go None t)).
Proof.
  induction t as [|c t [IHa IHb]]; [split|].
  - intros w _ _ _. by rewrite append_nil_r.
  - done.
  - assert (forall w, is_word c = true ->
              all_chars word_or_space t = true -> spaced false t = true ->
              rstrip (String c t) = String c t ->
              w +:+ String c t = join " " (words_go (Some w) (String c t)))
      as Hword.
    { intros w Hw Hc Hs Hr. rewrite words_go_word by done. simpl.
      rewrite <- IHa, snoc_app; [done..|].
      cbn [rstrip] in Hr.
      destruct (is_space c && is_empty (rstrip t)); [done|]. congruence. }
    split.
    + intros w [Hc Hcs]%andb_true_iff Hs Hr. cbn [spaced] in Hs.
      destruct (is_space c) eqn:E.
      * apply andb_true_iff in Hs as [[->%ch_eqb_eq _]%andb_true_iff Hs].
        rewrite words_go_other by by vm_compute. cbn [rstrip] in Hr.
        rewrite E in Hr. simpl in Hr.
        destruct (is_empty (rstrip t)) eqn:Hemp; [done|].
        assert (rstrip t = t) as Hrt by congruence.
        rewrite Hrt in Hemp. destruct t as [|d t']; [done|].
        rewrite (IHb Hcs Hs Hrt) at 1. simpl option_list.
        cbn [spaced] in Hs. destruct (is_space d) eqn:Ed.
        { by rewrite andb_false_r in Hs. }
        assert (is_word d = true) as Hd.
        { cbn [all_chars] in Hcs. apply andb_true_iff in Hcs as [Hd _].
          unfold word_or_space in Hd. by rewrite Ed, orb_false_r in Hd. }
        rewrite !words_go_word by done.
        destruct (words_go_first (snoc (default "" None) d) t')
          as (lead & r & -> & _).
        done.
      * apply Hword; [|done..].
        unfold word_or_space in Hc. by rewrite E, orb_false_r in Hc.
    + intros [Hc Hcs]%andb_true_iff Hs Hr. cbn [spaced] in Hs.
      destruct (is_space c) eqn:E; [by rewrite andb_false_r in Hs|].
      assert (is_word c = true) as Hw.
      { unfold word_or_space in Hc. by rewrite E, orb_false_r in Hc. }
      rewrite (words_go_word None c t Hw).
      change (default "" None) with (default "" (Some "")).
      rewrite <- (words_go_word (Some "") c t Hw).
      by apply (Hword "").
Qed.

Lemma spaced_true_of_stripped t :
  spaced false t = true -> lstrip t = t -> spaced true t = true.
Proof.
  destruct t as [|c t]; [done|]. cbn [spaced lstrip].
  destruct (is_space c) eqn:E; [|done].
  intros _ H. assert (String.length (lstrip t) <= String.length t)%nat as Hlen.
  { clear. induction t as [|d t IH]; simpl; [done|].
    destruct (is_space d); simpl; lia. }
  rewrite H in Hlen. simpl in Hlen. lia.
Qed.

Lemma lstrip_strip t : lstrip (strip t) = strip t.
Proof. unfold strip. by rewrite lstrip_rstrip, lstrip_idem. Qed.

Lemma rstrip_strip t : rstrip (strip t) = strip t.
Proof. unfold strip. by rewrite rstrip_idem. Qed.

(** [clean_steps] in closed form: the words of the text in lower case,
    with [la] expanded, joined by single spaces. *)
Lemma clean_steps_words s :
  clean_steps s = join " " (expand_all (words (lower s))).
Proof.
  pose proof (clean_steps_normal s) as [_ Hc Hs _ Hst].
  assert (words (clean_steps s) = expand_all (words (lower s))) as <-.
  { unfold clean_steps. rewrite words_strip. unfold words.
    rewrite (proj1 (words_sub_la _)), words_sub_spaces by done.
    rewrite words_sub_punct. fold (words (strip (lower s))).
    by rewrite words_strip. }
  apply (proj2 (normal_join_words _)); [done| |].
  - apply spaced_true_of_stripped; [done|].
    rewrite <- Hst. apply lstrip_strip.
  - rewrite <- Hst. apply rstrip_strip.
Qed.

End words.

(** ** [canonicalize] *)

Section canonicalize.
Import Py.

Lemma is_team_name_spec text :
  is_team_name text = true <->
  exists t, t ∈ CANON_TEAMS /\ _clean t = _clean text.
Proof.
  unfold is_team_name, CANON_SET.
  rewrite bool_decide_eq_true, elem_of_list_to_set, list_elem_of_fmap.
  split; intros (t & ? & ?); exists t; auto.
Qed.

Lemma canonicalize_known text :
  is_team_name text = true ->
  canonicalize text ∈ CANON_TEAMS /\
  _clean (canonicalize text) = _clean text.
Proof.
  intros H. unfold canonicalize. unfold is_team_name in H. rewrite H.
  apply is_team_name_spec in H as (t & Ht & Heq).
  destruct (List.find _ CANON_TEAMS) as [t'|] eqn:E.
  - apply List.find_some in E as [Hin Hc].
    apply bool_decide_eq_true in Hc. by apply list_elem_of_In in Hin.
  - apply list_elem_of_In in Ht.
    pose proof (List.find_none _ _ E t Ht) as Hn. simpl in Hn.
    by apply bool_decide_eq_false in Hn.
Qed.

Lemma canonicalize_unknown text :
  is_team_name text = false -> canonicalize text = strip text.
Proof. intros H. unfold canonicalize. unfold is_team_name in H. by rewrite H. Qed.

(** The thirty display names are fixed points, and they are known. *)
Lemma canonicalize_roster t : t ∈ CANON_TEAMS -> canonicalize t = t.
Proof.
  assert (forallb (fun t => bool_decide (canonicalize t = t)) CANON_TEAMS = true)
    as H by (vm_compute; reflexivity).
  rewrite forallb_forall in H. intros Ht%list_elem_of_In.
  by apply (bool_decide_eq_true_1 _ (H t Ht)).
Qed.

Lemma is_team_name_strip x : is_team_name (strip x) = is_team_name x.
Proof. unfold is_team_name. by rewrite _clean_strip. Qed.

(** The normal forms of the thirty display names are distinct: a known
    text has one entry of the roster. *)
Lemma roster_keys_distinct : NoDup (_clean <$> CANON_TEAMS).
Proof. apply (bool_decide_unpack _). vm_compute. exact I. Qed.
End canonicalize.

Example clean_la : _clean "LA Clippers" = "los angeles clippers".
Proof. vm_compute. reflexivity. Qed.

Example canon_la : canonicalize " la   clippers! " = "Los Angeles Clippers".
Proof. vm_compute. reflexivity. Qed.

Example canon_unknown : canonicalize "  Seattle SuperSonics " = "Seattle SuperSonics".
Proof. vm_compute. reflexivity. Qed.

(** ** The claims on the registry *)

(** C7. [canonicalize] is a total function: on a text whose normal form
    is that of a roster entry it returns that entry (a display name of
    [CANON_TEAMS] with the same normal form), and on any other text it
    returns the stripped text itself; there is no error case. *)
Theorem canonicalize_total_passthrough (text : string) :
  if is_team_name text
  then canonicalize text ∈ CANON_TEAMS /\
       _clean (canonicalize text) = _clean text
  else canonicalize text = Py.strip text.
Proof.
  destruct (is_team_name text) eqn:E.
  - by apply canonicalize_known.
  - by apply canonicalize_unknown.
Qed.

(** C9. [canonicalize] is a fixed point on its own output. *)
Theorem canonicalize_fixed_point (x : string) :
  canonicalize (canonicalize x) = canonicalize x.
Proof.
  destruct (is_team_name x) eqn:E.
  - apply canonicalize_roster. by apply canonicalize_known.
  - rewrite (canonicalize_unknown x E).
    rewrite canonicalize_unknown by (by rewrite is_team_name_strip).
    apply strip_idem.
Qed.



(** ** The schedule merge *)

Section sched.
Import Sched Contrib.

Lemma append_to_lookup (k k' : string) (e : entry)
    (m : gmap string (list entry)) :
  append_to k e m !!! k' = m !!! k' ++ (if bool_decide (k = k') then [e] else []).
Proof.
  unfold append_to. rewrite !lookup_total_alt.
  case_bool_decide as Hk.
  - subst k'. by rewrite lookup_insert_eq.
  - rewrite lookup_insert_ne by done. by rewrite app_nil_r.
Qed.

Lemma add_entries_lookup want d h a (m : gmap string (list entry)) k :
  add_entries want d h a m !!! k = m !!! k ++ of_game want k d h a.
Proof.
  unfold add_entries, of_game.
  destruct (bool_decide (_clean h ∈ want)), (bool_decide (_clean a ∈ want));
    simpl; rewrite ?append_to_lookup, ?app_nil_r, <- ?app_assoc; done.
Qed.

Lemma of_game_date want k d h a e : e ∈ of_game want k d h a -> e.1.1 = d.
Proof.
  unfold of_game. intros [H|H]%elem_of_app.
  - destruct (_ && _); [|by apply elem_of_nil in H].
    by apply list_elem_of_singleton in H as ->.
  - destruct (_ && _); [|by apply elem_of_nil in H].
    by apply list_elem_of_singleton in H as ->.
Qed.

Lemma insert_by_date_perm x l : insert_by_date x l ≡ₚ x :: l.
Proof.
  induction l as [|y l IH]; simpl; [done|].
  destruct (x.1.1 <=? y.1.1); [done|]. rewrite IH. apply Permutation_swap.
Qed.

Lemma sort_by_date_perm l : sort_by_date l ≡ₚ l.
Proof.
  induction l as [|x l IH]; simpl; [done|].
  by rewrite insert_by_date_perm, IH.
Qed.

Lemma sorted_lookup (m : gmap string (list entry)) k :
  (sort_by_date <$> m) !!! k = sort_by_date (m !!! k).
Proof. rewrite !lookup_total_alt, lookup_fmap. by destruct (m !! k). Qed.

Lemma main9_fold today end_ want gs (m : gmap string (list entry)) k :
  foldl (Main9.add_game today end_ want) m gs !!! k
  = m !!! k ++ (gs ≫= main9 today end_ want k).
Proof.
  revert m. induction gs as [|g gs IH]; intros m.
  - simpl. by rewrite app_nil_r.
  - cbn [foldl]. rewrite IH, bind_cons, app_assoc. f_equal.
    unfold Main9.add_game, main9, in_window.
    destruct (_ && _); simpl.
    + by rewrite add_entries_lookup.
    + by rewrite app_nil_r.
Qed.

(** The list of team [k] in the result of main9.py, before the sort. *)
Lemma main9_lookup today todays_games future_games teams days k :
  Main9.upcoming_opponents_next_week today todays_games future_games teams days
    !!! k
  ≡ₚ (todays_games ++ future_games)
       ≫= main9 today (today + (days - 1)) (list_to_set (_clean <$> teams)) k.
Proof.
  unfold Main9.upcoming_opponents_next_week.
  rewrite sorted_lookup, sort_by_date_perm, !main9_fold.
  rewrite lookup_total_empty. simpl. by rewrite bind_app.
Qed.

(** main9.py keeps every date inside the window. *)
Lemma main9_dates_in_window today todays_games future_games teams days k l e :
  Main9.upcoming_opponents_next_week today todays_games future_games teams days
    !! k = Some l ->
  e ∈ l -> today <= e.1.1 <= today + days - 1.
Proof.
  intros Hl He.
  assert (e ∈ Main9.upcoming_opponents_next_week today todays_games
                future_games teams days !!! k) as H.
  { by rewrite lookup_total_alt, Hl. }
  rewrite main9_lookup in H.
  apply list_elem_of_bind in H as (g & H & _).
  unfold main9, in_window in H.
  destruct (_ && _) eqn:E; [|by apply elem_of_nil in H].
  apply of_game_date in H. rewrite H. lia.
Qed.

(** The loader of main9.py only makes records for the days after
    [today]. *)
Lemma load_future_dates espn today days_ahead g :
  g ∈ Main9.load_future_games_from_espn espn today days_ahead ->
  today + 1 <= date g <= today + days_ahead.
Proof.
  unfold Main9.load_future_games_from_espn.
  rewrite list_join_bind, list_fmap_bind.
  intros (i & Hg & Hi)%list_elem_of_bind. simpl in Hg.
  apply elem_of_seqZ in Hi.
  destruct (espn (today + i)) as [evs|]; [|by apply elem_of_nil in Hg].
  apply list_elem_of_fmap in Hg as ([h a] & -> & _). simpl. lia.
Qed.

Lemma filter_none {A} (P : A -> Prop) `{forall x, Decision (P x)} (l : list A) :
  Forall (fun x => ~ P x) l -> filter P l = [].
Proof.
  induction 1 as [|x l Hx _ IH]; [done|]. by rewrite filter_cons_False.
Qed.

Lemma main9_not_today today end_ want k gs :
  Forall (fun g => date g <> today) gs ->
  filter (fun e : entry => e.1.1 = today) (gs ≫= main9 today end_ want k) = [].
Proof.
  induction 1 as [|g gs Hg _ IH]; [done|].
  rewrite bind_cons, filter_app, IH, app_nil_r.
  apply filter_none, Forall_forall. intros e He.
  unfold main9 in He. destruct (in_window _ _ _); [|by apply elem_of_nil in He].
  apply of_game_date in He. congruence.
Qed.

(** In main8.py the index of the schedule is read at the days after
    [today] only, and there it does not depend on the records of
    [today]. *)
Lemma index_lookup_ne today end_ sched (m m' : gmap Z (list game)) cur :
  cur <> today -> m !! cur = m' !! cur ->
  foldl (index_step today end_) m sched !! cur
  = foldl (index_step today end_) m'
      (List.filter (fun g => negb (date g =? today)) sched) !! cur.
Proof.
  intros Hcur. revert m m'. induction sched as [|g sched IH]; intros m m' Hm;
    [done|].
  cbn [foldl List.filter]. destruct (date g =? today) eqn:E; simpl.
  - apply IH. unfold index_step. destruct (_ && _); [|done].
    unfold append_to. rewrite lookup_insert_ne; [done|]. lia.
  - apply IH. unfold index_step. destruct (_ && _); [|done].
    unfold append_to. destruct (decide (date g = cur)) as [->|Hne].
    + by rewrite !lookup_insert_eq, Hm.
    + by rewrite !lookup_insert_ne.
Qed.

Lemma foldl_ext_in {A B} (f g : A -> B -> A) (l : list B) (a : A) :
  (forall x a, x ∈ l -> f a x = g a x) -> foldl f a l = foldl g a l.
Proof.
  revert a. induction l as [|x l IH]; intros a H; [done|].
  cbn [foldl]. rewrite H by left. apply IH. intros y b Hy. apply H. by right.
Qed.

Lemma main8_drops_today today todays_games league_schedule teams days :
  Main8.upcoming_opponents_next_week today todays_games league_schedule
    teams days
  = Main8.upcoming_opponents_next_week today todays_games
      (List.filter (fun g => negb (date g =? today)) league_schedule)
      teams days.
Proof.
  unfold Main8.upcoming_opponents_next_week. f_equal.
  apply foldl_ext_in. intros cur m Hcur. apply elem_of_seqZ in Hcur.
  f_equal. f_equal.
  apply (index_lookup_ne today (today + (days - 1))); [lia|done].
Qed.
End sched.

(** The live record of today and a schedule record of the same day under
    another spelling: main8.py reports the live one alone; a team without
    a game in the window has no list, which the caller reads as empty. *)
Example main8_live_record_only :
  let today := 739252 in
  let result :=
    Main8.upcoming_opponents_next_week today
      [ {| date := today; home := "LA Clippers"; away := "Denver Nuggets" |} ]
      [ {| date := today; home := "Los Angeles Clippers";
           away := "Denver Nuggets" |};
        {| date := today + 2; home := "Utah Jazz"; away := "Denver Nuggets" |} ]
      ["Denver Nuggets"; "Boston Celtics"] 7 in
  result !! "Denver Nuggets"
    = Some [ (today, "LA Clippers", AWAY); (today + 2, "Utah Jazz", AWAY) ]
  /\ result !! "Boston Celtics" = None.
Proof. split; vm_compute; reflexivity. Qed.

(** ** The claims on the schedule merge *)

(** C3, as the claim states it, fails on main9.py: its merge passes both
    batches through the same window, so that a record of the second batch
    dated today is kept, next to the one of the live source. Here the
    Clippers get two entries for the same day. *)
Lemma main9_keeps_today_of_other_source :
  let today := 739252 in
  Main9.upcoming_opponents_next_week today
    [ {| date := today; home := "Los Angeles Clippers"; away := "Denver Nuggets" |} ]
    [ {| date := today; home := "Los Angeles Clippers"; away := "Utah Jazz" |} ]
    ["Los Angeles Clippers"] 7 !! "Los Angeles Clippers"
  = Some [ (today, "Denver Nuggets", HOME); (today, "Utah Jazz", HOME) ].
Proof. vm_compute. reflexivity. Qed.

(** C3, amended. In main8.py the records of the season schedule dated
    today never reach the result: the merge gives the same result as on
    the schedule without them. In main9.py the entries for today are those
    of the live source when the second batch is what
    [load_future_games_from_espn] returns, whose dates are the days after
    today. *)
Theorem today_only_from_live_source :
  (forall today todays_games league_schedule teams days,
     Main8.upcoming_opponents_next_week today todays_games league_schedule
       teams days
     = Main8.upcoming_opponents_next_week today todays_games
         (List.filter (fun g => negb (date g =? today)) league_schedule)
         teams days)
  /\
  (forall espn today days_ahead todays_games teams days k,
     filter (fun e : Sched.entry => e.1.1 = today)
       (Main9.upcoming_opponents_next_week today todays_games
          (Main9.load_future_games_from_espn espn today days_ahead) teams days
        !!! k)
     ≡ₚ filter (fun e : Sched.entry => e.1.1 = today)
          (Main9.upcoming_opponents_next_week today todays_games [] teams days
           !!! k)).
Proof.
  split.
  - apply main8_drops_today.
  - intros espn today days_ahead todays_games teams days k.
    rewrite !main9_lookup, (app_nil_r todays_games), bind_app, filter_app.
    rewrite (main9_not_today _ _ _ _ (Main9.load_future_games_from_espn _ _ _));
      [by rewrite (app_nil_r (filter _ _))|].
    apply Forall_forall. intros g Hg%load_future_dates. lia.
Qed.

(** The range of main1.py has one day more than the window. *)
Lemma date_range_days_last start days :
  0 <= days -> start + days ∈ Main1.date_range_days start days.
Proof.
  intros H. unfold Main1.date_range_days. apply list_elem_of_fmap.
  exists days. split; [done|]. apply elem_of_seqZ. lia.
Qed.

(** C4 fails on main1.py. [date_range_days] runs over [days + 1] dates, so
    that for [days = 7] the scoreboard of [today + 7] is read too, and a
    game of that day is reported although it lies after [today + 6]. *)
Theorem main1_reports_day_after_window :
  let today := 739252 in
  let celtics := "1610612738" in
  let nuggets := "1610612743" in
  let teams_index :=
    [ {| Main1.teamId := celtics; Main1.fullName := "Boston Celtics";
         Main1.tricode := "BOS" |};
      {| Main1.teamId := nuggets; Main1.fullName := "Denver Nuggets";
         Main1.tricode := "DEN" |} ] in
  let sb : Main1.scoreboards := fun d =>
    Some (if d =? today + 7
          then [ {| Main1.hid := celtics; Main1.vid := nuggets;
                    Main1.h_tri := "BOS"; Main1.v_tri := "DEN" |} ]
          else []) in
  Main1.date_range_days today 7
    = [today; today + 1; today + 2; today + 3; today + 4; today + 5;
       today + 6; today + 7]
  /\ exists m,
      Main1.upcoming_opponents_next_week today sb [celtics] teams_index 7
        = Returned m
      /\ m !! celtics = Some [ (today + 7, "Denver Nuggets", HOME) ]
      /\ ~ (today + 7 <= today + 7 - 1).
Proof.
  split; [vm_compute; reflexivity|].
  eexists. split; [vm_compute; reflexivity|].
  split; [vm_compute; reflexivity|]. lia.
Qed.

(** ** Article selection *)

Section select.
Import Select Stamp.

Lemma lt_comparable a b :
  aware a = aware b -> lt a b = Returned (instant a <? instant b).
Proof.
  unfold aware, lt, instant.
  destruct (utcoffset a), (utcoffset b); try done; simpl.
  intros _. f_equal. rewrite !Z.sub_0_r.
  destruct (N.ltb_spec (ticks a) (ticks b)), (Z.ltb_spec (Z.of_N (ticks a)) (Z.of_N (ticks b)));
    try done; lia.
Qed.

Lemma lt_mixed a b : aware a <> aware b -> lt a b = Raised TypeError.
Proof. unfold aware, lt. by destruct (utcoffset a), (utcoffset b). Qed.

Lemma insert_desc_sorted x l :
  Forall (fun y => aware y.1 = aware x.1) l -> descending l ->
  exists r, insert_desc x l = Returned r /\ r ≡ₚ x :: l /\ descending r.
Proof.
  unfold descending. induction l as [|y l IH]; intros Hu Hs.
  - exists [x]. repeat split; [done|]. repeat constructor.
  - apply Forall_cons in Hu as [Hy Hu].
    apply StronglySorted_inv in Hs as [Hs Hall].
    cbn [insert_desc]. rewrite (lt_comparable _ _ Hy).
    destruct (Z.ltb_spec (instant y.1) (instant x.1)) as [Hlt|Hge].
    + exists (x :: y :: l). repeat split; [done|].
      constructor; [by constructor|]. constructor; [lia|].
      eapply Forall_impl; [exact Hall|]. simpl. intros; lia.
    + destruct (IH Hu Hs) as (r & -> & Hp & Hr).
      exists (y :: r). repeat split.
      * rewrite Hp. apply Permutation_swap.
      * constructor; [done|]. rewrite Hp. by constructor.
Qed.

Lemma sorted_desc_from acc l :
  uniform (acc ++ l) -> descending acc ->
  exists r,
    foldl (fun acc x =>
             match acc with
             | Returned r => insert_desc x r
             | Raised e => Raised e
             end) (Returned acc) l = Returned r
    /\ r ≡ₚ acc ++ l /\ descending r.
Proof.
  revert acc. induction l as [|x l IH]; intros acc Hu Hs.
  - exists acc. by rewrite app_nil_r.
  - cbn [foldl].
    destruct (insert_desc_sorted x acc) as (r & -> & Hp & Hr); [|done|].
    { apply Forall_forall. intros y Hy.
      apply Hu; apply elem_of_app; [by left|right; left]. }
    destruct (IH r) as (r' & -> & Hp' & Hr'); [|done|].
    { intros a b. rewrite Hp. intros Ha Hb.
      apply Hu; by rewrite <- (Permutation_middle acc l x). }
    exists r'. repeat split; [|done]. rewrite Hp', Hp.
    by rewrite (Permutation_middle acc l x).
Qed.

(** On keys that can be compared, the sort returns them all, the latest
    first. *)
Lemma sorted_desc_uniform l :
  uniform l ->
  exists r, sorted_desc l = Returned r /\ r ≡ₚ l /\ descending r.
Proof. intros H. apply (sorted_desc_from [] l); [done|constructor]. Qed.

Lemma insert_desc_mixed x y l :
  aware y.1 <> aware x.1 -> insert_desc x (y :: l) = Raised TypeError.
Proof. intros H. cbn [insert_desc]. by rewrite lt_mixed. Qed.

Lemma fold_raised (e : exn) l :
  foldl (fun acc x =>
           match acc with
           | Returned r => insert_desc x r
           | Raised e => Raised e
           end) (Raised e) l = Raised e.
Proof. induction l as [|x l IH]; [done|]. apply IH. Qed.

Lemma sorted_desc_mixed_from x0 acc l :
  x0 ∈ acc -> uniform acc -> descending acc -> ~ uniform (acc ++ l) ->
  foldl (fun acc x =>
           match acc with
           | Returned r => insert_desc x r
           | Raised e => Raised e
           end) (Returned acc) l = Raised TypeError.
Proof.
  revert acc. induction l as [|x l IH]; intros acc H0 Hu Hs Hn.
  - by rewrite app_nil_r in Hn.
  - cbn [foldl].
    destruct (decide (aware x.1 = aware x0.1)) as [Hx|Hx].
    + destruct (insert_desc_sorted x acc) as (r & -> & Hp & Hr); [|done|].
      { apply Forall_forall. intros y Hy. rewrite Hx. by apply Hu. }
      apply IH; [by rewrite Hp; right| |done|].
      * intros a b. rewrite Hp. intros Ha Hb.
        assert (forall c, c ∈ x :: acc -> aware c.1 = aware x0.1) as Hall.
        { intros c [->|Hc]%elem_of_cons; [done|by apply Hu]. }
        by rewrite (Hall a Ha), (Hall b Hb).
      * intros Hu'. apply Hn. intros a b Ha Hb. apply Hu'.
        -- rewrite Hp. by rewrite <- (Permutation_middle acc l x) in Ha.
        -- rewrite Hp. by rewrite <- (Permutation_middle acc l x) in Hb.
    + destruct acc as [|y acc']; [by apply elem_of_nil in H0|].
      rewrite insert_desc_mixed, fold_raised; [done|].
      rewrite (Hu y x0) by (by left || done). congruence.
Qed.

(** On keys of which one is naive and one aware, the sort raises
    [TypeError]. *)
Lemma sorted_desc_mixed l : ~ uniform l -> sorted_desc l = Raised TypeError.
Proof.
  destruct l as [|x0 l]; intros Hn.
  - destruct Hn. by intros x y Hx%elem_of_nil.
  - unfold sorted_desc. cbn [foldl insert_desc].
    apply (sorted_desc_mixed_from x0); [by left| | |done].
    + by intros a b ->%list_elem_of_singleton ->%list_elem_of_singleton.
    + repeat constructor.
Qed.

(** What the selection does when the timestamps of the scored candidates
    can be compared: it returns a scored candidate, and no scored
    candidate is later; with nothing scored it returns the first
    candidate. *)
Lemma select_article_uniform dt sess candidates first rest :
  dedupe candidates = first :: rest ->
  let scored := omap (score dt sess) (take 12 (first :: rest)) in
  uniform scored ->
  (scored = [] /\ select_article dt sess candidates = Returned first)
  \/ (exists ts u,
        (ts, u) ∈ scored
        /\ select_article dt sess candidates = Returned u
        /\ forall ts' u', (ts', u') ∈ scored -> instant ts' <= instant ts).
Proof.
  intros Hd scored Hu. unfold select_article. rewrite Hd. fold scored.
  destruct scored as [|e scored'] eqn:E; [by left|right].
  rewrite <- E in *.
  destruct (sorted_desc_uniform scored Hu) as (r & -> & Hp & Hr).
  destruct r as [|[ts u] r].
  { apply Permutation_nil_l in Hp. congruence. }
  exists ts, u. repeat split.
  - rewrite <- Hp. left.
  - intros ts' u' Hin. rewrite <- Hp in Hin.
    apply StronglySorted_inv in Hr as [_ Hall].
    apply elem_of_cons in Hin as [[= -> ->]|Hin]; [lia|].
    rewrite Forall_forall in Hall. by apply (Hall (ts', u')).
Qed.

(** And when they cannot: the call raises [TypeError]. *)
Lemma select_article_mixed dt sess candidates first rest :
  dedupe candidates = first :: rest ->
  ~ uniform (omap (score dt sess) (take 12 (first :: rest))) ->
  select_article dt sess candidates = Raised TypeError.
Proof.
  intros Hd Hn. unfold select_article. rewrite Hd.
  rewrite (sorted_desc_mixed _ Hn).
  destruct (omap _ _) eqn:E; [|done].
  destruct Hn. by intros x y Hx%elem_of_nil.
Qed.
End select.

(** ** The claims on article selection *)

(** C10 fails on the code. The index page links two articles, and both
    look like ranking articles. The page of week 2 has a [time] tag whose
    text ends in Z, which [fromisoformat] reads with the offset zero: its
    publish time is aware. The page of week 1 has no publish time and gets
    [datetime.min], which is naive. The sort compares the two and the call
    ends with [TypeError]. *)
Theorem sort_raises_on_aware_and_missing :
  let sess :=
    Doc.serve
      [ ("https://www.nba.com/news/category/power-rankings", Doc.index_page);
        ("https://www.nba.com/news/power-rankings", Doc.index_page);
        (Doc.week2, Doc.ranking_page [Doc.time_tag "2024-10-28T12:00:00Z"]);
        (Doc.week1, Doc.ranking_page []) ] in
  Select.score Doc.parsers sess Doc.week2
    = Some ({| ticks := 63865713600000000; utcoffset := Some 0 |}, Doc.week2)
  /\ Select.score Doc.parsers sess Doc.week1
     = Some (Select.datetime_min, Doc.week1)
  /\ Select.get_latest_power_rankings_article Doc.parsers sess
     = Raised TypeError.
Proof. repeat split; vm_compute; reflexivity. Qed.

(** C6 fails on the code, by the same comparison. Both candidates look
    like ranking articles and both have a publish time: the one of week 1
    in a [meta] tag, read by the format that ends in a literal Z, so it is
    naive; the later one of week 2 in a [time] tag, read from an ISO text,
    so it is aware. The call ends with [TypeError] where the claim has it
    return the article of week 2, which it does return when that article
    is the only candidate. *)
Theorem selection_raises_instead_of_latest :
  let sess :=
    Doc.serve
      [ (Doc.week1,
         Doc.ranking_page [Doc.meta_published "2024-10-21T12:00:00Z"]);
        (Doc.week2, Doc.ranking_page [Doc.time_tag "2024-10-28T12:00:00Z"]) ] in
  Select.select_article Doc.parsers sess [Doc.week1; Doc.week2]
    = Raised TypeError
  /\ Select.select_article Doc.parsers sess [Doc.week2] = Returned Doc.week2.
Proof. split; vm_compute; reflexivity. Qed.

(** ** Rank extraction *)

Section extract.
Import Py Soup Extract Found.

(** A loop that writes [f r] under [r] for the ranks [r] of [l]. *)
Lemma fold_insert_lookup (f : Z -> option string) (l : list Z)
    (m : gmap Z string) (r : Z) :
  foldl (fun m r => match f r with Some t => <[r := t]> m | None => m end) m l
    !! r
  = if bool_decide (r ∈ l)
    then match f r with Some t => Some t | None => m !! r end
    else m !! r.
Proof.
  revert m. induction l as [|x l IH]; intros m; [done|].
  cbn [foldl]. rewrite IH.
  destruct (decide (r = x)) as [->|Hne].
  - rewrite (bool_decide_eq_true_2 (x ∈ x :: l)) by left.
    destruct (f x) as [t|] eqn:E.
    + rewrite lookup_insert_eq. by destruct (bool_decide (x ∈ l)).
    + by destruct (bool_decide (x ∈ l)).
  - assert (bool_decide (r ∈ x :: l) = bool_decide (r ∈ l)) as ->.
    { apply bool_decide_ext. rewrite elem_of_cons.
      split; [by intros [?|?]|by right]. }
    destruct (f x) as [t|]; [|done]. by rewrite lookup_insert_ne.
Qed.

Lemma in_range_seqZ top_n r : r ∈ seqZ 1 top_n <-> 1 <= r <= top_n.
Proof. rewrite elem_of_seqZ. lia. Qed.

(** Strategy 1 holds, for the ranks 1 to [top_n], what the marker scan
    finds, and nothing else. *)
Lemma strategy1_lookup nodes top_n r :
  strategy1 nodes top_n !! r
  = if bool_decide (1 <= r <= top_n) then by_markers nodes r else None.
Proof.
  unfold strategy1.
  rewrite (foldl_ext_in _
    (fun m r => match by_markers nodes r with
                | Some t => <[r := t]> m | None => m end)).
  - rewrite fold_insert_lookup, lookup_empty.
    rewrite (bool_decide_ext _ _ (in_range_seqZ top_n r)).
    case_bool_decide; [|done]. by destruct (by_markers nodes r).
  - intros x m _. unfold by_markers.
    destruct (scan_markers x nodes) as [t|]; [|done].
    by destruct (truthy (Some t)).
Qed.

(** The list comprehension over the ranks succeeds when they are all
    there. *)
Lemma lookup_each_all (m : gmap Z string) rs acc :
  (forall r, r ∈ rs -> is_Some (m !! r)) ->
  lookup_each m rs acc = Returned (rev acc ++ ((fun r => m !!! r) <$> rs)).
Proof.
  revert acc. induction rs as [|r rs IH]; intros acc H.
  - simpl. by rewrite app_nil_r.
  - cbn [lookup_each]. destruct (H r) as [t Ht]; [left|].
    rewrite Ht, IH by (intros; apply H; by right).
    rewrite fmap_cons, lookup_total_alt, Ht. simpl. by rewrite <- app_assoc.
Qed.

(** A dictionary with at least [top_n] keys among 1 .. [top_n] has them
    all. *)
Lemma keys_in_range_all (m : gmap Z string) top_n :
  top_n <= Z.of_nat (length (List.filter (fun k => (1 <=? k) && (k <=? top_n))
                                         (fst <$> map_to_list m))) ->
  forall r, 1 <= r <= top_n -> is_Some (m !! r).
Proof.
  intros Hlen r Hr.
  set (ks := List.filter _ _) in Hlen.
  assert (NoDup ks) as Hnd.
  { apply NoDup_ListNoDup, List.NoDup_filter, NoDup_ListNoDup,
      NoDup_fst_map_to_list. }
  assert (forall k, k ∈ ks -> k ∈ seqZ 1 top_n) as Hsub.
  { intros k Hk%list_elem_of_In%List.filter_In. apply in_range_seqZ.
    destruct Hk as [_ Hk]. lia. }
  assert (ks ≡ₚ seqZ 1 top_n) as Hp.
  { apply submseteq_length_Permutation.
    - by apply NoDup_submseteq.
    - rewrite length_seqZ. lia. }
  assert (r ∈ ks) as Hin by (rewrite Hp; by apply in_range_seqZ).
  apply list_elem_of_In, List.filter_In in Hin as [Hin _].
  apply list_elem_of_In, list_elem_of_fmap in Hin as ([k t] & -> & Hkt).
  apply elem_of_map_to_list in Hkt. by exists t.
Qed.

Lemma size_keys_in_range (m : gmap Z string) top_n :
  (forall r, is_Some (m !! r) -> 1 <= r <= top_n) ->
  length (List.filter (fun k => (1 <=? k) && (k <=? top_n))
                      (fst <$> map_to_list m)) = size m.
Proof.
  intros H. rewrite <- length_map_to_list, <- (length_fmap fst).
  f_equal. apply List.forallb_filter_id, List.forallb_forall.
  intros k Hk%list_elem_of_In%list_elem_of_fmap.
  destruct Hk as ([k' t] & -> & Hkt%elem_of_map_to_list). simpl.
  specialize (H k' (ex_intro _ t Hkt)). lia.
Qed.

Lemma strategy1_complete nodes top_n :
  top_n <= Z.of_nat (size (strategy1 nodes top_n)) ->
  forall r, 1 <= r <= top_n -> is_Some (strategy1 nodes top_n !! r).
Proof.
  intros H. apply keys_in_range_all. rewrite size_keys_in_range; [done|].
  intros r [t Ht]. rewrite strategy1_lookup in Ht.
  by case_bool_decide.
Qed.

Lemma all_ranks_size (m : gmap Z string) top_n :
  (forall r, 1 <= r <= top_n -> is_Some (m !! r)) ->
  top_n <= Z.of_nat (size m).
Proof.
  intros H.
  assert (list_to_set (seqZ 1 top_n) ⊆ (dom m : gset Z)) as Hsub.
  { intros r Hr%elem_of_list_to_set%in_range_seqZ. apply elem_of_dom. auto. }
  apply subseteq_size in Hsub.
  rewrite size_list_to_set, length_seqZ, size_dom in Hsub
    by apply NoDup_seqZ. lia.
Qed.

(** The ranks that [sorted(by_rank)[:top_n]] lists are keys. *)
Lemma sorted_keys_present (m : gmap Z string) n r :
  r ∈ slice_to n (sorted_keys m) -> is_Some (m !! r).
Proof.
  unfold slice_to, sorted_keys. intros Hr.
  assert (r ∈ merge_sort Z.le (fst <$> map_to_list m)) as Hin.
  { destruct (n <? 0); eapply subseteq_take; exact Hr. }
  rewrite merge_sort_Permutation in Hin.
  apply list_elem_of_fmap in Hin as ([k t] & -> & Hkt).
  apply elem_of_map_to_list in Hkt. by exists t.
Qed.

(** One line scan writes under its own rank only, and what it writes is
    [by_lines]. *)
Lemma scan_lines_spec rnk lines (m : gmap Z string) :
  scan_lines rnk lines m
  = match by_lines rnk (bool_decide (is_Some (m !! rnk))) lines with
    | Some t => <[rnk := t]> m
    | None => m
    end.
Proof.
  induction lines as [|line rest IH]; [done|].
  cbn [scan_lines by_lines].
  destruct (bool_decide (is_Some (Re.rmatch (line_re rnk) line))); [|done].
  destruct (first_team_in _) as [t|].
  - rewrite lookup_insert_eq. by rewrite bool_decide_eq_true_2.
  - destruct (bool_decide (is_Some (m !! rnk))); [done|]. apply IH.
Qed.

Lemma strategy3_from (lines : list string) (rs : list Z)
    (m : gmap Z string) (r : Z) :
  NoDup rs ->
  foldl (fun by_rank rnk => scan_lines rnk lines by_rank) m rs !! r
  = if bool_decide (r ∈ rs)
    then match by_lines r (bool_decide (is_Some (m !! r))) lines with
         | Some t => Some t
         | None => m !! r
         end
    else m !! r.
Proof.
  intros Hnd. revert m. induction Hnd as [|x rs Hx Hnd IH]; intros m; [done|].
  cbn [foldl]. rewrite IH, scan_lines_spec.
  destruct (decide (r = x)) as [->|Hne].
  - rewrite (bool_decide_eq_false_2 (x ∈ rs)) by done.
    rewrite (bool_decide_eq_true_2 (x ∈ x :: rs)) by left.
    destruct (by_lines x _ lines); [|done]. by rewrite lookup_insert_eq.
  - assert (bool_decide (r ∈ x :: rs) = bool_decide (r ∈ rs)) as ->.
    { apply bool_decide_ext. rewrite elem_of_cons.
      split; [by intros [?|?]|by right]. }
    destruct (by_lines x _ lines); [|done]. by rewrite lookup_insert_ne.
Qed.

(** Strategy 3 on the dictionary [by_rank] of strategy 2: for a rank of
    1 .. [top_n] the team its own scan finds replaces the entry, and the
    entry stays where the scan finds none; the other entries stay. *)
Lemma strategy3_lookup lines top_n (by_rank : gmap Z string) r :
  strategy3 lines top_n by_rank !! r
  = if bool_decide (1 <= r <= top_n)
    then match by_lines r (bool_decide (is_Some (by_rank !! r))) lines with
         | Some t => Some t
         | None => by_rank !! r
         end
    else by_rank !! r.
Proof.
  unfold strategy3. rewrite strategy3_from by apply NoDup_seqZ.
  by rewrite (bool_decide_ext _ _ (in_range_seqZ top_n r)).
Qed.

(** The ways a call can end. It never ends with [KeyError]: each list of
    ranks that is looked up has all its ranks in the dictionary. *)
Lemma parse_cases soup url top_n :
  let article := article_of soup in
  let results := strategy1 (descendants article) top_n in
  let by_rank2 := strategy2 article in
  let by_rank3 := strategy3 (article_lines article) top_n by_rank2 in
  let run := parse_document soup url top_n in
  (run = ([MarkerScan],
          Returned ((fun r => results !!! r) <$> seqZ 1 top_n))
   /\ forall r, 1 <= r <= top_n -> is_Some (results !! r))
  \/ (run = ([MarkerScan; OrdinalScan],
            Returned ((fun r => by_rank2 !!! r)
                        <$> slice_to top_n (sorted_keys by_rank2)))
      /\ Z.of_nat (size results) < top_n <= Z.of_nat (size by_rank2))
  \/ (run = ([MarkerScan; OrdinalScan; LineScan],
            Returned ((fun r => by_rank3 !!! r) <$> seqZ 1 top_n))
      /\ forall r, 1 <= r <= top_n -> is_Some (by_rank3 !! r))
  \/ (run = ([MarkerScan; OrdinalScan; LineScan],
            Raised (RuntimeError (error_message top_n url)))
      /\ exists r, 1 <= r <= top_n /\ by_rank3 !! r = None).
Proof.
  intros article results by_rank2 by_rank3 run.
  unfold run, parse_document, after_strategy1. fold article.
  fold results. destruct (Z.geb_spec (Z.of_nat (size results)) top_n) as [H1|H1].
  { left. pose proof (strategy1_complete _ _ H1) as Hall. split; [|done].
    rewrite lookup_each_all; [done|].
    intros r Hr%in_range_seqZ. by apply Hall. }
  right. fold by_rank2.
  destruct (negb (bool_decide (by_rank2 = ∅))
            && (Z.of_nat (size by_rank2) >=? top_n)) eqn:H2.
  { left. apply andb_true_iff in H2 as [_ H2%Z.geb_le]. split; [|lia].
    rewrite lookup_each_all; [done|]. intros r. apply sorted_keys_present. }
  right. fold by_rank3.
  destruct (Z.geb_spec (Z.of_nat (length (List.filter
    (fun k => (1 <=? k) && (k <=? top_n)) (fst <$> map_to_list by_rank3))))
    top_n) as [H3|H3].
  { left. pose proof (keys_in_range_all _ _ H3) as Hall. split; [|done].
    rewrite lookup_each_all; [done|].
    intros r Hr%in_range_seqZ. by apply Hall. }
  right. split; [done|].
  destruct (decide (Forall (fun r => is_Some (by_rank3 !! r)) (seqZ 1 top_n)))
    as [Hall|Hex].
  - exfalso. rewrite Forall_forall in Hall.
    assert (seqZ 1 top_n ⊆+ List.filter (fun k => (1 <=? k) && (k <=? top_n))
              (fst <$> map_to_list by_rank3)) as Hsub.
    { apply NoDup_submseteq; [apply NoDup_seqZ|]. intros r Hr.
      destruct (Hall r Hr) as [t Ht].
      apply list_elem_of_In, List.filter_In. apply in_range_seqZ in Hr.
      split; [|lia]. apply list_elem_of_In, list_elem_of_fmap.
      exists (r, t). split; [done|]. by apply elem_of_map_to_list. }
    apply submseteq_length in Hsub. rewrite length_seqZ in Hsub. lia.
  - apply not_Forall_Exists, Exists_exists in Hex as (r & Hr & Hn); [|apply _].
    exists r. apply in_range_seqZ in Hr. split; [done|].
    by apply eq_None_not_Some.
Qed.
End extract.

Lemma append_assoc_3 (a b c : string) : a +:+ b +:+ c = (a +:+ b) +:+ c.
Proof.
  induction a as [|ch a IH]; [done|].
  change (String ch (a +:+ b +:+ c) = String ch ((a +:+ b) +:+ c)).
  by rewrite IH.
Qed.

(** The error of the cascade names the document. *)
Lemma error_message_names_url top_n url :
  exists pre, Extract.error_message top_n url = pre +:+ url.
Proof.
  unfold Extract.error_message.
  exists ("Could not extract top " +:+ Py.str_of_int top_n
            +:+ " teams from the article at ").
  by rewrite <- !append_assoc_3.
Qed.

(** Headings with ordinals and no marker: strategy 1 finds nothing and
    the call returns what strategy 2 finds, in canonical spelling. *)
Example headings_by_ordinal_scan :
  Extract.strategy1 (Soup.descendants Doc.headings) 4 = ∅
  /\ Extract.parse_top_teams_from_article
       (Doc.serve [(Doc.week2, Doc.page_of Doc.headings)]) Doc.week2 4
     = ([MarkerScan; OrdinalScan],
        Returned [ "Boston Celtics"; "Denver Nuggets"; "Oklahoma City Thunder";
                   "Los Angeles Clippers" ]).
Proof. split; vm_compute; reflexivity. Qed.

(** ** The claims on rank extraction *)

(** C5. For a page that is fetched and parsed: when strategy 1 alone
    resolves every rank of 1 .. [top_n], the call returns the teams
    strategy 1 holds for the ranks 1, ..., [top_n], in that order, and the
    marker scan is the only scan that ran: the ordinal scan and the line
    scan were not started. *)
Theorem strategy1_short_circuits sess url r top_n :
  sess url = Some r -> raises_for_status r = false ->
  let nodes := Soup.descendants (Extract.article_of (soup r)) in
  (forall k, 1 <= k <= top_n -> is_Some (Extract.strategy1 nodes top_n !! k)) ->
  Extract.parse_top_teams_from_article sess url top_n
  = ([MarkerScan],
     Returned ((fun k => Extract.strategy1 nodes top_n !!! k) <$> seqZ 1 top_n)).
Proof.
  intros Hr Hok nodes Hall.
  unfold Extract.parse_top_teams_from_article. rewrite Hr, Hok.
  unfold Extract.parse_document, Extract.after_strategy1. fold nodes.
  pose proof (all_ranks_size _ _ Hall) as Hsize.
  destruct (Z.geb_spec (Z.of_nat (size (Extract.strategy1 nodes top_n))) top_n)
    as [_|Hlt]; [|lia].
  rewrite lookup_each_all; [done|]. intros k Hk%in_range_seqZ. by apply Hall.
Qed.

Lemma strategy1_short_circuits_witness :
  Extract.parse_top_teams_from_article
    (Doc.serve [(Doc.week2, Doc.page_of Doc.with_markers)]) Doc.week2 2
  = ([MarkerScan], Returned ["Boston Celtics"; "Denver Nuggets"]).
Proof.
  rewrite (strategy1_short_circuits _ Doc.week2 (Doc.page_of Doc.with_markers) 2).
  - vm_compute. reflexivity.
  - vm_compute. reflexivity.
  - vm_compute. reflexivity.
  - intros k Hk. assert (k = 1 \/ k = 2) as [-> | ->] by lia;
      vm_compute; eexists; reflexivity.
Defined.

(** C1 fails on the code. The article lists five teams as ordinals and
    has no marker; the line of rank 1 names its team by the nickname alone,
    which [is_team_name] does not know. The ordinal scan fills the ranks 2
    to 5, which is enough for [top_n = 4], and the call returns the teams
    of the four smallest ranks it has: rank 1 is not resolved and no error
    is raised. The marker scan and the line scan return the ranks
    1 .. [top_n] or nothing ([parse_cases]). *)
Theorem ordinal_scan_returns_without_rank_1 :
  Extract.strategy2 Doc.rank_1_by_nickname !! 1 = None
  /\ Extract.parse_top_teams_from_article
       (Doc.serve [(Doc.week2, Doc.page_of Doc.rank_1_by_nickname)])
       Doc.week2 4
     = ([MarkerScan; OrdinalScan],
        Returned ["Boston Celtics"; "Denver Nuggets"; "Miami Heat"; "Utah Jazz"]).
Proof. split; vm_compute; reflexivity. Qed.




(** * Further properties of the code *)

(** ** The registry *)

Section registry_more.
Import Py Norm.

Lemma alias_values_steps k v : ALIASES !! k = Some v -> clean_steps v = v.
Proof.
  unfold ALIASES. intros H%elem_of_list_to_map_2.
  repeat (apply elem_of_cons in H as [H|H];
          [injection H as -> ->; vm_compute; reflexivity|]).
  by apply elem_of_nil in H.
Qed.

Lemma _clean_normal s : normal (_clean s).
Proof.
  unfold _clean. destruct (ALIASES !! clean_steps s) as [v|] eqn:E; simpl.
  - rewrite <- (alias_values_steps _ _ E). apply clean_steps_normal.
  - apply clean_steps_normal.
Qed.

Lemma canonicalize_key x : _clean (canonicalize x) = _clean x.
Proof.
  destruct (is_team_name x) eqn:E.
  - by apply canonicalize_known.
  - rewrite (canonicalize_unknown x E). apply _clean_strip.
Qed.

Lemma canonicalize_by_key x y :
  is_team_name x = true -> _clean x = _clean y -> canonicalize x = canonicalize y.
Proof.
  intros Hx Heq. unfold canonicalize. rewrite <- Heq.
  pose proof Hx as (t & Ht & Hk)%is_team_name_spec.
  unfold is_team_name in Hx. rewrite Hx.
  destruct (List.find _ CANON_TEAMS) as [t'|] eqn:E; [reflexivity|].
  apply list_elem_of_In in Ht.
  pose proof (List.find_none _ _ E t Ht) as Hn.
  apply bool_decide_eq_false in Hn. exact (False_ind _ (Hn Hk)).
Qed.

Lemma canonicalize_idem x : canonicalize (canonicalize x) = canonicalize x.
Proof.
  destruct (is_team_name x) eqn:E.
  - apply canonicalize_roster. by apply canonicalize_known.
  - rewrite (canonicalize_unknown x E).
    rewrite canonicalize_unknown by (by rewrite is_team_name_strip).
    apply strip_idem.
Qed.

End registry_more.

(** X1. [_clean] through the words of the text: the maximal runs of
    characters of [\w] of the text in lower case, every word [la] replaced
    by the two words [los angeles], joined by single spaces; the alias table
    is read at that string. *)
Theorem clean_by_words (s : string) :
  _clean s =
  let t := Py.join " " (Norm.expand_all (Norm.words (Py.lower s))) in
  default t (ALIASES !! t).
Proof. unfold _clean. by rewrite clean_steps_words. Qed.

(** X2. Every result of [_clean] is in normal form: in lower case, made of
    characters of [\w] and single spaces, without white space at its ends
    and without the word [la]. *)
Theorem clean_output_normal (s : string) : Norm.normal (_clean s).
Proof. apply _clean_normal. Qed.

(** X3. The alias entries with the keys [la clippers] and [la lakers] are
    never used: the string that is looked up in [ALIASES] is the result of
    the rewriting steps, in which the word [la] has become [los angeles]. No
    result of [_clean] has the word [la]. *)
Theorem la_alias_keys_never_match (s : string) :
  clean_steps s <> "la clippers" /\ clean_steps s <> "la lakers"
  /\ Norm.has_la false (_clean s) = false.
Proof.
  pose proof (Norm.normal_la _ (clean_steps_normal s)) as H.
  split; [|split].
  - intros E. rewrite E in H. vm_compute in H. discriminate.
  - intros E. rewrite E in H. vm_compute in H. discriminate.
  - apply (Norm.normal_la _ (_clean_normal s)).
Qed.

(** X4. [canonicalize] does not change what the registry reads of a text:
    the normal form of its result is the normal form of the text, and its
    result is a known name exactly when the text is. *)
Theorem canonicalize_keeps_key (x : string) :
  _clean (canonicalize x) = _clean x
  /\ is_team_name (canonicalize x) = is_team_name x.
Proof.
  split; [apply canonicalize_key|].
  unfold is_team_name. by rewrite canonicalize_key.
Qed.

(** X5. All spellings of a known team get one display name: two texts with
    the same normal form, one of them known, have the same result of
    [canonicalize], an entry of [CANON_TEAMS]. *)
Theorem known_spellings_one_name (x y : string) :
  is_team_name x = true -> _clean x = _clean y ->
  canonicalize x = canonicalize y /\ canonicalize x ∈ CANON_TEAMS.
Proof.
  intros Hx Heq. split; [by apply canonicalize_by_key|].
  by apply canonicalize_known.
Qed.

Lemma known_spellings_one_name_witness :
  canonicalize "LA Clippers" = canonicalize "los angeles  clippers!"
  /\ canonicalize "LA Clippers" ∈ CANON_TEAMS.
Proof.
  apply (known_spellings_one_name "LA Clippers" "los angeles  clippers!");
    vm_compute; reflexivity.
Defined.

(** ** Rank extraction *)

Section extract_more.
Import Py Soup Extract Found.

Lemma first_team_in_roster txt t : first_team_in txt = Some t -> t ∈ CANON_TEAMS.
Proof.
  unfold first_team_in. intros [H _]%List.find_some. by apply list_elem_of_In.
Qed.

Lemma scan_window_roster rank window t :
  scan_window rank window = Some t -> t ∈ CANON_TEAMS.
Proof.
  induction window as [|nxt rest IH]; [done|]. cbn [scan_window].
  destruct (is_rank_marker nxt (rank + 1)); [done|].
  destruct nxt as [s|name attrs cs]; [exact IH|].
  destruct (_ && is_team_name _) eqn:E.
  - apply andb_true_iff in E as [_ E]. intros <-%(inj Some).
    by apply canonicalize_known.
  - destruct (is_empty _).
    + cbn [truthy]. exact IH.
    + destruct (first_team_in _) as [t'|] eqn:F.
      * destruct (truthy (Some t')); [|exact IH].
        intros <-%(inj Some). by eapply first_team_in_roster.
      * cbn [truthy]. exact IH.
Qed.

Lemma scan_markers_roster rank nodes t :
  scan_markers rank nodes = Some t -> t ∈ CANON_TEAMS.
Proof.
  induction nodes as [|n rest IH]; [done|]. cbn [scan_markers].
  destruct (is_rank_marker n rank); [|exact IH].
  destruct (scan_window rank (take 599 rest)) as [t'|] eqn:E.
  - destruct (truthy (Some t')); [|exact IH].
    intros <-%(inj Some). by eapply scan_window_roster.
  - cbn [truthy]. exact IH.
Qed.

Lemma strategy1_roster nodes top_n r t :
  strategy1 nodes top_n !! r = Some t -> t ∈ CANON_TEAMS.
Proof.
  rewrite strategy1_lookup. case_bool_decide; [|done].
  unfold by_markers. destruct (scan_markers r nodes) as [t'|] eqn:E; [|done].
  destruct (truthy (Some t')); [|done]. intros <-%(inj Some).
  by eapply scan_markers_roster.
Qed.

Lemma ordinal_candidate_roster tag rnk nm :
  ordinal_candidate tag = Some (rnk, nm) -> nm ∈ CANON_TEAMS.
Proof.
  unfold ordinal_candidate. destruct (Re.rmatch _ _) as [m|]; [|done].
  destruct (is_team_name _) eqn:E; [|done]. intros H%(inj Some).
  apply (f_equal snd) in H. cbn [snd] in H. subst nm.
  by apply canonicalize_known.
Qed.

(** The loop that fills [by_rank] from the candidates. *)
Lemma by_rank_fold (cands : list (Z * string)) (m : gmap Z string) r :
  foldl (fun by_rank '(rnk, nm) =>
           if (1 <=? rnk) && (rnk <=? 30)
              && negb (bool_decide (is_Some (by_rank !! rnk)))
           then <[rnk := nm]> by_rank else by_rank) m cands !! r
  = match m !! r with
    | Some t => Some t
    | None =>
        if bool_decide (1 <= r <= 30)
        then snd <$> List.find (fun c => c.1 =? r) cands
        else None
    end.
Proof.
  revert m. induction cands as [|[rnk nm] cands IH]; intros m.
  - cbn [foldl List.find]. destruct (m !! r); [done|]. by case_bool_decide.
  - cbn [foldl List.find fst]. rewrite IH.
    destruct ((1 <=? rnk) && (rnk <=? 30)
              && negb (bool_decide (is_Some (m !! rnk)))) eqn:E.
    + apply andb_true_iff in E as [E1 E2]. apply negb_true_iff in E2.
      apply andb_true_iff in E1 as [?%Z.leb_le ?%Z.leb_le].
      apply bool_decide_eq_false in E2. apply eq_None_not_Some in E2.
      destruct (decide (r = rnk)) as [->|Hne].
      * rewrite lookup_insert_eq, E2, Z.eqb_refl.
        rewrite bool_decide_eq_true_2 by lia. done.
      * rewrite lookup_insert_ne by done.
        destruct (Z.eqb_spec rnk r); [congruence|done].
    + destruct (m !! r) as [t|] eqn:Hm; [done|].
      destruct (decide (1 <= r <= 30)) as [Hr|Hr];
        [rewrite !(bool_decide_eq_true_2 _ Hr)
        |by rewrite !(bool_decide_eq_false_2 _ Hr)].
      destruct (Z.eqb_spec rnk r) as [->|]; [|done].
      exfalso. rewrite Hm in E.
      rewrite (bool_decide_eq_false_2 (is_Some None)) in E
        by (intros [? ?]; discriminate).
      simpl in E. lia.
Qed.

Lemma strategy2_lookup article r :
  strategy2 article !! r
  = if bool_decide (1 <= r <= 30)
    then snd <$> List.find (fun c => c.1 =? r)
                   (omap ordinal_candidate (find_all block_tags article))
    else None.
Proof. unfold strategy2. by rewrite by_rank_fold, lookup_empty. Qed.

Lemma strategy2_roster article r t :
  strategy2 article !! r = Some t -> t ∈ CANON_TEAMS.
Proof.
  rewrite strategy2_lookup. case_bool_decide; [|done].
  destruct (List.find _ _) as [[rnk nm]|] eqn:E; [|done].
  intros <-%(inj Some). apply List.find_some in E as [Hin _].
  apply list_elem_of_In, list_elem_of_omap in Hin as (tag & _ & Hc).
  by eapply ordinal_candidate_roster.
Qed.

Lemma by_lines_roster rnk had lines t :
  by_lines rnk had lines = Some t -> t ∈ CANON_TEAMS.
Proof.
  induction lines as [|line rest IH]; [done|]. cbn [by_lines].
  destruct (bool_decide _); [|exact IH].
  destruct (first_team_in _) as [t'|] eqn:F.
  - intros <-%(inj Some). by eapply first_team_in_roster.
  - destruct had; [done|exact IH].
Qed.

Lemma strategy3_roster lines top_n article r t :
  strategy3 lines top_n (strategy2 article) !! r = Some t -> t ∈ CANON_TEAMS.
Proof.
  rewrite strategy3_lookup. case_bool_decide.
  - destruct (by_lines r _ lines) as [t'|] eqn:E.
    + intros <-%(inj Some). by eapply by_lines_roster.
    + apply strategy2_roster.
  - apply strategy2_roster.
Qed.

Lemma looked_up_roster (m : gmap Z string) (rs : list Z) :
  (forall r t, m !! r = Some t -> t ∈ CANON_TEAMS) ->
  (forall r, r ∈ rs -> is_Some (m !! r)) ->
  Forall (fun t => t ∈ CANON_TEAMS) ((fun r => m !!! r) <$> rs).
Proof.
  intros Hm Hrs. apply Forall_fmap, Forall_forall. intros r Hr.
  destruct (Hrs r Hr) as [t Ht]. simpl.
  rewrite (lookup_total_correct _ _ _ Ht). by eapply Hm.
Qed.

Lemma length_sorted_keys (m : gmap Z string) : length (sorted_keys m) = size m.
Proof.
  unfold sorted_keys.
  by rewrite merge_sort_Permutation, length_fmap, length_map_to_list.
Qed.

Lemma parse_document_returned soup url top_n trace l :
  parse_document soup url top_n = (trace, Returned l) ->
  length l = Z.to_nat top_n /\ Forall (fun t => t ∈ CANON_TEAMS) l.
Proof.
  intros Hrun.
  destruct (parse_cases soup url top_n)
    as [[E Hall]|[[E Hsz]|[[E Hall]|[E _]]]];
    rewrite E in Hrun; [| | |discriminate]; injection Hrun as <- <-.
  - split; [by rewrite length_fmap, length_seqZ|].
    apply looked_up_roster.
    + intros r t. apply strategy1_roster.
    + intros r Hr%in_range_seqZ. by apply Hall.
  - split.
    + rewrite length_fmap. unfold slice_to.
      destruct (Z.ltb_spec top_n 0); [lia|].
      rewrite length_take, length_sorted_keys. lia.
    + apply looked_up_roster.
      * intros r t. apply strategy2_roster.
      * intros r. apply sorted_keys_present.
  - split; [by rewrite length_fmap, length_seqZ|].
    apply looked_up_roster.
    + intros r t. apply strategy3_roster.
    + intros r Hr%in_range_seqZ. by apply Hall.
Qed.

Lemma parse_returned_roster sess url top_n trace l :
  Extract.parse_top_teams_from_article sess url top_n = (trace, Returned l) ->
  length l = Z.to_nat top_n /\ Forall (fun t => t ∈ CANON_TEAMS) l.
Proof.
  unfold Extract.parse_top_teams_from_article.
  destruct (sess url) as [r|]; [|discriminate].
  destruct (raises_for_status r); [discriminate|].
  apply parse_document_returned.
Qed.

End extract_more.

(** X6. When [parse_top_teams_from_article] returns, the list has [top_n]
    names (none when [top_n] is negative) and each one is an entry of
    [CANON_TEAMS], whichever strategy produced it. *)
Theorem returned_teams_are_roster_names sess url top_n trace l :
  Extract.parse_top_teams_from_article sess url top_n = (trace, Returned l) ->
  length l = Z.to_nat top_n /\ Forall (fun t => t ∈ CANON_TEAMS) l.
Proof. apply parse_returned_roster. Qed.

Lemma returned_teams_are_roster_names_witness :
  length ["Boston Celtics"; "Denver Nuggets"; "Oklahoma City Thunder";
          "Los Angeles Clippers"] = Z.to_nat 4
  /\ Forall (fun t => t ∈ CANON_TEAMS)
       ["Boston Celtics"; "Denver Nuggets"; "Oklahoma City Thunder";
        "Los Angeles Clippers"].
Proof.
  apply (returned_teams_are_roster_names
           (Doc.serve [(Doc.week2, Doc.page_of Doc.headings)]) Doc.week2 4
           [MarkerScan; OrdinalScan]).
  vm_compute. reflexivity.
Defined.

(** X7. A call of [parse_top_teams_from_article] ends in one of three ways.
    It returns, and the marker scan was the first scan. It raises
    [RuntimeError] with the message that names [top_n] and the URL, after
    the three scans. It raises the error of the request, before any scan,
    when the request raises or the status is an error status. The look-ups
    of the three return statements never raise [KeyError]. *)
Theorem parse_ends_in_one_of_three_ways sess url top_n :
  match Extract.parse_top_teams_from_article sess url top_n with
  | (trace, Returned _) => head trace = Some MarkerScan
  | (trace, Raised (RuntimeError msg)) =>
      trace = [MarkerScan; OrdinalScan; LineScan]
      /\ msg = Extract.error_message top_n url
  | (trace, Raised HTTPError) =>
      trace = []
      /\ (sess url = None
          \/ exists r, sess url = Some r /\ raises_for_status r = true)
  | (_, Raised _) => False
  end.
Proof.
  unfold Extract.parse_top_teams_from_article.
  destruct (sess url) as [r|] eqn:Hs; [|by split; [|left]].
  destruct (raises_for_status r) eqn:Hr; [split; [done|right; by exists r]|].
  destruct (parse_cases (soup r) url top_n)
    as [[E _]|[[E _]|[[E _]|[E _]]]]; by rewrite E.
Qed.

(** X8. In the ordinal scan the first candidate of a rank wins: [by_rank]
    holds for a rank of 1 .. 30 the team of the first candidate, in document
    order, with that rank, and it holds nothing for any other rank. *)
Theorem ordinal_scan_first_occurrence_wins article r :
  Extract.strategy2 article !! r
  = if bool_decide (1 <= r <= 30)
    then snd <$> List.find (fun c => c.1 =? r)
                   (omap Extract.ordinal_candidate
                         (Soup.find_all Extract.block_tags article))
    else None.
Proof. apply strategy2_lookup. Qed.

(** X9. For [top_n <= 0] the call returns the empty list after the marker
    scan alone, whatever the document: no other scan runs and no error is
    raised. *)
Theorem nothing_asked_nothing_scanned soup url top_n :
  top_n <= 0 ->
  Extract.parse_document soup url top_n = ([MarkerScan], Returned []).
Proof.
  intros H. unfold Extract.parse_document, Extract.after_strategy1,
    Extract.strategy1.
  assert (seqZ 1 top_n = []) as ->.
  { unfold seqZ. by replace (Z.to_nat top_n) with 0%nat by lia. }
  cbn [foldl]. rewrite map_size_empty.
  destruct (Z.geb_spec (Z.of_nat 0) top_n); [done|lia].
Qed.

Lemma nothing_asked_nothing_scanned_witness :
  Extract.parse_document (soup (Doc.page_of Doc.headings)) Doc.week2 0
  = ([MarkerScan], Returned []).
Proof. apply nothing_asked_nothing_scanned. lia. Defined.

(** ** Article selection *)

Section select_more.
Import Py Soup Select Stamp.

Lemma dedupe_loop_ordered (seen : gset string) ordered l :
  Pick.loop (seen, ordered) l
  = ((Pick.loop (seen, []) l).1, ordered ++ (Pick.loop (seen, []) l).2).
Proof.
  revert seen ordered. induction l as [|u l IH]; intros seen ordered.
  - unfold Pick.loop; cbn [foldl fst snd]. by rewrite app_nil_r.
  - unfold Pick.loop; cbn [foldl]; fold Pick.loop. destruct (bool_decide (u ∈ seen)); [apply IH|].
    rewrite (IH _ (ordered ++ [u])), (IH _ ([] ++ [u])).
    cbn [fst snd]. by rewrite <- app_assoc.
Qed.

Lemma dedupe_loop_cons (seen : gset string) u l :
  (Pick.loop (seen, []) (u :: l)).2
  = if bool_decide (u ∈ seen) then (Pick.loop (seen, []) l).2
    else u :: (Pick.loop ({[u]} ∪ seen, []) l).2.
Proof.
  unfold Pick.loop; cbn [foldl]; fold Pick.loop. destruct (bool_decide (u ∈ seen)); [done|].
  by rewrite dedupe_loop_ordered.
Qed.

Lemma dedupe_loop_elem (seen : gset string) l x :
  x ∈ (Pick.loop (seen, []) l).2 <-> x ∈ l /\ x ∉ seen.
Proof.
  revert seen. induction l as [|u l IH]; intros seen.
  - unfold Pick.loop; cbn [foldl snd].
    split; [by intros ?%elem_of_nil|by intros [?%elem_of_nil _]].
  - rewrite dedupe_loop_cons. case_bool_decide as Hu.
    + rewrite IH, elem_of_cons. split; [intros [? ?]; auto|].
      intros [[->|?] ?]; [done|auto].
    + rewrite !elem_of_cons, IH, not_elem_of_union, not_elem_of_singleton.
      split.
      * intros [->|(? & ? & ?)]; auto.
      * intros [[->|?] ?]; [by left|].
        destruct (decide (x = u)) as [->|]; [by left|right; auto].
Qed.

Lemma dedupe_loop_NoDup (seen : gset string) l :
  NoDup (Pick.loop (seen, []) l).2.
Proof.
  revert seen. induction l as [|u l IH]; intros seen.
  - constructor.
  - rewrite dedupe_loop_cons. case_bool_decide as Hu; [apply IH|].
    constructor; [|apply IH].
    rewrite dedupe_loop_elem, not_elem_of_union, not_elem_of_singleton.
    by intros (_ & ? & _).
Qed.

Lemma dedupe_loop_filter (s1 s2 : gset string) l :
  (Pick.loop (s1 ∪ s2, []) l).2
  = (Pick.loop (s1, []) (filter (fun u => u ∉ s2) l)).2.
Proof.
  revert s1. induction l as [|u l IH]; intros s1; [done|].
  rewrite dedupe_loop_cons.
  destruct (decide (u ∈ s2)) as [H2|H2].
  - rewrite bool_decide_eq_true_2 by (apply elem_of_union; by right).
    rewrite filter_cons_False by (by intros ?). apply IH.
  - rewrite filter_cons_True by done. rewrite dedupe_loop_cons.
    destruct (decide (u ∈ s1)) as [H1|H1].
    + rewrite !bool_decide_eq_true_2; [apply IH|done|].
      apply elem_of_union; by left.
    + rewrite !bool_decide_eq_false_2; [|done|by apply not_elem_of_union].
      f_equal. rewrite <- IH. by rewrite (assoc_L (∪)).
Qed.

Lemma dedupe_loop_id (seen : gset string) l :
  NoDup l -> (forall x, x ∈ l -> x ∉ seen) ->
  (Pick.loop (seen, []) l).2 = l.
Proof.
  intros Hnd. revert seen. induction Hnd as [|u l Hu Hnd IH]; intros seen Hs.
  - done.
  - rewrite dedupe_loop_cons.
    rewrite bool_decide_eq_false_2 by (apply Hs; left).
    f_equal. apply IH. intros x Hx.
    apply not_elem_of_union. split; [|apply Hs; by right].
    apply not_elem_of_singleton. by intros ->.
Qed.

Lemma dedupe_elem l x : x ∈ dedupe l <-> x ∈ l.
Proof.
  change (dedupe l) with (Pick.loop (∅, []) l).2. rewrite dedupe_loop_elem. split; [by intros [? _]|].
  intros ?. split; [done|apply not_elem_of_empty].
Qed.

Lemma dedupe_NoDup l : NoDup (dedupe l).
Proof. apply dedupe_loop_NoDup. Qed.

Lemma dedupe_cons x l :
  dedupe (x :: l) = x :: dedupe (filter (fun u => u <> x) l).
Proof.
  change (dedupe (x :: l)) with (Pick.loop (∅, []) (x :: l)).2.
  change (dedupe (filter (fun u => u <> x) l))
    with (Pick.loop (∅, []) (filter (fun u => u <> x) l)).2.
  rewrite dedupe_loop_cons.
  rewrite bool_decide_eq_false_2 by apply not_elem_of_empty.
  f_equal. rewrite (comm_L (∪)), dedupe_loop_filter. do 2 f_equal.
  apply list_filter_iff. intros u. by rewrite not_elem_of_singleton.
Qed.

Lemma dedupe_id l : NoDup l -> dedupe l = l.
Proof. intros H. apply dedupe_loop_id; [done|]. intros; apply not_elem_of_empty. Qed.

(** *** The sort, whatever the keys *)

Lemma sort_from_raised e l : Pick.sort_from (Raised e) l = Raised e.
Proof. apply fold_raised. Qed.

Lemma sort_from_cons acc x l :
  Pick.sort_from (Returned acc) (x :: l) = Pick.sort_from (insert_desc x acc) l.
Proof. done. Qed.

Lemma insert_desc_returned x l r :
  insert_desc x l = Returned r -> r ≡ₚ x :: l.
Proof.
  revert r. induction l as [|y l IH]; intros r.
  - cbn [insert_desc]. by intros [= <-].
  - cbn [insert_desc]. destruct (lt y.1 x.1) as [[]|]; [by intros [= <-]| |done].
    destruct (insert_desc x l) as [r'|]; [|done]. intros [= <-].
    rewrite (IH r' eq_refl). apply Permutation_swap.
Qed.

Lemma insert_desc_raised x l e : insert_desc x l = Raised e -> e = TypeError.
Proof.
  induction l as [|y l IH]; [done|]. cbn [insert_desc].
  unfold lt at 1.
  destruct (utcoffset y.1), (utcoffset x.1); try (by intros [= <-]).
  - destruct (_ <? _); [done|]. destruct (insert_desc x l); [done|].
    intros [= <-]. by apply IH.
  - destruct (_ <? _)%N; [done|]. destruct (insert_desc x l); [done|].
    intros [= <-]. by apply IH.
Qed.

Lemma sort_from_returned acc l r :
  Pick.sort_from (Returned acc) l = Returned r -> r ≡ₚ acc ++ l.
Proof.
  revert acc. induction l as [|x l IH]; intros acc.
  - intros [= <-]. by rewrite app_nil_r.
  - rewrite sort_from_cons. destruct (insert_desc x acc) as [r'|e] eqn:E.
    + intros H%IH. rewrite H, (insert_desc_returned _ _ _ E).
      by rewrite (Permutation_middle acc l x).
    + by rewrite sort_from_raised.
Qed.

Lemma sort_from_raised_te acc l e :
  Pick.sort_from (Returned acc) l = Raised e -> e = TypeError.
Proof.
  revert acc. induction l as [|x l IH]; intros acc; [done|].
  rewrite sort_from_cons. destruct (insert_desc x acc) as [r'|e'] eqn:E.
  - apply IH.
  - rewrite sort_from_raised. intros [= <-]. by eapply insert_desc_raised.
Qed.

Lemma score_url dt sess u ts u' : score dt sess u = Some (ts, u') -> u' = u.
Proof.
  unfold score. destruct (sess u) as [rr|]; [|done].
  destruct (negb _); [done|]. destruct (negb _); [done|]. by intros [= _ <-].
Qed.

Lemma scored_url dt sess (l : list string) ts u :
  (ts, u) ∈ omap (score dt sess) l -> u ∈ l.
Proof.
  intros (c & Hc & Hs)%list_elem_of_omap. by rewrite (score_url _ _ _ _ _ Hs).
Qed.

Lemma not_uniform_nil : uniform [].
Proof. by intros x y Hx%elem_of_nil. Qed.

Lemma uniform_dec l : uniform l \/ ~ uniform l.
Proof.
  destruct l as [|x0 l]; [left; apply not_uniform_nil|].
  destruct (decide (Forall (fun y => aware y.1 = aware x0.1) (x0 :: l)))
    as [H|H].
  - left. rewrite Forall_forall in H. intros a b Ha Hb.
    by rewrite (H a Ha), (H b Hb).
  - right. intros Hu. apply H, Forall_forall. intros y Hy.
    apply Hu; [done|left].
Qed.

(** The ways the selection can end. *)
Lemma select_article_cases dt sess candidates :
  let scored := omap (score dt sess) (take 12 (dedupe candidates)) in
  match select_article dt sess candidates with
  | Returned u =>
      uniform scored
      /\ ((scored = [] /\ head (dedupe candidates) = Some u)
          \/ exists ts, (ts, u) ∈ scored)
  | Raised (RuntimeError _) => candidates = []
  | Raised TypeError => ~ uniform scored
  | Raised _ => False
  end.
Proof.
  intros scored. unfold select_article.
  destruct (dedupe candidates) as [|first rest] eqn:Hd.
  { destruct candidates as [|c cs]; [done|].
    by rewrite dedupe_cons in Hd. }
  fold scored.
  destruct (uniform_dec scored) as [Hu|Hn].
  - destruct scored as [|e scored'] eqn:E.
    { split; [done|by left]. }
    rewrite <- E in *.
    destruct (sorted_desc_uniform scored Hu) as (r & -> & Hp & _).
    destruct r as [|[ts u] r].
    { apply Permutation_nil_l in Hp. congruence. }
    split; [done|]. right. exists ts. rewrite <- Hp. left.
  - rewrite (sorted_desc_mixed _ Hn).
    destruct scored; [|done]. destruct Hn. apply not_uniform_nil.
Qed.

(** *** The first of the latest *)

Lemma insert_desc_head x y l r :
  aware y.1 = aware x.1 ->
  insert_desc x (y :: l) = Returned r ->
  exists r', r = (if instant y.1 <? instant x.1 then x else y) :: r'.
Proof.
  cbn [insert_desc]. intros Ha. rewrite (lt_comparable _ _ Ha).
  destruct (_ <? _); [intros [= <-]; by eexists|].
  destruct (insert_desc x l); [|done]. intros [= <-]. by eexists.
Qed.

(** The head of the list under construction is the first of the elements
    seen so far whose instant is the largest. *)
Lemma sort_from_head acc p l r :
  uniform (p ++ l) ->
  match acc with [] => p = [] | x :: _ => Pick.first_latest x p end ->
  Pick.sort_from (Returned acc) l = Returned r ->
  match r with [] => p ++ l = [] | x :: _ => Pick.first_latest x (p ++ l) end.
Proof.
  revert acc p. induction l as [|z l IH]; intros acc p Hu Hacc.
  - intros [= <-]. by rewrite app_nil_r.
  - rewrite sort_from_cons. destruct (insert_desc z acc) as [acc'|] eqn:E;
      [|by rewrite sort_from_raised].
    intros Hr. rewrite (cons_middle z p l), app_assoc.
    apply (IH acc'); [by rewrite <- app_assoc| |done].
    destruct acc as [|x acc0].
    + cbn [insert_desc] in E. injection E as <-. subst p.
      exists [], []. split; [done|]. split; by intros y ?%elem_of_nil.
    + destruct Hacc as (pre & post & -> & Hpre & Hpost).
      assert (aware x.1 = aware z.1) as Ha.
      { apply Hu; rewrite !elem_of_app, !elem_of_cons; [left|right]; auto. }
      destruct (insert_desc_head _ _ _ _ Ha E) as (r' & ->).
      destruct (Z.ltb_spec (instant x.1) (instant z.1)) as [Hlt|Hge].
      * exists (pre ++ x :: post), []. split; [done|].
        split; [|by intros y ?%elem_of_nil].
        intros y Hy. apply elem_of_app in Hy as [Hy|Hy];
          [|apply elem_of_cons in Hy as [->|Hy]; [done|]].
        -- specialize (Hpre y Hy). lia.
        -- specialize (Hpost y Hy). lia.
      * exists pre, (post ++ [z]). split; [by rewrite <- app_assoc|].
        split; [done|].
        intros y Hy. apply elem_of_app in Hy as [Hy|Hy]; [auto|].
        apply list_elem_of_singleton in Hy as ->. lia.
Qed.

Lemma first_latest_unique x x' p :
  Pick.first_latest x p -> Pick.first_latest x' p -> x = x'.
Proof.
  intros (pre & post & -> & Hpre & Hpost) (pre' & post' & E & Hpre' & Hpost').
  apply app_eq_inv in E as [(k & -> & E)|(k & -> & E)].
  - destruct k as [|y k]; cbn [app] in E.
    + by injection E as <- _.
    + injection E as <- ->.
      assert (instant x'.1 < instant x.1)
        by (apply Hpre; rewrite elem_of_app, elem_of_cons; auto).
      assert (instant x.1 <= instant x'.1)
        by (apply Hpost'; rewrite elem_of_app, elem_of_cons; auto).
      lia.
  - destruct k as [|y k]; cbn [app] in E.
    + by injection E as <- _.
    + injection E as <- ->.
      assert (instant x.1 < instant x'.1)
        by (apply Hpre'; rewrite elem_of_app, elem_of_cons; auto).
      assert (instant x'.1 <= instant x.1)
        by (apply Hpost; rewrite elem_of_app, elem_of_cons; auto).
      lia.
Qed.

Lemma select_article_first_latest dt sess candidates ts u pre post :
  let scored := omap (score dt sess) (take 12 (dedupe candidates)) in
  uniform scored ->
  scored = pre ++ (ts, u) :: post ->
  (forall y, y ∈ pre -> instant y.1 < instant ts) ->
  (forall y, y ∈ post -> instant y.1 <= instant ts) ->
  select_article dt sess candidates = Returned u.
Proof.
  intros scored Hu E Hpre Hpost. unfold select_article.
  destruct (dedupe candidates) as [|first rest] eqn:Hd.
  { subst scored. cbn in E. by destruct pre. }
  fold scored.
  destruct (sorted_desc_uniform scored Hu) as (r & Hs & Hp & _).
  pose proof (sort_from_head [] [] scored r Hu eq_refl Hs) as Hh.
  rewrite Hs. destruct scored as [|e scored'] eqn:E'; [by destruct pre|].
  rewrite <- E' in *. destruct r as [|[ts' u'] r].
  { apply Permutation_nil_l in Hp. congruence. }
  cbn [app] in Hh.
  assert (Pick.first_latest (ts, u) scored) as Hf by (by exists pre, post).
  by injection (first_latest_unique _ _ _ Hh Hf) as -> ->.
Qed.

(** *** The pages that are fetched *)

Lemma omap_ext_in {A B} (f g : A -> option B) (l : list A) :
  (forall x, x ∈ l -> f x = g x) -> omap f l = omap g l.
Proof.
  induction l as [|x l IH]; intros H; [done|]. cbn [omap list_omap].
  rewrite (H x) by left. rewrite IH; [done|]. intros; apply H; by right.
Qed.

Lemma score_ext dt sess sess' u : sess u = sess' u -> score dt sess u = score dt sess' u.
Proof. unfold score. by intros ->. Qed.

(** *** Links *)

Lemma to_lower_slash c : to_lower c = "/"%char -> c = "/"%char.
Proof.
  destruct c as [[] [] [] [] [] [] [] []]; vm_compute; intros H;
    first [reflexivity | discriminate H].
Qed.

Lemma ch_eqb_neq a b : a <> b -> ch_eqb a b = false.
Proof.
  intros H. destruct (ch_eqb a b) eqn:E; [|done]. by apply ch_eqb_eq in E.
Qed.

Lemma valid_href_absolute href :
  _is_valid_article_href href = true ->
  _absolutize href = "https://www.nba.com" +:+ href.
Proof.
  unfold _is_valid_article_href.
  destruct (startswith "/news/" (lower href)) eqn:E; [|done]. intros _.
  destruct href as [|c href]; [done|]. cbn [lower startswith] in E.
  apply andb_true_iff in E as [E _]. apply ch_eqb_eq in E.
  symmetry in E. apply to_lower_slash in E as ->.
  unfold _absolutize. cbn [startswith].
  rewrite (ch_eqb_neq "h" "/") by done. by rewrite ch_eqb_refl.
Qed.

Lemma collect_returned sess urls acc cs :
  collect sess urls acc = Returned cs ->
  forall c, c ∈ cs ->
    c ∈ acc
    \/ exists idx r href,
         idx ∈ urls /\ sess idx = Some r
         /\ href ∈ select_a_href (soup r)
         /\ _is_valid_article_href href = true
         /\ c = _absolutize href.
Proof.
  revert acc. induction urls as [|url urls IH]; intros acc.
  - cbn [collect]. intros [= <-] c Hc. by left.
  - cbn [collect]. destruct (sess url) as [r|] eqn:Hs; [|done].
    destruct (raises_for_status r); [done|].
    intros H c Hc. destruct (IH _ H c Hc) as [Hin|(idx & r' & h & ? & ? & ? & ? & ?)].
    + apply elem_of_app in Hin as [Hin|Hin]; [by left|right].
      apply list_elem_of_fmap in Hin as (h & -> & Hh).
      apply list_elem_of_In, List.filter_In in Hh as [Hh Hv].
      apply list_elem_of_In in Hh.
      exists url, r, h. split; [left|]. done.
    + right. exists idx, r', h. split; [by right|done].
Qed.

Lemma collect_raised sess urls acc e :
  collect sess urls acc = Raised e ->
  e = HTTPError /\ exists u, u ∈ urls /\ Pick.fails sess u.
Proof.
  revert acc. induction urls as [|url urls IH]; intros acc; [done|].
  cbn [collect]. destruct (sess url) as [r|] eqn:Hs.
  - destruct (raises_for_status r) eqn:Hr.
    + intros [= <-]. split; [done|]. exists url. split; [left|].
      right. by exists r.
    + intros (-> & u & ? & ?)%IH. split; [done|]. exists u. split; [by right|done].
  - intros [= <-]. split; [done|]. exists url. split; [left|]. by left.
Qed.

Lemma collect_fails sess urls acc u :
  u ∈ urls -> Pick.fails sess u -> collect sess urls acc = Raised HTTPError.
Proof.
  revert acc. induction urls as [|url urls IH]; intros acc Hu Hf.
  - by apply elem_of_nil in Hu.
  - cbn [collect]. destruct (sess url) as [r|] eqn:Hs; [|done].
    destruct (raises_for_status r) eqn:Hr; [done|].
    apply elem_of_cons in Hu as [->|Hu]; [|by apply IH].
    destruct Hf as [Hf|(r' & Hf & Hr')]; congruence.
Qed.

End select_more.

(** X10. The loop that removes duplicates: its result has no repetition and
    the same elements as the list of candidates; a list without repetition
    is left as it is; and the first occurrences are kept in their order: the
    head stays and its later copies go. *)
Theorem dedupe_keeps_first_occurrences (l : list string) :
  NoDup (Select.dedupe l)
  /\ (forall x, x ∈ Select.dedupe l <-> x ∈ l)
  /\ (NoDup l -> Select.dedupe l = l)
  /\ match l with
     | [] => Select.dedupe l = []
     | x :: l' =>
         Select.dedupe l = x :: Select.dedupe (filter (fun u => u <> x) l')
     end.
Proof.
  split; [apply dedupe_NoDup|]. split; [apply dedupe_elem|].
  split; [apply dedupe_id|]. destruct l as [|x l']; [done|apply dedupe_cons].
Qed.

(** X11. The ways the selection ends, once the links are collected. It
    returns a scored candidate, which is one of the first 12 distinct links
    whose page was fetched with status 200 and looks like a rankings
    article, or, when no candidate was scored, the first link. It raises
    [RuntimeError] only when there is no link, and [TypeError] only when a
    candidate was scored. It raises nothing else: the index [[0]] never
    fails. *)
Theorem selection_ends_in_one_of_three_ways dt sess candidates :
  let scored :=
    omap (Select.score dt sess) (take 12 (Select.dedupe candidates)) in
  match Select.select_article dt sess candidates with
  | Returned u =>
      (scored = [] /\ head (Select.dedupe candidates) = Some u)
      \/ exists ts, (ts, u) ∈ scored
  | Raised (RuntimeError _) => candidates = []
  | Raised TypeError => scored <> []
  | Raised _ => False
  end.
Proof.
  intros scored.
  pose proof (select_article_cases dt sess candidates) as H. cbn zeta in H.
  fold scored in H.
  destruct (Select.select_article dt sess candidates) as [u|[]]; try done.
  - by destruct H.
  - intros E. apply H. rewrite E. apply not_uniform_nil.
Qed.

(** X12. The selection raises [TypeError] exactly when the keys of the scored
    candidates cannot be compared: one is naive (parsed without offset, or
    [datetime.min] for a page without a parsed time) and another is aware.
    *)
Theorem selection_raises_type_error_iff_mixed dt sess candidates :
  Select.select_article dt sess candidates = Raised TypeError
  <-> ~ Stamp.uniform
        (omap (Select.score dt sess) (take 12 (Select.dedupe candidates))).
Proof.
  pose proof (select_article_cases dt sess candidates) as H. cbn zeta in H.
  split.
  - intros E. by rewrite E in H.
  - intros Hn.
    destruct (Select.select_article dt sess candidates) as [u|[]]; try done.
    + by destruct H.
    + subst candidates. destruct Hn. apply not_uniform_nil.
Qed.

(** X13. When the keys can be compared, the article returned is the first of
    the scored candidates with the latest time: every scored candidate
    before it is strictly earlier, none after it is later. *)
Theorem selection_returns_first_of_latest dt sess candidates ts u pre post :
  let scored :=
    omap (Select.score dt sess) (take 12 (Select.dedupe candidates)) in
  Stamp.uniform scored ->
  scored = pre ++ (ts, u) :: post ->
  (forall y, y ∈ pre -> Stamp.instant y.1 < Stamp.instant ts) ->
  (forall y, y ∈ post -> Stamp.instant y.1 <= Stamp.instant ts) ->
  Select.select_article dt sess candidates = Returned u.
Proof. apply select_article_first_latest. Qed.

Lemma selection_returns_first_of_latest_witness :
  Select.select_article Doc.parsers
    (Doc.serve
       [ (Doc.week2, Doc.ranking_page []);
         (Doc.week1,
          Doc.ranking_page [Doc.meta_published "2024-10-21T12:00:00Z"]) ])
    [Doc.week2; Doc.week1]
  = Returned Doc.week1.
Proof.
  apply (selection_returns_first_of_latest _ _ _
           {| ticks := 63865108800000000; utcoffset := None |} Doc.week1
           [(Select.datetime_min, Doc.week2)] []).
  - assert (omap _ _ = [ (Select.datetime_min, Doc.week2);
                         ({| ticks := 63865108800000000; utcoffset := None |},
                          Doc.week1) ]) as -> by (vm_compute; reflexivity).
    intros x y Hx Hy.
    apply elem_of_cons in Hx as [->|Hx];
      [|apply list_elem_of_singleton in Hx as ->];
      (apply elem_of_cons in Hy as [->|Hy];
       [|apply list_elem_of_singleton in Hy as ->]); reflexivity.
  - vm_compute. reflexivity.
  - intros y ->%list_elem_of_singleton. vm_compute. reflexivity.
  - intros y Hy. by apply elem_of_nil in Hy.
Defined.

(** X14. The selection reads the pages of the first 12 distinct links and no
    other: two sessions that answer alike on these give the same result. *)
Theorem selection_fetches_first_twelve_only dt sess sess' candidates :
  (forall u, u ∈ take 12 (Select.dedupe candidates) -> sess u = sess' u) ->
  Select.select_article dt sess candidates
  = Select.select_article dt sess' candidates.
Proof.
  intros H. unfold Select.select_article.
  rewrite (omap_ext_in (Select.score dt sess) (Select.score dt sess')); [done|].
  intros u Hu. by apply score_ext, H.
Qed.

Lemma selection_fetches_first_twelve_only_witness :
  let candidates :=
    ["a"; "b"; "c"; "d"; "e"; "f"; "g"; "h"; "i"; "j"; "k"; "l"; "m"] in
  Select.select_article Doc.parsers (Doc.serve []) candidates
  = Select.select_article Doc.parsers
      (Doc.serve [("m", Doc.ranking_page [])]) candidates.
Proof.
  intros candidates. apply selection_fetches_first_twelve_only.
  assert (take 12 (Select.dedupe candidates)
          = ["a"; "b"; "c"; "d"; "e"; "f"; "g"; "h"; "i"; "j"; "k"; "l"])
    as -> by (vm_compute; reflexivity).
  intros u Hu.
  repeat (apply elem_of_cons in Hu as [->|Hu]; [vm_compute; reflexivity|]).
  by apply elem_of_nil in Hu.
Defined.

(** X15. A URL that [get_latest_power_rankings_article] returns is the site
    prefix followed by a link of an index page that was fetched, one that
    [_is_valid_article_href] accepts. *)
Theorem selected_article_is_a_valid_index_link dt sess u :
  Select.get_latest_power_rankings_article dt sess = Returned u ->
  exists idx r href,
    idx ∈ Select.INDEX_CANDIDATES /\ sess idx = Some r
    /\ href ∈ Soup.select_a_href (soup r)
    /\ Select._is_valid_article_href href = true
    /\ u = "https://www.nba.com" +:+ href.
Proof.
  unfold Select.get_latest_power_rankings_article.
  destruct (Select.collect sess Select.INDEX_CANDIDATES []) as [cs|] eqn:Hc;
    [|done].
  intros Hs. pose proof (select_article_cases dt sess cs) as H.
  cbn zeta in H. rewrite Hs in H. destruct H as [_ H].
  assert (u ∈ cs) as Hu.
  { apply dedupe_elem. destruct H as [[_ H]|[ts H]].
    - destruct (Select.dedupe cs); [done|]. injection H as ->. left.
    - eapply subseteq_take, scored_url, H. }
  destruct (collect_returned _ _ _ _ Hc u Hu)
    as [Hin|(idx & r & href & ? & ? & ? & Hv & ->)].
  { by apply elem_of_nil in Hin. }
  exists idx, r, href. by rewrite <- (valid_href_absolute href Hv).
Qed.

Lemma selected_article_is_a_valid_index_link_witness :
  exists idx r href,
    idx ∈ Select.INDEX_CANDIDATES
    /\ Doc.serve
         [ ("https://www.nba.com/news/category/power-rankings", Doc.index_page);
           ("https://www.nba.com/news/power-rankings", Doc.index_page);
           (Doc.week2, Doc.ranking_page []);
           (Doc.week1, Doc.ranking_page []) ] idx = Some r
    /\ href ∈ Soup.select_a_href (soup r)
    /\ Select._is_valid_article_href href = true
    /\ Doc.week2 = "https://www.nba.com" +:+ href.
Proof.
  apply (selected_article_is_a_valid_index_link Doc.parsers).
  vm_compute. reflexivity.
Defined.

(** X16. [get_latest_power_rankings_article] raises the error of a request
    exactly when the request for one of the two index pages raises or is
    answered with an error status. An article page that fails is skipped and
    never fails the call. *)
Theorem http_error_iff_an_index_page_fails dt sess :
  Select.get_latest_power_rankings_article dt sess = Raised HTTPError
  <-> exists u, u ∈ Select.INDEX_CANDIDATES /\ Pick.fails sess u.
Proof.
  unfold Select.get_latest_power_rankings_article. split.
  - destruct (Select.collect sess Select.INDEX_CANDIDATES []) as [cs|e] eqn:Hc.
    + intros Hs. pose proof (select_article_cases dt sess cs) as H.
      cbn zeta in H. by rewrite Hs in H.
    + intros _. by apply collect_raised in Hc as [_ ?].
  - intros (u & Hu & Hf). by rewrite (collect_fails _ _ _ _ Hu Hf).
Qed.

(** ** The schedule: sort, merges and sources *)

Section sort_more.
Import Sched Contrib Order.

Lemma insert_by_date_sorted x l :
  StronglySorted by_date l -> StronglySorted by_date (insert_by_date x l).
Proof.
  induction l as [|y l IH]; intros Hs; cbn [insert_by_date].
  - repeat constructor.
  - apply StronglySorted_inv in Hs as [Hs Hall].
    destruct (Z.leb_spec x.1.1 y.1.1) as [Hle|Hgt].
    + constructor; [by constructor|]. constructor; [done|].
      eapply Forall_impl; [exact Hall|]. unfold by_date. intros; lia.
    + constructor; [by apply IH|]. rewrite insert_by_date_perm.
      constructor; [unfold by_date; lia|done].
Qed.

Lemma sort_by_date_sorted l : StronglySorted by_date (sort_by_date l).
Proof.
  induction l as [|x l IH]; [constructor|].
  by apply insert_by_date_sorted.
Qed.

Lemma on_day_cons d x l :
  on_day d (x :: l) = (if bool_decide (x.1.1 = d) then [x] else []) ++ on_day d l.
Proof.
  unfold on_day. case_bool_decide.
  - by rewrite filter_cons_True.
  - by rewrite filter_cons_False.
Qed.

Lemma on_day_insert d x l : on_day d (insert_by_date x l) = on_day d (x :: l).
Proof.
  induction l as [|y l IH]; [done|]. cbn [insert_by_date].
  destruct (Z.leb_spec x.1.1 y.1.1) as [Hle|Hgt]; [done|].
  rewrite (on_day_cons d y), IH, !on_day_cons, !app_assoc. f_equal.
  repeat case_bool_decide; try done. lia.
Qed.

Lemma on_day_sort d l : on_day d (sort_by_date l) = on_day d l.
Proof.
  induction l as [|x l IH]; [done|].
  cbn [sort_by_date foldr]. rewrite on_day_insert, !on_day_cons.
  f_equal. apply IH.
Qed.

Lemma on_day_elem d l e : e ∈ on_day d l <-> e ∈ l /\ e.1.1 = d.
Proof. unfold on_day. rewrite list_elem_of_filter. tauto. Qed.

(** A list in the order of its dates is determined by its entries of
    each day. *)
Lemma sorted_by_days l1 l2 :
  StronglySorted by_date l1 -> StronglySorted by_date l2 ->
  (forall d, on_day d l1 = on_day d l2) -> l1 = l2.
Proof.
  intros H1. revert l2. induction H1 as [|x t1 Hs1 IH Hx]; intros l2 H2 Hd.
  - destruct l2 as [|y t2]; [done|]. specialize (Hd y.1.1).
    rewrite on_day_cons, bool_decide_eq_true_2 in Hd by done. done.
  - destruct l2 as [|y t2].
    { specialize (Hd x.1.1).
      rewrite on_day_cons, bool_decide_eq_true_2 in Hd by done. done. }
    apply StronglySorted_inv in H2 as [Hs2 Hy].
    assert (x.1.1 = y.1.1) as Hxy.
    { assert (x.1.1 <= y.1.1).
      { assert (y ∈ on_day y.1.1 (x :: t1)) as Hin.
        { rewrite Hd, on_day_cons, bool_decide_eq_true_2 by done. left. }
        apply on_day_elem in Hin as [Hin _].
        apply elem_of_cons in Hin as [->|Hin]; [lia|].
        rewrite Forall_forall in Hx. apply (Hx y Hin). }
      assert (y.1.1 <= x.1.1).
      { assert (x ∈ on_day x.1.1 (y :: t2)) as Hin.
        { rewrite <- Hd, on_day_cons, bool_decide_eq_true_2 by done. left. }
        apply on_day_elem in Hin as [Hin _].
        apply elem_of_cons in Hin as [->|Hin]; [lia|].
        rewrite Forall_forall in Hy. apply (Hy x Hin). }
      lia. }
    pose proof (Hd x.1.1) as Hd0.
    rewrite !on_day_cons, !bool_decide_eq_true_2 in Hd0 by done.
    cbn [app] in Hd0. injection Hd0 as <- Hd0.
    f_equal. apply IH; [done|]. intros d.
    destruct (decide (x.1.1 = d)) as [<-|Hne]; [done|].
    specialize (Hd d). by rewrite !on_day_cons, !bool_decide_eq_false_2 in Hd.
Qed.

Lemma sort_by_days l1 l2 :
  (forall d, on_day d l1 = on_day d l2) -> sort_by_date l1 = sort_by_date l2.
Proof.
  intros H. apply sorted_by_days; try apply sort_by_date_sorted.
  intros d. by rewrite !on_day_sort.
Qed.

End sort_more.

Section merge_more.
Import Sched Contrib Order.

Lemma wanted_iff (teams : list string) (k : string) :
  _clean k ∈ (list_to_set (_clean <$> teams) : gset string)
  <-> exists t, t ∈ teams /\ _clean t = _clean k.
Proof.
  rewrite elem_of_list_to_set, list_elem_of_fmap.
  split; intros (t & ? & ?); exists t; auto.
Qed.

Lemma stocked_empty want : stocked want ∅.
Proof. intros k l H. by rewrite lookup_empty in H. Qed.

Lemma stocked_append want k e m :
  _clean k ∈ want -> stocked want m -> stocked want (append_to k e m).
Proof.
  intros Hk Hm k' l. unfold append_to.
  destruct (decide (k = k')) as [<-|Hne].
  - rewrite lookup_insert_eq. intros [= <-]. split; [|done].
    by destruct (default [] (m !! k)).
  - rewrite lookup_insert_ne by done. apply Hm.
Qed.

Lemma stocked_add_entries want d h a m :
  stocked want m -> stocked want (add_entries want d h a m).
Proof.
  intros Hm. unfold add_entries.
  repeat case_bool_decide; repeat apply stocked_append; done.
Qed.

Lemma stocked_main9 today end_ want gs m :
  stocked want m -> stocked want (foldl (Main9.add_game today end_ want) m gs).
Proof.
  revert m. induction gs as [|g gs IH]; intros m Hm; [done|].
  cbn [foldl]. apply IH. unfold Main9.add_game.
  destruct (negb _); [done|]. by apply stocked_add_entries.
Qed.

Lemma sorted_lookup_Some (m : gmap string (list entry)) k l :
  (sort_by_date <$> m) !! k = Some l ->
  exists l0, m !! k = Some l0 /\ l = sort_by_date l0.
Proof.
  rewrite lookup_fmap. destruct (m !! k) as [l0|]; [|done].
  intros [= <-]. by exists l0.
Qed.

Lemma sort_by_date_nil l : sort_by_date l = [] -> l = [].
Proof.
  intros H. apply Permutation_nil_r. rewrite <- H. by rewrite sort_by_date_perm.
Qed.

Lemma main9_unsorted today todays_games future_games teams days k :
  let end_ := today + (days - 1) in
  let want : gset string := list_to_set (_clean <$> teams) in
  foldl (Main9.add_game today end_ want)
    (foldl (Main9.add_game today end_ want) ∅ todays_games) future_games !!! k
  = (todays_games ++ future_games) ≫= main9 today end_ want k.
Proof.
  intros end_ want. rewrite !main9_fold, lookup_total_empty. simpl.
  by rewrite bind_app.
Qed.

Lemma elem_of_if_singleton {A} (b : bool) (x e : A) :
  e ∈ (if b then [x] else []) <-> b = true /\ e = x.
Proof.
  destruct b.
  - rewrite list_elem_of_singleton. tauto.
  - rewrite elem_of_nil. split; [done|]. by intros [? _].
Qed.

Lemma of_game_elem want k d h a e :
  e ∈ of_game want k d h a <->
  (_clean h ∈ want /\ h = k /\ e = (d, a, HOME))
  \/ (_clean a ∈ want /\ a = k /\ e = (d, h, AWAY)).
Proof.
  unfold of_game.
  rewrite elem_of_app, !elem_of_if_singleton, !andb_true_iff,
    !bool_decide_eq_true. tauto.
Qed.

Lemma main9_elem today end_ want k g e :
  e ∈ main9 today end_ want k g <->
  today <= date g <= end_
  /\ ((_clean (home g) ∈ want /\ home g = k /\ e = (date g, away g, HOME))
      \/ (_clean (away g) ∈ want /\ away g = k /\ e = (date g, home g, AWAY))).
Proof.
  unfold main9, in_window.
  destruct (Z.leb_spec today (date g)), (Z.leb_spec (date g) end_); simpl;
    try (rewrite elem_of_nil; split; [done|intros [? _]; lia]).
  rewrite of_game_elem. split; [intros ?; split; [lia|done]|by intros [_ ?]].
Qed.

End merge_more.

(** *** main8.py and main9.py *)

Section by_registry.
Import Sched Contrib Order.
Variable clean : string -> string.

Lemma add_entries_by_lookup want d h a (m : gmap string (list entry)) k :
  ByRegistry.add_entries clean want d h a m !!! k
  = m !!! k ++ ByRegistry.of_game clean want k d h a.
Proof.
  unfold ByRegistry.add_entries, ByRegistry.of_game.
  destruct (bool_decide (clean h ∈ want)), (bool_decide (clean a ∈ want));
    simpl; rewrite ?append_to_lookup, ?app_nil_r, <- ?app_assoc; done.
Qed.

Lemma of_game_by_date want k d h a e :
  e ∈ ByRegistry.of_game clean want k d h a -> e.1.1 = d.
Proof.
  unfold ByRegistry.of_game. intros [H|H]%elem_of_app.
  - destruct (_ && _); [|by apply elem_of_nil in H].
    by apply list_elem_of_singleton in H as ->.
  - destruct (_ && _); [|by apply elem_of_nil in H].
    by apply list_elem_of_singleton in H as ->.
Qed.

Lemma filled_append k e (m : gmap string (list entry)) :
  filled m -> filled (append_to k e m).
Proof.
  intros Hm k' l. unfold append_to.
  destruct (decide (k = k')) as [<-|Hne].
  - rewrite lookup_insert_eq. intros [= <-].
    by destruct (default [] (m !! k)).
  - rewrite lookup_insert_ne by done. apply Hm.
Qed.

Lemma filled_add_entries want d h a m :
  filled m -> filled (ByRegistry.add_entries clean want d h a m).
Proof.
  intros Hm. unfold ByRegistry.add_entries.
  repeat case_bool_decide; repeat apply filled_append; done.
Qed.

Lemma games_fold_lookup want (f : game -> Z) gs
    (m : gmap string (list entry)) k :
  foldl (fun m g => ByRegistry.add_entries clean want (f g) (home g) (away g) m)
        m gs !!! k
  = m !!! k
    ++ (gs ≫= fun g => ByRegistry.of_game clean want k (f g) (home g) (away g)).
Proof.
  revert m. induction gs as [|g gs IH]; intros m.
  - simpl. by rewrite app_nil_r.
  - cbn [foldl]. by rewrite IH, bind_cons, app_assoc, add_entries_by_lookup.
Qed.

Lemma filled_games want (f : game -> Z) gs m :
  filled m ->
  filled (foldl (fun m g =>
                   ByRegistry.add_entries clean want (f g) (home g) (away g) m)
                m gs).
Proof.
  revert m. induction gs as [|g gs IH]; intros m Hm; [done|].
  cbn [foldl]. apply IH. by apply filled_add_entries.
Qed.

Lemma days_fold_lookup want (idx : gmap Z (list game)) curs
    (m : gmap string (list entry)) k :
  foldl (fun m cur =>
           foldl (fun m g =>
                    ByRegistry.add_entries clean want cur (home g) (away g) m)
                 m (default [] (idx !! cur))) m curs !!! k
  = m !!! k ++ (curs ≫= main8_day clean want k idx).
Proof.
  revert m. induction curs as [|cur curs IH]; intros m.
  - simpl. by rewrite app_nil_r.
  - cbn [foldl]. rewrite IH, bind_cons, app_assoc. f_equal.
    apply (games_fold_lookup want (fun _ => cur)).
Qed.

Lemma filled_days want (idx : gmap Z (list game)) curs m :
  filled m ->
  filled
    (foldl (fun m cur =>
              foldl (fun m g =>
                       ByRegistry.add_entries clean want cur (home g) (away g) m)
                    m (default [] (idx !! cur))) m curs).
Proof.
  revert m. induction curs as [|cur curs IH]; intros m Hm; [done|].
  cbn [foldl]. apply IH. by apply (filled_games want (fun _ => cur)).
Qed.

Lemma main8_day_date want k idx cur e :
  e ∈ main8_day clean want k idx cur -> e.1.1 = cur.
Proof.
  unfold main8_day. intros (g & He & _)%list_elem_of_bind.
  by apply of_game_by_date in He.
Qed.

End by_registry.

Section merge8.
Import Sched Contrib Order.

Lemma filled_empty : filled ∅.
Proof. intros k l H. by rewrite lookup_empty in H. Qed.

Lemma stocked_filled want m : stocked want m -> filled m.
Proof. intros H k l Hl. by destruct (H k l Hl). Qed.

(** Two dictionaries without empty lists are equal when their lists
    are. *)
Lemma filled_eq (m m' : gmap string (list entry)) :
  filled m -> filled m' ->
  (forall k, sort_by_date (m !!! k) = sort_by_date (m' !!! k)) ->
  sort_by_date <$> m = sort_by_date <$> m'.
Proof.
  intros Hm Hm' H. apply map_eq. intros k. rewrite !lookup_fmap.
  specialize (H k). rewrite !lookup_total_alt in H.
  destruct (m !! k) as [l|] eqn:E, (m' !! k) as [l'|] eqn:E'; simpl in *.
  - by rewrite H.
  - pose proof (Hm k l E) as Hl. by apply sort_by_date_nil in H.
  - pose proof (Hm' k l' E') as Hl. symmetry in H.
    by apply sort_by_date_nil in H.
  - done.
Qed.

Lemma append_to_index (d cur : Z) (g : game) (m : gmap Z (list game)) :
  default [] (append_to d g m !! cur)
  = default [] (m !! cur) ++ (if bool_decide (d = cur) then [g] else []).
Proof.
  unfold append_to. case_bool_decide as Hd.
  - subst cur. by rewrite lookup_insert_eq.
  - rewrite lookup_insert_ne by done. by rewrite app_nil_r.
Qed.

Lemma index_lookup today end_ sched (m : gmap Z (list game)) cur :
  default [] (foldl (index_step today end_) m sched !! cur)
  = default [] (m !! cur)
    ++ filter (fun g => date g = cur /\ today <= date g <= end_) sched.
Proof.
  revert m. induction sched as [|g sched IH]; intros m.
  - simpl. by rewrite app_nil_r.
  - cbn [foldl]. rewrite IH. unfold index_step.
    destruct (Z.leb_spec today (date g)), (Z.leb_spec (date g) end_); simpl;
      try (rewrite filter_cons_False by lia; done).
    rewrite append_to_index, <- app_assoc. f_equal.
    case_bool_decide.
    + by rewrite filter_cons_True by lia.
    + by rewrite filter_cons_False by (intros [? _]; done).
Qed.

Lemma on_day_all d l : (forall e, e ∈ l -> e.1.1 = d) -> on_day d l = l.
Proof.
  induction l as [|x l IH]; intros H; [done|].
  rewrite on_day_cons, bool_decide_eq_true_2 by (apply H; left).
  simpl. f_equal. apply IH. intros; apply H; by right.
Qed.

Lemma on_day_none d l : (forall e, e ∈ l -> e.1.1 <> d) -> on_day d l = [].
Proof.
  induction l as [|x l IH]; intros H; [done|].
  rewrite on_day_cons, bool_decide_eq_false_2 by (apply H; left).
  simpl. apply IH. intros; apply H; by right.
Qed.

Lemma on_day_app d l1 l2 : on_day d (l1 ++ l2) = on_day d l1 ++ on_day d l2.
Proof. apply filter_app. Qed.

Lemma on_day_bind {A} d (f : A -> list entry) (key : A -> Z) (xs : list A) :
  (forall x e, e ∈ f x -> e.1.1 = key x) ->
  on_day d (xs ≫= f) = filter (fun x => key x = d) xs ≫= f.
Proof.
  intros H. induction xs as [|x xs IH]; [done|].
  rewrite bind_cons, on_day_app, IH.
  destruct (decide (key x = d)) as [Hx|Hx].
  - rewrite filter_cons_True, bind_cons by done. f_equal.
    apply on_day_all. intros e He. by rewrite (H x e He).
  - rewrite filter_cons_False by done.
    rewrite on_day_none; [done|]. intros e He. by rewrite (H x e He).
Qed.

Lemma filter_eq_NoDup (d : Z) (l : list Z) :
  NoDup l -> filter (fun x => x = d) l = if bool_decide (d ∈ l) then [d] else [].
Proof.
  induction 1 as [|x l Hx Hnd IH]; [done|].
  destruct (decide (x = d)) as [->|Hne].
  - rewrite filter_cons_True by done.
    rewrite bool_decide_eq_true_2 by left. f_equal.
    rewrite IH. by rewrite bool_decide_eq_false_2.
  - rewrite filter_cons_False by done. rewrite IH.
    apply (f_equal (fun b : bool => if b then [d] else [])).
    apply bool_decide_ext. rewrite elem_of_cons.
    split; [by right|]. by intros [->|?].
Qed.

Lemma main9_date today end_ want k g e :
  e ∈ main9 today end_ want k g -> e.1.1 = date g.
Proof. intros (_ & [(_ & _ & ->)|(_ & _ & ->)])%main9_elem; done. Qed.

(** The schedule of one day after [today], as the two versions read
    it. *)
Lemma day_agrees today end_ want k d sched :
  (if bool_decide (d ∈ seqZ (today + 1) (end_ - today))
   then filter (fun g => date g = d /\ today <= date g <= end_) sched
          ≫= (fun g => of_game want k d (home g) (away g))
   else [])
  = filter (fun g => date g = d)
      (List.filter (fun g => negb (date g =? today)) sched)
      ≫= main9 today end_ want k.
Proof.
  induction sched as [|g sched IH].
  { by case_bool_decide. }
  cbn [List.filter]. destruct (Z.eqb_spec (date g) today) as [Hg|Hg]; simpl.
  - rewrite <- IH. case_bool_decide as Hd; [|done].
    apply elem_of_seqZ in Hd. rewrite filter_cons_False by lia. done.
  - destruct (decide (date g = d)) as [Hgd|Hgd].
    + rewrite (filter_cons_True (fun g => date g = d)) by done.
      rewrite bind_cons, <- IH. case_bool_decide as Hd.
      * apply elem_of_seqZ in Hd. rewrite filter_cons_True by lia.
        rewrite bind_cons. f_equal. unfold main9, in_window.
        destruct (Z.leb_spec today (date g)), (Z.leb_spec (date g) end_);
          simpl; try lia. by rewrite Hgd.
      * rewrite elem_of_seqZ in Hd. unfold main9, in_window.
        destruct (Z.leb_spec today (date g)), (Z.leb_spec (date g) end_);
          simpl; try done. lia.
    + rewrite (filter_cons_False (fun g => date g = d)) by done.
      rewrite <- IH. case_bool_decide; [|done].
      rewrite filter_cons_False by (by intros [? _]). done.
Qed.

Lemma bind_ext_in {A B} (f g : A -> list B) (l : list A) :
  (forall x, x ∈ l -> f x = g x) -> l ≫= f = l ≫= g.
Proof.
  induction l as [|x l IH]; intros H; [done|].
  rewrite !bind_cons, (H x) by left. f_equal. apply IH.
  intros; apply H; by right.
Qed.

(** The two registries differ at the two keys that only main9.py has. *)
Lemma registry8_agrees s :
  clean_steps s <> "san antonio" -> clean_steps s <> "new orleans" ->
  Registry8._clean s = _clean s.
Proof.
  intros H1 H2. unfold Registry8._clean, _clean. cbn zeta.
  generalize dependent (clean_steps s). intros key H1 H2. f_equal.
  unfold Registry8.ALIASES, ALIASES. cbn [list_to_map foldr fst snd curry].
  repeat match goal with
  | |- <[?k := _]> _ !! key = <[?k := _]> _ !! key =>
      destruct (decide (k = key)) as [<-|];
      [by rewrite !lookup_insert_eq|rewrite !(lookup_insert_ne _ k key) by done]
  end.
  symmetry. rewrite !lookup_insert_ne by (by apply not_eq_sym). done.
Qed.

Lemma names_team teams games t : t ∈ teams -> t ∈ ByRegistry.names teams games.
Proof. intros. apply elem_of_app. by left. Qed.

Lemma names_game teams games g :
  g ∈ games ->
  home g ∈ ByRegistry.names teams games /\ away g ∈ ByRegistry.names teams games.
Proof.
  intros Hg. unfold ByRegistry.names.
  split; apply elem_of_app; right; apply list_elem_of_bind; exists g;
    (split; [|done]); [left|right; left].
Qed.

Lemma want_agrees (teams : list string) :
  (forall t, t ∈ teams -> Registry8._clean t = _clean t) ->
  (list_to_set (Registry8._clean <$> teams) : gset string)
  = list_to_set (_clean <$> teams).
Proof.
  intros H. f_equal. apply list_fmap_ext. intros i t Ht.
  apply H. by eapply list_elem_of_lookup_2.
Qed.

Lemma of_game_agrees want k d h a :
  Registry8._clean h = _clean h -> Registry8._clean a = _clean a ->
  ByRegistry.of_game Registry8._clean want k d h a = of_game want k d h a.
Proof. intros Hh Ha. unfold ByRegistry.of_game, of_game. by rewrite Hh, Ha. Qed.

Lemma main8_as_main9 today todays_games league_schedule teams days :
  Forall (fun g => today <= date g <= today + days - 1) todays_games ->
  (forall s, s ∈ ByRegistry.names teams (todays_games ++ league_schedule) ->
             clean_steps s <> "san antonio" /\ clean_steps s <> "new orleans") ->
  Main8.upcoming_opponents_next_week today todays_games league_schedule
    teams days
  = Main9.upcoming_opponents_next_week today todays_games
      (List.filter (fun g => negb (date g =? today)) league_schedule)
      teams days.
Proof.
  intros Hin Hnames.
  assert (forall s, s ∈ ByRegistry.names teams (todays_games ++ league_schedule)
                    -> Registry8._clean s = _clean s) as Hagree.
  { intros s Hs. destruct (Hnames s Hs). by apply registry8_agrees. }
  unfold Main8.upcoming_opponents_next_week,
    Main9.upcoming_opponents_next_week.
  rewrite want_agrees by (intros t Ht; by apply Hagree, names_team).
  set (end_ := today + (days - 1)).
  set (want := list_to_set (_clean <$> teams) : gset string).
  change (fun m g => if (today <=? date g) && (date g <=? end_)
                     then append_to (date g) g m else m)
    with (index_step today end_).
  set (idx := foldl (index_step today end_) ∅ league_schedule).
  change Main8.add_entries with (ByRegistry.add_entries Registry8._clean).
  apply filled_eq.
  { apply filled_days, (filled_games _ want date), filled_empty. }
  { eapply stocked_filled, stocked_main9, stocked_main9, stocked_empty. }
  intros k. apply sort_by_days. intros d.
  rewrite days_fold_lookup, (games_fold_lookup _ want date), lookup_total_empty.
  rewrite !main9_fold, lookup_total_empty. cbn [app].
  rewrite !on_day_app. f_equal.
  - apply (f_equal (on_day d)), bind_ext_in. intros g Hg.
    destruct (names_game teams (todays_games ++ league_schedule) g) as [Hh Ha];
      [apply elem_of_app; by left|].
    rewrite of_game_agrees by (by apply Hagree).
    rewrite Forall_forall in Hin. specialize (Hin g Hg).
    unfold main9, in_window.
    destruct (Z.leb_spec today (date g)), (Z.leb_spec (date g) end_);
      simpl; try done; unfold end_ in *; lia.
  - rewrite (on_day_bind d _ (fun cur => cur))
      by (intros cur e; apply main8_day_date).
    rewrite (on_day_bind d _ date) by (intros g e; apply main9_date).
    rewrite filter_eq_NoDup by apply NoDup_seqZ.
    rewrite <- day_agrees. case_bool_decide; [|done].
    rewrite bind_cons.
    change ([] ≫= main8_day Registry8._clean want k idx) with (@nil entry).
    rewrite app_nil_r. unfold main8_day, idx.
    rewrite index_lookup, lookup_empty. cbn [default app].
    apply bind_ext_in. intros g Hg%list_elem_of_filter. destruct Hg as [_ Hg].
    destruct (names_game teams (todays_games ++ league_schedule) g) as [Hh Ha];
      [apply elem_of_app; by right|].
    apply of_game_agrees; by apply Hagree.
Qed.

End merge8.

Section more_sources.
Import Sched Contrib Order.


(** *** main1.py *)

Lemma dated_append (P : Z -> Prop) keys k e (m : gmap string (list entry)) :
  k ∈ keys -> P e.1.1 -> dated P keys m -> dated P keys (append_to k e m).
Proof.
  intros Hk He Hm k' l e'. unfold append_to.
  destruct (decide (k = k')) as [<-|Hne].
  - rewrite lookup_insert_eq. intros [= <-] Hin.
    apply elem_of_app in Hin as [Hin|Hin].
    + match type of Hin with _ ∈ default [] ?x =>
        destruct x as [l0|] eqn:E end.
      * exact (Hm k l0 e' E Hin).
      * by apply elem_of_nil in Hin.
    + by apply list_elem_of_singleton in Hin as ->.
  - rewrite lookup_insert_ne by done. apply Hm.
Qed.

Lemma dated_add_sb_game (P : Z -> Prop) team_ids teams_index d m g :
  P d -> dated P team_ids m ->
  dated P team_ids (Main1.add_sb_game team_ids teams_index d m g).
Proof.
  intros Hd Hm. unfold Main1.add_sb_game.
  repeat case_bool_decide; repeat apply dated_append; done.
Qed.

Lemma dated_games (P : Z -> Prop) team_ids teams_index d gs m :
  P d -> dated P team_ids m ->
  dated P team_ids (foldl (Main1.add_sb_game team_ids teams_index d) m gs).
Proof.
  intros Hd. revert m. induction gs as [|g gs IH]; intros m Hm; [done|].
  cbn [foldl]. by apply IH, dated_add_sb_game.
Qed.

Lemma over_dates_returned (P : Z -> Prop) sb team_ids teams_index dates m m' :
  Main1.over_dates sb team_ids teams_index dates m = Returned m' ->
  (forall d, d ∈ dates -> P d) -> dated P team_ids m ->
  dated P team_ids m' /\ forall d, d ∈ dates -> is_Some (sb d).
Proof.
  revert m. induction dates as [|d dates IH]; intros m.
  - cbn [Main1.over_dates]. intros [= <-] _ Hm. split; [done|].
    by intros d ?%elem_of_nil.
  - cbn [Main1.over_dates]. destruct (sb d) as [games|] eqn:E; [|done].
    intros H HP Hm. destruct (IH _ H) as [Hm' Hall].
    + intros; apply HP; by right.
    + apply dated_games; [apply HP; left|done].
    + split; [done|]. intros d' Hd'. apply elem_of_cons in Hd' as [->|Hd']; [by rewrite E|auto].
Qed.

Lemma over_dates_raised sb team_ids teams_index dates m e :
  Main1.over_dates sb team_ids teams_index dates m = Raised e ->
  e = HTTPError /\ exists d, d ∈ dates /\ sb d = None.
Proof.
  revert m. induction dates as [|d dates IH]; intros m; [done|].
  cbn [Main1.over_dates]. destruct (sb d) as [games|] eqn:E.
  - intros (-> & d' & ? & ?)%IH. split; [done|]. exists d'. split; [by right|done].
  - intros [= <-]. split; [done|]. exists d. split; [left|done].
Qed.

Lemma date_range_days_elem start days d :
  d ∈ Main1.date_range_days start days <-> start <= d <= start + days.
Proof.
  unfold Main1.date_range_days. rewrite list_elem_of_fmap. split.
  - intros (i & -> & Hi%elem_of_seqZ). lia.
  - intros H. exists (d - start). split; [lia|]. apply elem_of_seqZ. lia.
Qed.

(** *** The day-by-day feed of main9.py *)

Lemma load_future_elem espn today days_ahead g :
  g ∈ Main9.load_future_games_from_espn espn today days_ahead <->
  today + 1 <= date g <= today + days_ahead
  /\ exists evs, espn (date g) = Some evs /\ (home g, away g) ∈ evs.
Proof.
  unfold Main9.load_future_games_from_espn.
  rewrite list_join_bind, list_fmap_bind, list_elem_of_bind. split.
  - intros (i & Hg & Hi%elem_of_seqZ). simpl in Hg.
    destruct (espn (today + i)) as [evs|] eqn:E; [|by apply elem_of_nil in Hg].
    apply list_elem_of_fmap in Hg as ([h a] & -> & Hin). simpl.
    split; [lia|]. by exists evs.
  - intros (Hd & evs & E & Hin). exists (date g - today).
    split; [|apply elem_of_seqZ; lia]. simpl.
    replace (today + (date g - today)) with (date g) by lia. rewrite E.
    apply list_elem_of_fmap. exists (home g, away g). split; [|done].
    by destruct g.
Qed.

(** *** The choice of the schedule of main8.py *)

Lemma coverage_nonneg today games : 0 <= Discover.coverage today games.
Proof. unfold Discover.coverage. lia. Qed.

Lemma best_of_step fetch today p best url :
  Discover.best_of fetch today p best ->
  Discover.best_of fetch today (p ++ [url]) (Discover.step fetch today best url).
Proof.
  intros H. unfold Discover.step.
  destruct (fetch url) as [[|g games]|] eqn:E.
  - destruct H as [[-> H]|(Hne & Hc & pre & u & post & -> & Hu & Hpre & Hpost)].
    + left. split; [done|]. intros u Hu; apply elem_of_app in Hu as [Hu|Hu];
        [|apply list_elem_of_singleton in Hu as ->];
        [auto|by right].
    + right. split; [done|]. split; [done|].
      exists pre, u, (post ++ [url]). rewrite <- app_assoc. split; [done|].
      split; [done|]. split; [done|].
      intros u' gs Hu'; apply elem_of_app in Hu' as [Hu'|Hu'];
        [|apply list_elem_of_singleton in Hu' as ->]; [eauto|].
      rewrite E. by intros [= <-].
  - destruct H as [[-> H]|(Hne & Hc & pre & u & post & -> & Hu & Hpre & Hpost)].
    + right. cbn [snd].
      pose proof (coverage_nonneg today (g :: games)).
      destruct (Z.ltb_spec (-1) (Discover.coverage today (g :: games)));
        [|lia].
      cbn [fst snd]. split; [done|]. split; [done|].
      exists p, url, []. split; [done|]. split; [done|].
      split; [|by intros u gs ?%elem_of_nil].
      intros u gs Hu Hf Hgs. destruct (H u Hu) as [Hn|Hn]; congruence.
    + right.
      destruct (Z.ltb_spec best.2 (Discover.coverage today (g :: games)))
        as [Hlt|Hge]; cbn [fst snd].
      * split; [done|]. split; [done|].
        exists (pre ++ u :: post), url, []. split; [done|]. split; [done|].
        split; [|by intros u' gs ?%elem_of_nil].
        intros u' gs Hu' Hf Hgs. rewrite Hc in Hlt.
        apply elem_of_app in Hu' as [Hu'|Hu'].
        -- specialize (Hpre u' gs Hu' Hf Hgs). lia.
        -- apply elem_of_cons in Hu' as [->|Hu'].
           ++ rewrite Hu in Hf. injection Hf as <-. lia.
           ++ specialize (Hpost u' gs Hu' Hf Hgs). lia.
      * split; [done|]. split; [done|].
        exists pre, u, (post ++ [url]). rewrite <- app_assoc. split; [done|].
        split; [done|]. split; [done|].
        intros u' gs Hu'; apply elem_of_app in Hu' as [Hu'|Hu'];
        [|apply list_elem_of_singleton in Hu' as ->]; [eauto|].
        rewrite E. intros [= <-] _. lia.
  - destruct H as [[-> H]|(Hne & Hc & pre & u & post & -> & Hu & Hpre & Hpost)].
    + left. split; [done|]. intros u Hu; apply elem_of_app in Hu as [Hu|Hu];
        [|apply list_elem_of_singleton in Hu as ->];
        [auto|by left].
    + right. split; [done|]. split; [done|].
      exists pre, u, (post ++ [url]). rewrite <- app_assoc. split; [done|].
      split; [done|]. split; [done|].
      intros u' gs Hu'; apply elem_of_app in Hu' as [Hu'|Hu'];
        [|apply list_elem_of_singleton in Hu' as ->]; [eauto|].
      by rewrite E.
Qed.

Lemma best_of_loop fetch today p best urls :
  Discover.best_of fetch today p best ->
  Discover.best_of fetch today (p ++ urls)
    (foldl (Discover.step fetch today) best urls).
Proof.
  revert p best. induction urls as [|url urls IH]; intros p best H.
  - by rewrite app_nil_r.
  - cbn [foldl]. rewrite (cons_middle url p urls), app_assoc.
    by apply IH, best_of_step.
Qed.

End more_sources.

(** X17. The sort of the list of a team: the result has the entries of the
    list, in the order of their dates, and the entries of one day keep the
    order in which they were appended. *)
Theorem sort_by_date_is_stable (l : list Sched.entry) :
  StronglySorted Order.by_date (Sched.sort_by_date l)
  /\ Sched.sort_by_date l ≡ₚ l
  /\ forall d, Order.on_day d (Sched.sort_by_date l) = Order.on_day d l.
Proof.
  split; [apply sort_by_date_sorted|]. split; [apply sort_by_date_perm|].
  intros d. apply on_day_sort.
Qed.

(** X18. What main9.py lists for a key [k], as [opponents.get(k, [])] reads
    it: an entry is there exactly when a team of [teams] has the normal form
    of [k] and the entry is that of a record, of today's games or of the
    future games, dated in the window [today .. today + days - 1], in which
    [k] is the home name or the away name. *)
Theorem main9_lists_exactly_the_matching_games
    today todays_games future_games teams days k e :
  e ∈ Main9.upcoming_opponents_next_week today todays_games future_games
        teams days !!! k
  <-> (exists t, t ∈ teams /\ _clean t = _clean k)
      /\ exists g,
           g ∈ todays_games ++ future_games
           /\ today <= date g <= today + days - 1
           /\ ((home g = k /\ e = (date g, away g, HOME))
               \/ (away g = k /\ e = (date g, home g, AWAY))).
Proof.
  rewrite main9_lookup, list_elem_of_bind. split.
  - intros (g & He & Hg). apply main9_elem in He as [Hd He].
    destruct He as [(Hw & <- & ->)|(Hw & <- & ->)];
      (split; [by apply wanted_iff|]); exists g;
      (split; [done|]); (split; [lia|]); auto.
  - intros (Hw%wanted_iff & g & Hg & Hd & He). exists g. split; [|done].
    apply main9_elem. split; [lia|].
    destruct He as [[<- ->]|[<- ->]]; auto.
Qed.

Lemma main9_list_invariants
    today todays_games future_games teams days k l :
  Main9.upcoming_opponents_next_week today todays_games future_games
    teams days !! k = Some l ->
  l <> []
  /\ StronglySorted Order.by_date l
  /\ (forall e, e ∈ l -> today <= e.1.1 <= today + days - 1)
  /\ exists t, t ∈ teams /\ _clean t = _clean k.
Proof.
  intros Hl. pose proof Hl as Hl'.
  unfold Main9.upcoming_opponents_next_week in Hl'.
  apply sorted_lookup_Some in Hl' as (l0 & Hl0 & ->).
  apply stocked_main9 in Hl0 as [Hne Hw];
    [|apply stocked_main9, stocked_empty].
  split; [by intros ?%sort_by_date_nil|].
  split; [apply sort_by_date_sorted|].
  split; [|by apply wanted_iff].
  intros e He. by eapply main9_dates_in_window.
Qed.

(** X19. Every list of the result of main9.py has an entry, is in the order
    of its dates, has its dates in the window [today .. today + days - 1],
    and is stored under a name with the normal form of one of [teams]. *)
Theorem main9_lists_are_sorted_and_in_the_window
    today todays_games future_games teams days k l :
  Main9.upcoming_opponents_next_week today todays_games future_games
    teams days !! k = Some l ->
  l <> []
  /\ StronglySorted Order.by_date l
  /\ (forall e, e ∈ l -> today <= e.1.1 <= today + days - 1)
  /\ exists t, t ∈ teams /\ _clean t = _clean k.
Proof. apply main9_list_invariants. Qed.

Lemma main9_lists_are_sorted_and_in_the_window_witness :
  let today := 739252 in
  let l := [ (today, "Denver Nuggets", HOME); (today + 2, "Utah Jazz", AWAY) ] in
  l <> []
  /\ StronglySorted Order.by_date l
  /\ (forall e, e ∈ l -> today <= e.1.1 <= today + 7 - 1)
  /\ exists t, t ∈ ["LA Clippers"] /\ _clean t = _clean "Los Angeles Clippers".
Proof.
  intros today l.
  apply (main9_lists_are_sorted_and_in_the_window today
    [ {| date := today; home := "Los Angeles Clippers";
         away := "Denver Nuggets" |} ]
    [ {| date := today + 2; home := "Utah Jazz";
         away := "Los Angeles Clippers" |};
      {| date := today + 9; home := "Los Angeles Clippers";
         away := "Miami Heat" |} ]
    ["LA Clippers"] 7 "Los Angeles Clippers" l).
  vm_compute. reflexivity.
Defined.

(** X20. [load_future_games_from_espn] returns the records of the days [today
    + 1 .. today + days_ahead] whose request succeeded, each with the date
    of its day, and nothing else: a day whose request raises is skipped. *)
Theorem feed_records_are_those_of_the_days_ahead espn today days_ahead g :
  g ∈ Main9.load_future_games_from_espn espn today days_ahead <->
  today + 1 <= date g <= today + days_ahead
  /\ exists evs, espn (date g) = Some evs /\ (home g, away g) ∈ evs.
Proof. apply load_future_elem. Qed.

(** X21. With [days_ahead <= days - 1], as in [main] (6 and 7), the window of
    the merge drops no record of the day-by-day feed: a record whose home or
    away name has the normal form of a requested team gives its entry under
    that name. *)
Theorem main9_window_keeps_the_feed
    espn today days_ahead todays_games teams days g t :
  days_ahead <= days - 1 ->
  g ∈ Main9.load_future_games_from_espn espn today days_ahead ->
  t ∈ teams ->
  let result :=
    Main9.upcoming_opponents_next_week today todays_games
      (Main9.load_future_games_from_espn espn today days_ahead) teams days in
  (_clean t = _clean (home g) ->
   (date g, away g, HOME) ∈ result !!! home g)
  /\ (_clean t = _clean (away g) ->
      (date g, home g, AWAY) ∈ result !!! away g).
Proof.
  intros Hd Hg Ht result. pose proof Hg as [Hdate _]%load_future_elem.
  unfold result. split; intros Hc.
  - rewrite main9_lookup, list_elem_of_bind. exists g.
    split; [|apply elem_of_app; by right].
    apply main9_elem. split; [lia|]. left.
    split; [apply wanted_iff; by exists t|done].
  - rewrite main9_lookup, list_elem_of_bind. exists g.
    split; [|apply elem_of_app; by right].
    apply main9_elem. split; [lia|]. right.
    split; [apply wanted_iff; by exists t|done].
Qed.

Lemma main9_window_keeps_the_feed_witness :
  let today := 739252 in
  let espn : Main9.feed := fun d =>
    if d =? today + 6 then Some [("Utah Jazz", "Boston Celtics")] else None in
  let result :=
    Main9.upcoming_opponents_next_week today []
      (Main9.load_future_games_from_espn espn today 6) ["Boston Celtics"] 7 in
  (_clean "Boston Celtics" = _clean "Utah Jazz" ->
   (today + 6, "Boston Celtics", HOME) ∈ result !!! "Utah Jazz")
  /\ (_clean "Boston Celtics" = _clean "Boston Celtics" ->
      (today + 6, "Utah Jazz", AWAY) ∈ result !!! "Boston Celtics").
Proof.
  intros today espn.
  apply (main9_window_keeps_the_feed espn today 6 [] ["Boston Celtics"] 7
           {| date := today + 6; home := "Utah Jazz"; away := "Boston Celtics" |}
           "Boston Celtics").
  - lia.
  - vm_compute. left.
  - left.
Defined.

(** X22. The merge of main8.py, which indexes the schedule by date and walks
    the days after today, and the merge of main9.py, which filters the
    records one by one, give the same dictionary on the same live records
    and the schedule less its records of today, when the live records are
    dated in the window and no team asked for and no team of a record has
    the normal form [san antonio] or [new orleans] before the alias table
    is read: these are the two keys that the table of main9.py has and
    that of main8.py lacks. *)
Theorem main8_merge_is_the_merge_of_main9
    today todays_games league_schedule teams days :
  Forall (fun g => today <= date g <= today + days - 1) todays_games ->
  (forall s, s ∈ ByRegistry.names teams (todays_games ++ league_schedule) ->
             clean_steps s <> "san antonio" /\ clean_steps s <> "new orleans") ->
  Main8.upcoming_opponents_next_week today todays_games league_schedule
    teams days
  = Main9.upcoming_opponents_next_week today todays_games
      (List.filter (fun g => negb (date g =? today)) league_schedule)
      teams days.
Proof. apply main8_as_main9. Qed.

Lemma main8_merge_is_the_merge_of_main9_witness :
  let today := 739252 in
  let todays_games :=
    [ {| date := today; home := "LA Clippers"; away := "Denver Nuggets" |} ] in
  let league_schedule :=
    [ {| date := today + 2; home := "Utah Jazz"; away := "Denver Nuggets" |};
      {| date := today; home := "Los Angeles Clippers";
         away := "Denver Nuggets" |};
      {| date := today + 1; home := "Denver Nuggets"; away := "Miami Heat" |} ] in
  Main8.upcoming_opponents_next_week today todays_games league_schedule
    ["Denver Nuggets"] 7
  = Main9.upcoming_opponents_next_week today todays_games
      (List.filter (fun g => negb (date g =? today)) league_schedule)
      ["Denver Nuggets"] 7.
Proof.
  intros today todays_games league_schedule.
  apply main8_merge_is_the_merge_of_main9.
  - repeat constructor; vm_compute; discriminate.
  - intros s Hs. vm_compute in Hs.
    repeat (apply elem_of_cons in Hs as [->|Hs];
            [split; vm_compute; discriminate|]).
    by apply elem_of_nil in Hs.
Defined.

(** Where the hypothesis on the names fails: main9.py knows the text
    [San Antonio] as the Spurs, main8.py does not. *)
Example main8_and_main9_differ_on_an_alias :
  let today := 739252 in
  let schedule :=
    [ {| date := today + 1; home := "San Antonio"; away := "Utah Jazz" |} ] in
  Main8.upcoming_opponents_next_week today [] schedule
    ["San Antonio Spurs"] 7 = ∅
  /\ Main9.upcoming_opponents_next_week today [] schedule
       ["San Antonio Spurs"] 7 !! "San Antonio"
     = Some [ (today + 1, "Utah Jazz", HOME) ].
Proof. split; vm_compute; reflexivity. Qed.


(** X23. main1.py asks for one scoreboard per day of [today .. today + days].
    Either every day is answered, and then every entry is stored under one
    of [team_ids] with a date of that range; or the call raises the error of
    a day of that range: one failed day loses the whole result. *)
Theorem main1_every_day_or_nothing today sb team_ids teams_index days :
  match Main1.upcoming_opponents_next_week today sb team_ids teams_index days with
  | Returned by_team =>
      (forall d, today <= d <= today + days -> is_Some (sb d))
      /\ forall k l e,
           by_team !! k = Some l -> e ∈ l ->
           k ∈ team_ids /\ today <= e.1.1 <= today + days
  | Raised e =>
      e = HTTPError /\ exists d, today <= d <= today + days /\ sb d = None
  end.
Proof.
  unfold Main1.upcoming_opponents_next_week.
  destruct (Main1.over_dates _ _ _ _ _) as [m|e] eqn:E.
  - apply (over_dates_returned (fun d => today <= d <= today + days)) in E
      as [Hm Hall].
    + split.
      * intros d Hd. by apply Hall, date_range_days_elem.
      * intros k l e Hl He. apply sorted_lookup_Some in Hl as (l0 & Hl0 & ->).
        rewrite sort_by_date_perm in He. by eapply Hm.
    + intros d. apply date_range_days_elem.
    + intros k l e Hl. by rewrite lookup_empty in Hl.
  - apply over_dates_raised in E as (-> & d & Hd%date_range_days_elem & Hn).
    split; [done|]. by exists d.
Qed.

(** X24. [discover_league_schedule] returns the empty list when no file gives
    a schedule with a game; otherwise it returns the schedule of the first
    file, in the order tried, whose coverage (the number of its games in
    [today .. today + 30]) is the largest, also when that coverage is zero.
    *)
Theorem discovery_returns_the_first_best_schedule fetch today :
  let result := Discover.discover_league_schedule fetch today in
  (result = []
   /\ forall u, u ∈ Discover.candidates ->
        fetch u = None \/ fetch u = Some [])
  \/ (result <> []
      /\ exists pre url post,
           Discover.candidates = pre ++ url :: post
           /\ fetch url = Some result
           /\ (forall u gs, u ∈ pre -> fetch u = Some gs -> gs <> [] ->
                 Discover.coverage today gs < Discover.coverage today result)
           /\ (forall u gs, u ∈ post -> fetch u = Some gs -> gs <> [] ->
                 Discover.coverage today gs <= Discover.coverage today result)).
Proof.
  intros result.
  assert (Discover.best_of fetch today [] ([], -1)) as H0.
  { left. split; [done|]. by intros u ?%elem_of_nil. }
  apply (best_of_loop _ _ _ _ Discover.candidates) in H0.
  cbn [app] in H0. unfold result, Discover.discover_league_schedule.
  destruct H0 as [[-> H]|(Hne & _ & H)]; [by left|by right].
Qed.

(** ** The loaders of main9.py *)

Section loaders.
Import Json Load9.

Lemma full_name_canonical g key nm :
  full_name g key = Some nm -> canonicalize nm = nm.
Proof.
  unfold full_name. intros H.
  apply bind_Some in H as (h & _ & H).
  apply bind_Some in H as (city & _ & H).
  apply bind_Some in H as (name & _ & H).
  apply (inj Some) in H. subst nm. apply canonicalize_idem.
Qed.

Lemma todays_record_spec today g r :
  todays_record today g = Some r ->
  date r = today /\ canonicalize (home r) = home r
  /\ canonicalize (away r) = away r.
Proof.
  unfold todays_record. intros H.
  apply bind_Some in H as (h & Hh & H).
  apply bind_Some in H as (a & Ha & H).
  apply (inj Some) in H. subst r. cbn [date home away].
  split; [reflexivity|]. split; eapply full_name_canonical; eassumption.
Qed.

Lemma load_todays_games_elem r today g :
  g ∈ load_todays_games r today ->
  exists rr data scoreboard games items v,
    r = Some rr /\ status rr = 200 /\ body rr = Some data
    /\ get data "scoreboard" Null = Some scoreboard
    /\ get (or_ scoreboard (Obj [])) "games" Null = Some games
    /\ iter (or_ games (Arr [])) = Some items
    /\ v ∈ items /\ todays_record today v = Some g.
Proof.
  unfold load_todays_games. intros H.
  destruct r as [rr|]; [|by apply elem_of_nil in H].
  cbn [mbind option_bind] in H.
  destruct (Z.eqb_spec (status rr) 200) as [Hs|Hs];
    [|by apply elem_of_nil in H].
  cbn [negb] in H. destruct (body rr) as [data|] eqn:Hb;
    [|by apply elem_of_nil in H].
  cbn [mbind option_bind] in H.
  destruct (get data "scoreboard" Null) as [scoreboard|] eqn:H1;
    [|by apply elem_of_nil in H].
  cbn [mbind option_bind] in H.
  destruct (get (or_ scoreboard (Obj [])) "games" Null) as [games|] eqn:H2;
    [|by apply elem_of_nil in H].
  cbn [mbind option_bind] in H.
  destruct (iter (or_ games (Arr []))) as [items|] eqn:H3;
    [|by apply elem_of_nil in H].
  cbn [mbind option_bind] in H.
  destruct (mapM (todays_record today) items) as [out|] eqn:H4;
    [|by apply elem_of_nil in H].
  cbn [default] in H. apply mapM_Some in H4.
  apply list_elem_of_lookup in H as [i Hi].
  destruct (Forall2_lookup_r _ _ _ _ _ H4 Hi) as (v & Hv & Hrec).
  exists rr, data, scoreboard, games, items, v.
  repeat split; try done. by eapply list_elem_of_lookup_2.
Qed.

Lemma competitor_name_canonical t nm :
  competitor_name t = Some nm -> canonicalize nm = nm.
Proof.
  unfold competitor_name. intros H.
  apply bind_Some in H as (team & _ & H).
  apply bind_Some in H as (display & _ & H).
  apply bind_Some in H as (raw & _ & H).
  apply (inj Some) in H. subst nm. apply canonicalize_idem.
Qed.

Lemma competitors_canonical teams hn an hn' an' :
  competitors teams hn an = Some (hn', an') ->
  (forall h, hn = Some h -> canonicalize h = h) ->
  (forall a, an = Some a -> canonicalize a = a) ->
  (forall h, hn' = Some h -> canonicalize h = h)
  /\ (forall a, an' = Some a -> canonicalize a = a).
Proof.
  revert hn an. induction teams as [|t teams IH]; intros hn an.
  - cbn [competitors]. intros H Hh Ha. injection H as <- <-. by split.
  - cbn [competitors]. intros H Hh Ha.
    apply bind_Some in H as (nm & E & H).
    apply bind_Some in H as (side & _ & H).
    apply competitor_name_canonical in E.
    destruct (eq_str side "home").
    + apply (IH _ _ H); [|exact Ha].
      intros h Heq. apply (inj Some) in Heq. subst h. exact E.
    + apply (IH _ _ H); [exact Hh|].
      intros a Heq. apply (inj Some) in Heq. subst a. exact E.
Qed.

Lemma event_record_spec ev h a :
  event_record ev = Some (Some (h, a)) ->
  h <> "" /\ a <> "" /\ canonicalize h = h /\ canonicalize a = a.
Proof.
  unfold event_record. intros H.
  apply bind_Some in H as (competitions & _ & H).
  apply bind_Some in H as (comps & _ & H).
  apply bind_Some in H as (teams & _ & H).
  apply bind_Some in H as (ts & _ & H).
  apply bind_Some in H as ([hn an] & E & H).
  apply competitors_canonical in E as [Hh Ha];
    [|intros ? Hn; discriminate Hn|intros ? Hn; discriminate Hn].
  apply (inj Some) in H.
  destruct hn as [h'|]; [|discriminate H].
  destruct an as [a'|]; [|discriminate H].
  destruct (Py.truthy (Some h')) eqn:Th; [|discriminate H].
  destruct (Py.truthy (Some a')) eqn:Ta; [|discriminate H].
  cbn [andb] in H. injection H as <- <-.
  split; [intros ->; discriminate Th|].
  split; [intros ->; discriminate Ta|].
  split; [apply Hh|apply Ha]; reflexivity.
Qed.

Lemma fetch_espn_elem r evs h a :
  fetch_espn_games_for_date r = Some evs -> (h, a) ∈ evs ->
  exists ev, event_record ev = Some (Some (h, a)).
Proof.
  unfold fetch_espn_games_for_date. intros H Hin.
  destruct r as [rr|]; [|done]. cbn [mbind option_bind] in H.
  destruct (negb _).
  { injection H as <-. by apply elem_of_nil in Hin. }
  destruct (body rr) as [payload|]; [|done]. cbn [mbind option_bind] in H.
  destruct (get payload "events" Null) as [events|]; [|done].
  cbn [mbind option_bind] in H.
  destruct (iter _) as [items|]; [|done]. cbn [mbind option_bind] in H.
  destruct (mapM event_record items) as [records|] eqn:E; [|done].
  cbn [mbind option_bind] in H. injection H as <-.
  apply list_elem_of_omap in Hin as (o & Ho & Heq). cbn [id] in Heq. subst o.
  apply mapM_Some in E. apply list_elem_of_lookup in Ho as [i Hi].
  destruct (Forall2_lookup_r _ _ _ _ _ E Hi) as (ev & _ & Hev).
  by exists ev.
Qed.

End loaders.

(** X25. Every record that [load_todays_games] returns is dated today, and
    its two names are fixed points of [canonicalize]. *)
Theorem todays_records_are_dated_today_and_canonical r today g :
  g ∈ Load9.load_todays_games r today ->
  date g = today
  /\ canonicalize (home g) = home g /\ canonicalize (away g) = away g.
Proof.
  intros (rr & data & scoreboard & games & items & v & _ & _ & _ & _ & _ & _
          & _ & H)%load_todays_games_elem.
  by apply todays_record_spec in H.
Qed.

Lemma todays_records_are_dated_today_and_canonical_witness :
  let g := {| date := 739252; home := "Los Angeles Clippers";
              away := "Seattle SuperSonics" |} in
  date g = 739252
  /\ canonicalize (home g) = home g /\ canonicalize (away g) = away g.
Proof.
  intros g.
  apply (todays_records_are_dated_today_and_canonical
    (Some {| status := 200;
             body := Some (Json.Obj
               [("scoreboard", Json.Obj
                  [("games", Json.Arr
                     [Json.Obj
                        [("homeTeam", Json.Obj
                            [("teamCity", Json.Str "LA");
                             ("teamName", Json.Str " Clippers ")]);
                         ("awayTeam", Json.Obj
                            [("teamCity", Json.Str "Seattle");
                             ("teamName", Json.Str "SuperSonics")])]])])]) |})
    739252 g).
  vm_compute. left.
Defined.

(** X26. Every record that [fetch_espn_games_for_date] returns has a home
    name and an away name that are not empty and are fixed points of
    [canonicalize]. *)
Theorem feed_names_are_nonempty_and_canonical r evs h a :
  Load9.fetch_espn_games_for_date r = Some evs -> (h, a) ∈ evs ->
  h <> "" /\ a <> "" /\ canonicalize h = h /\ canonicalize a = a.
Proof.
  intros H Hin. destruct (fetch_espn_elem r evs h a H Hin) as [ev Hev].
  by apply event_record_spec in Hev.
Qed.

Lemma feed_names_are_nonempty_and_canonical_witness :
  "Utah Jazz" <> "" /\ "Los Angeles Lakers" <> ""
  /\ canonicalize "Utah Jazz" = "Utah Jazz"
  /\ canonicalize "Los Angeles Lakers" = "Los Angeles Lakers".
Proof.
  apply (feed_names_are_nonempty_and_canonical
    (Some {| status := 200;
             body := Some (Json.Obj
               [("events", Json.Arr
                  [Json.Obj
                     [("competitions", Json.Arr
                        [Json.Obj
                           [("competitors", Json.Arr
                              [Json.Obj
                                 [("homeAway", Json.Str "home");
                                  ("team", Json.Obj
                                     [("displayName", Json.Str "Utah Jazz")])];
                               Json.Obj
                                 [("homeAway", Json.Str "away");
                                  ("team", Json.Obj
                                     [("location", Json.Str "LA");
                                      ("name", Json.Str "Lakers")])]])]])];
                   Json.Obj [("competitions", Json.Arr [])]])]) |})
    [("Utah Jazz", "Los Angeles Lakers")]).
  - vm_compute. reflexivity.
  - left.
Defined.

(** ** The index page of main1.py, and the whole of main9.py *)

Section listing.
Import Py Soup Listing1.

Lemma absolute_dedupe candidates :
  absolute candidates
  = Select.dedupe
      ((fun href => if startswith "/" href then "https://www.nba.com" +:+ href
                    else href) <$> candidates).
Proof.
  unfold absolute, Select.dedupe. rewrite foldl_fmap. f_equal.
  generalize (∅ : gset string, @nil string).
  induction candidates as [|c cs IH]; intros st; [done|].
  cbn [foldl]. rewrite <- IH. f_equal. by destruct st.
Qed.

Lemma absolute_head candidates :
  head (absolute candidates)
  = (fun href => if startswith "/" href then "https://www.nba.com" +:+ href
                 else href) <$> head candidates.
Proof.
  rewrite absolute_dedupe. destruct candidates as [|c cs]; [done|].
  rewrite fmap_cons. by rewrite dedupe_cons.
Qed.

End listing.

(** X27. [get_latest_power_rankings_url] of main1.py, when the index page is
    fetched, returns the first link in document order that the loop accepts,
    with the site prefix when it starts with a slash; the removal of
    duplicates does not change the result. It raises [RuntimeError] exactly
    when the loop accepts no link. *)
Theorem main1_takes_the_first_link sess resp :
  sess Listing1.POWER_RANKINGS_INDEX = Some resp ->
  raises_for_status resp = false ->
  Listing1.get_latest_power_rankings_url sess
  = match omap Listing1.candidate (Listing1.anchors (soup resp)) with
    | [] => Raised (RuntimeError
              "Could not locate a Power Rankings article link on nba.com.")
    | href :: _ =>
        Returned (if Py.startswith "/" href then "https://www.nba.com" +:+ href
                  else href)
    end.
Proof.
  intros Hs Hr. unfold Listing1.get_latest_power_rankings_url.
  rewrite Hs, Hr.
  pose proof (absolute_head (omap Listing1.candidate
                               (Listing1.anchors (soup resp)))) as H.
  destruct (omap Listing1.candidate _) as [|href rest];
    destruct (Listing1.absolute _) as [|first rest']; try done.
  by injection H as ->.
Qed.

Lemma main1_takes_the_first_link_witness :
  Listing1.get_latest_power_rankings_url
    (Doc.serve [(Listing1.POWER_RANKINGS_INDEX, Doc.index_page)])
  = Returned Doc.week2.
Proof.
  rewrite (main1_takes_the_first_link _ Doc.index_page).
  - vm_compute. reflexivity.
  - vm_compute. reflexivity.
  - vm_compute. reflexivity.
Defined.

Section pipeline.
Import Sched Contrib Order.

Lemma roster_name_of_key t k :
  t ∈ CANON_TEAMS -> _clean t = _clean k -> canonicalize k = k -> k = t.
Proof.
  intros Ht Hk Hfix.
  assert (is_team_name t = true) as Hn.
  { apply is_team_name_spec. exists t. split; [exact Ht|reflexivity]. }
  rewrite <- Hfix, <- (canonicalize_by_key t k Hn Hk).
  by apply canonicalize_roster.
Qed.

Lemma main9_key_is_a_name today todays_games future_games teams days k l :
  Main9.upcoming_opponents_next_week today todays_games future_games
    teams days !! k = Some l ->
  exists g, g ∈ todays_games ++ future_games /\ (home g = k \/ away g = k).
Proof.
  intros Hl.
  assert (l <> []) as Hne.
  { unfold Main9.upcoming_opponents_next_week in Hl.
    apply sorted_lookup_Some in Hl as (l0 & Hl0 & ->).
    apply stocked_main9 in Hl0 as [Hne _];
      [|apply stocked_main9, stocked_empty].
    by intros ?%sort_by_date_nil. }
  destruct l as [|e l]; [done|].
  assert (e ∈ Main9.upcoming_opponents_next_week today todays_games
                future_games teams days !!! k) as He.
  { rewrite lookup_total_alt, Hl. left. }
  rewrite main9_lookup in He.
  apply list_elem_of_bind in He as (g & He & Hg).
  apply main9_elem in He as [_ [(_ & ? & _)|(_ & ? & _)]]; exists g; auto.
Qed.

End pipeline.

(** X28. The steps of [main] of main9.py fit together: with the teams that
    [parse_top_teams_from_article] returned and the records of the two
    loaders, every key of the merged result is one of these teams, the very
    string [main] looks up. A game of a top team is never stored under
    another spelling. *)
Theorem main9_files_every_list_under_a_top_team
    sess url top_n trace top nba answers today days_ahead days k l :
  Extract.parse_top_teams_from_article sess url top_n = (trace, Returned top) ->
  Main9.upcoming_opponents_next_week today
    (Load9.load_todays_games nba today)
    (Main9.load_future_games_from_espn (Load9.feed_of answers) today days_ahead)
    top days !! k = Some l ->
  k ∈ top.
Proof.
  intros [_ Hroster]%parse_returned_roster Hl.
  pose proof Hl as (g & Hg & Hk)%main9_key_is_a_name.
  pose proof Hl as (_ & _ & _ & t & Ht & Hc)%main9_list_invariants.
  rewrite Forall_forall in Hroster.
  assert (canonicalize k = k) as Hfix.
  { apply elem_of_app in Hg as [Hg|Hg].
    - apply load_todays_games_elem in Hg
        as (? & ? & ? & ? & ? & ? & _ & _ & _ & _ & _ & _ & _ & Hrec).
      apply todays_record_spec in Hrec as (_ & Hh & Ha).
      destruct Hk as [<-|<-]; assumption.
    - apply load_future_elem in Hg as (_ & evs & Hf & Hin).
      unfold Load9.feed_of in Hf.
      destruct (fetch_espn_elem _ _ _ _ Hf Hin) as [ev Hev].
      apply event_record_spec in Hev as (_ & _ & Hh & Ha).
      destruct Hk as [<-|<-]; assumption. }
  by rewrite (roster_name_of_key t k (Hroster t Ht) Hc Hfix).
Qed.

Lemma main9_files_every_list_under_a_top_team_witness :
  "Denver Nuggets"
  ∈ [ "Boston Celtics"; "Denver Nuggets"; "Oklahoma City Thunder";
      "Los Angeles Clippers" ].
Proof.
  apply (main9_files_every_list_under_a_top_team
    (Doc.serve [(Doc.week2, Doc.page_of Doc.headings)]) Doc.week2 4
    [MarkerScan; OrdinalScan] _
    (Some {| status := 200;
             body := Some (Json.Obj
               [("scoreboard", Json.Obj
                  [("games", Json.Arr
                     [Json.Obj
                        [("homeTeam", Json.Obj
                            [("teamCity", Json.Str "Denver");
                             ("teamName", Json.Str "Nuggets")]);
                         ("awayTeam", Json.Obj
                            [("teamCity", Json.Str "LA");
                             ("teamName", Json.Str "Lakers")])]])])]) |})
    (fun _ => None) 739252 6 7 "Denver Nuggets"
    [(739252, "Los Angeles Lakers", HOME)]).
  - vm_compute. reflexivity.
  - vm_compute. reflexivity.
Defined.
